(** * timemachine: multi-state sampling and pair-BAR estimation

    A shallow embedding of [timemachine/fe/free_energy.py] and
    [timemachine/fe/rbfe.py]: the batch splitter, the two samplers, the
    sequential multi-state runner with its sliding window of
    [EnergyDecomposedState]s, the pair-BAR loops and the exception wrapper of
    [estimate_relative_free_energy].

    Conventions.
    - Python [int]s are [Z]; list positions and object identities are [nat].
    - Energies, works, [beta] and temperatures are real numbers ([R]): the
      rounding of the floating-point arithmetic is abstracted away, the
      index and sign structure of the computations is kept.
    - A Python call that may raise returns [Result A = exn + A]; the errors
      are instances of Python's [Exception] (what [except Exception]
      catches).
    - The molecular-dynamics engine ([custom_ops]), the potentials, the BAR
      estimators, the plotting routines and the construction of topologies
      are not part of these two files; they are collected in the records
      [Engine], [Analysis] and [Setup] and are parameters of the
      development. Of matplotlib, [plt.subplots] and the subscripts into
      the array of axes it returns are modelled; the drawing calls and
      [print] are taken not to raise.

    The development also embeds the pair-index helpers of
    [timemachine/potentials/jax_utils.py] and the parameter handlers of
    [timemachine/ff/handlers/bonded.py]; the substructure search and the
    OpenMM deserializer that the handlers call are the record [Toolkit]. *)

From Stdlib Require Import ZArith List Lia Reals Lra String Bool.
From stdpp Require Import base list sorting.
Import ListNotations.

Set Default Proof Using "Type".
Local Open Scope Z_scope.

(** ** Python exceptions and results *)

Inductive exn : Type :=
| AssertionError (msg : string)
| IndexError
| UnboundLocalError (name : string)
| AttributeError
| TypeError
| AxisError
| ValueError
| ExternalError (code : nat).

Definition Result (A : Type) : Type := (exn + A)%type.

Definition Ok {A} (a : A) : Result A := inr a.
Definition Raise {A} (e : exn) : Result A := inl e.

Definition rbind {A B} (m : Result A) (k : A -> Result B) : Result B :=
  match m with
  | inl e => inl e
  | inr a => k a
  end.

Notation "'let!' x ':=' m 'in' k" := (rbind m (fun x => k))
  (at level 10, x pattern, m at level 100, k at level 200).

(** Whether a call returned, rather than raised. *)
Definition returned {X A} (r : X + A) : bool :=
  match r with
  | inr _ => true
  | inl _ => false
  end.

(** An [assert] without a message. *)
Definition no_message : string := EmptyString.

(** [assert cond, msg] *)
Definition py_assert (cond : bool) (msg : string) : Result unit :=
  if cond then Ok tt else Raise (AssertionError msg).

(** ** [batches] (free_energy.py) *)

(** The generator is modelled by the list of the values it yields; a failed
    assertion yields nothing. [divmod] is floor division, as [Z.div] and
    [Z.modulo]. *)
Definition batches (n batch_size : Z) : Result (list Z) :=
  let! _ := py_assert (0 <=? n) no_message in
  let! _ := py_assert (0 <? batch_size) no_message in
  let quot := n / batch_size in
  let rem := n mod batch_size in
  Ok (repeat batch_size (Z.to_nat quot) ++ (if rem =? 0 then [] else [rem])).

Definition sumZ (l : list Z) : Z := fold_right Z.add 0 l.


(** ** The engine interface

    [custom_ops.Context], the integrator, the barostat and the potentials are
    compiled extensions outside of the two Python files. [Env] stands for
    everything that may differ between two invocations of the engine and is
    not part of an [InitialState] (the process, the device, the time of the
    call); whether the steps depend on it is a property of the engine, not
    of the two Python files. *)

Record Engine : Type := {
  Env : Type;
  Coords : Type;       (* an (N, 3) array of coordinates or velocities *)
  Box : Type;          (* a (3, 3) periodic box *)
  Potential : Type;    (* CustomOpWrapper *)
  BoundImpl : Type;    (* p.bound_impl(np.float32) *)
  Integrator : Type;   (* LangevinIntegrator, with its seed *)
  IntgImpl : Type;
  Barostat : Type;     (* MonteCarloBarostat, with its seed *)
  BaroImpl : Type;
  Ctxt : Type;         (* the state of a custom_ops.Context *)
  bound_impl : Potential -> BoundImpl;
  intg_impl : Integrator -> IntgImpl;
  baro_impl : Barostat -> list BoundImpl -> BaroImpl;
  Context : Coords -> Coords -> Box -> IntgImpl -> list BoundImpl ->
            option BaroImpl -> Ctxt;
  (* one step of the integrator (and barostat) *)
  step : Env -> Ctxt -> Ctxt;
  (* one step of the older API, which takes lambda at each call *)
  step_lamb : Env -> R -> Ctxt -> Ctxt;
  get_x_t : Ctxt -> Coords;
  get_box : Ctxt -> Box;
  (* np.all(np.isfinite(x)) *)
  all_finite : Coords -> bool;
  (* the energy returned by bp_impl.execute(x, box) and by the older
     bp_impl.execute(x, box, lamb) *)
  execute : BoundImpl -> Coords -> Box -> R;
  execute_lamb : BoundImpl -> Coords -> Box -> R -> R;
  (* type(U_fn).__name__ *)
  potential_name : Potential -> string;
}.

(** ** Arrays of energies

    A [(T,)] array of reduced energies or works is a [vec], the
    [(2, 2, T)] array of one component and one pair of windows a [ukln]:
    [idx2 u k l] is the energy function of state [k] on the frames
    sampled at state [l]. Arithmetic on arrays is elementwise. *)
Local Open Scope R_scope.

Definition vec : Type := list R.
Definition ukln : Type := list (list vec).

Definition vadd : vec -> vec -> vec := zip_with Rplus.
Definition vsub : vec -> vec -> vec := zip_with Rminus.
Definition vscale (a : R) : vec -> vec := map (Rmult a).
Definition tadd : ukln -> ukln -> ukln := zip_with (zip_with vadd).

Definition vzeros (T : nat) : vec := repeat 0 T.
Definition tzeros (T : nat) : ukln := repeat (repeat (vzeros T) 2) 2.

(** [u[k, l]]; the positions used are within the array. *)
Definition idx2 (u : ukln) (k l : nat) : vec := (u !!! k) !!! l.

(** [a.sum(0)] of a [(P, 2, 2, T)] array and [np.sum(vs, axis=0)] of [P]
    arrays of shape [(T,)]. *)
Definition sum0 (T : nat) (a : list ukln) : ukln := fold_left tadd a (tzeros T).
Definition vsum0 (T : nat) (vs : list vec) : vec := fold_left vadd vs (vzeros T).

(** [np.array(a).swapaxes(0, 1)] of a list of [L] rows of [P] items each;
    an empty list is a one-dimensional array and has no axis 1. *)
Definition swapaxes01 {A} (a : list (list A)) : Result (list (list A)) :=
  match a with
  | [] => Raise AxisError
  | row :: _ =>
      Ok (map (fun c => omap (fun r : list A => r !! c) a) (seq 0 (length row)))
  end.

Local Close Scope R_scope.

(** The BAR estimators, the overlap and error diagnostics, the figures and
    the constants of [timemachine.constants]: all outside of the two files. *)
Record Analysis : Type := {
  BOLTZ : R;
  DEFAULT_TEMP : R;
  bar_with_bootstrapped_uncertainty : vec -> vec -> Result (R * R);
  pymbar_BAR : vec -> vec -> Result (R * R);
  pair_overlap_from_ukln : ukln -> R;
  df_err_from_ukln : ukln -> R;
  PNG : Type;
  make_overlap_detail_figure :
    list string -> list R -> list R -> list (list ukln) -> R -> string -> PNG;
  make_dG_errs_figure :
    list string -> list R -> list R -> list (list R) -> PNG;
  make_overlap_summary_figure :
    list string -> list R -> list R -> list (list R) -> PNG;
}.

Existing Class Analysis.

(** [lamb_idx in keep_idxs] *)
Definition py_in (i : Z) (l : list Z) : bool := existsb (Z.eqb i) l.

(** A numpy array (or [StoredArrays]) object: its identity and its contents.
    The arrays of this development are never written after their creation,
    so an object is its identity paired with its contents; two names alias
    when the identities agree, a copy has a new identity. *)
Record ndarray (A : Type) : Type := mk_ndarray { obj_id : nat; data : A }.
Arguments mk_ndarray {A} _ _.
Arguments obj_id {A} _.
Arguments data {A} _.

(** [len(a) == n] for a Python int [n] *)
Definition len_is {A} (l : list A) (n : Z) : bool := Z.of_nat (length l) =? n.

(** [a[-1]] *)
Definition last_item {A} (l : list A) : Result A :=
  match last l with
  | Some x => Ok x
  | None => Raise IndexError
  end.

Section MultipleSteps.
Context {E : Engine}.

(** Modelled from the spec: [Context.multiple_steps_U] of the engine, which
    is not among the Python sources. It advances the context by [n_steps]
    steps and records the coordinates and the box after every
    [store_x_interval]-th step (none when the interval is 0). The steps are
    numbered from 1 within one call; the context keeps its state between
    calls. [steps k] runs the steps 1..k. *)
Fixpoint steps (stepf : Ctxt E -> Ctxt E) (store_x_interval : Z) (k : nat)
    (c : Ctxt E) : Ctxt E * (list (Coords E) * list (Box E)) :=
  match k with
  | O => (c, ([], []))
  | S k' =>
      let '(c1, (xs, bs)) := steps stepf store_x_interval k' c in
      let c2 := stepf c1 in
      if (0 <? store_x_interval) && (Z.of_nat k mod store_x_interval =? 0)
      then (c2, (xs ++ [get_x_t E c2], bs ++ [get_box E c2]))
      else (c2, (xs, bs))
  end.

(** The number of frames recorded in [k] steps at interval [d]. *)
Definition recorded (d : Z) (k : nat) : nat :=
  if 0 <? d then Z.to_nat (Z.of_nat k / d) else 0%nat.

Definition multiple_steps_U (stepf : Ctxt E -> Ctxt E) (c : Ctxt E)
    (n_steps store_x_interval : Z) : Ctxt E * (list (Coords E) * list (Box E)) :=
  steps stepf store_x_interval (Z.to_nat n_steps) c.
End MultipleSteps.

(** ** free_energy.py *)

Module FE.
Section Sampler.
Context {E : Engine}.

Record MDParams : Type := {
  n_frames : Z;
  n_eq_steps : Z;
  steps_per_frame : Z;
}.

Record InitialState : Type := {
  potentials : list (Potential E);
  integrator : Integrator E;
  barostat : option (Barostat E);
  x0 : Coords E;
  v0 : Coords E;
  box0 : Box E;
  lamb : R;
  ligand_idxs : list Z;
}.

(** [run_production_steps], the closure of [sample] over [ctxt] and
    [md_params]; the context it mutates is passed and returned. *)
Definition run_production_steps (env : Env E) (md_params : MDParams)
    (ctxt : Ctxt E) (n_steps : Z) : Ctxt E * (list (Coords E) * list (Box E)) :=
  multiple_steps_U (step E env) ctxt n_steps (steps_per_frame md_params).

(** The loop over [batches(...)] of the streaming path: [all_coords.extend]
    and [all_boxes_.extend] after each batch. *)
Fixpoint run_batches (env : Env E) (md_params : MDParams) (ctxt : Ctxt E)
    (bs : list Z) (all_coords : list (Coords E)) (all_boxes_ : list (Box E))
    : list (Coords E) * list (Box E) :=
  match bs with
  | [] => (all_coords, all_boxes_)
  | n :: bs' =>
      let '(ctxt', (batch_coords, batch_boxes)) :=
        run_production_steps env md_params ctxt (n * steps_per_frame md_params) in
      run_batches env md_params ctxt' bs'
        (all_coords ++ batch_coords) (all_boxes_ ++ batch_boxes)
  end.

(** [if max_buffer_frames:] is false for [None] and for [0]. *)
Definition truthy (max_buffer_frames : option Z) : option Z :=
  match max_buffer_frames with
  | Some m => if m =? 0 then None else Some m
  | None => None
  end.

(** The bound potentials, the integrator and barostat implementations and
    the [custom_ops.Context] that [sample] builds from the initial state. *)
Definition make_context (initial_state : InitialState) : Ctxt E :=
  let bound_impls := map (bound_impl E) (potentials initial_state) in
  let intg_impl := intg_impl E (integrator initial_state) in
  let baro_impl :=
    match barostat initial_state with
    | Some b => Some (baro_impl E b bound_impls)
    | None => None
    end in
  Context E (x0 initial_state) (v0 initial_state) (box0 initial_state)
    intg_impl bound_impls baro_impl.

Definition sample (env : Env E) (initial_state : InitialState)
    (md_params : MDParams) (max_buffer_frames : option Z)
    : Result (list (Coords E) * list (Box E)) :=
  let ctxt := make_context initial_state in
  (* burn-in *)
  let '(ctxt, _) := multiple_steps_U (step E env) ctxt (n_eq_steps md_params) 0 in
  let! _ := py_assert (all_finite E (get_x_t E ctxt))
              "Equilibration resulted in a nan" in
  let! (all_coords, all_boxes) :=
    match truthy max_buffer_frames with
    | Some m =>
        let! bs := batches (n_frames md_params) m in
        Ok (run_batches env md_params ctxt bs [] [])
    | None =>
        Ok (snd (run_production_steps env md_params ctxt
                   (n_frames md_params * steps_per_frame md_params)))
    end in
  let! _ := py_assert (len_is all_coords (n_frames md_params)) no_message in
  let! _ := py_assert (len_is all_boxes (n_frames md_params)) no_message in
  let! x_last := last_item all_coords in
  let! _ := py_assert (all_finite E x_last) "Production resulted in a nan" in
  Ok (all_coords, all_boxes).
End Sampler.
Arguments InitialState : clear implicits.

Section Runner.
Context {E : Engine} {A : Analysis}.

(** A batched energy function: frames and boxes to one reduced energy per
    frame. *)
Definition BatchUFn : Type := list (Coords E) -> list (Box E) -> vec.

(** Modelled from the spec: [EnergyDecomposedState] of
    energy_decomposition.py, a trajectory together with the per-term energy
    evaluators of its window. It holds the arrays it is given. *)
Record EnergyDecomposedState : Type := {
  eds_frames : ndarray (list (Coords E));
  eds_boxes : ndarray (list (Box E));
  eds_batch_u_fns : list BatchUFn;
}.

Definition beta_of (temperature : R) : R := (1 / (BOLTZ A * temperature))%R.

(** Modelled from the spec: [get_batch_u_fns] of energy_decomposition.py,
    one evaluator per bound potential, returning the energy of each frame
    in units of kT (reduced energy). *)
Definition get_batch_u_fns (bps : list (BoundImpl E)) (temperature : R)
    : list BatchUFn :=
  map (fun bp xs bxs =>
         map (fun xb => (beta_of temperature * execute E bp (fst xb) (snd xb))%R)
             (zip xs bxs))
      bps.

(** Modelled from the spec: [compute_energy_decomposed_u_kln] of
    energy_decomposition.py, for a pair of states (previous, current) whose
    lists of energy terms correspond by position. Per term it gives the
    [(2, 2, n_frames)] array whose entry [k, l] is the evaluator of state
    [k] on the frames of state [l]. A state that was freed ([None]) has no
    attributes. *)
Definition u_kln_of_component (prev cur : EnergyDecomposedState)
    (u_prev u_cur : BatchUFn) : ukln :=
  [[u_prev (data (eds_frames prev)) (data (eds_boxes prev));
    u_prev (data (eds_frames cur)) (data (eds_boxes cur))];
   [u_cur (data (eds_frames prev)) (data (eds_boxes prev));
    u_cur (data (eds_frames cur)) (data (eds_boxes cur))]].

Definition pair_u_kln (prev cur : EnergyDecomposedState) : list ukln :=
  zip_with (u_kln_of_component prev cur)
    (eds_batch_u_fns prev) (eds_batch_u_fns cur).

Definition compute_energy_decomposed_u_kln
    (states : list (option EnergyDecomposedState)) : Result (list ukln) :=
  match states with
  | [Some prev; Some cur] => Ok (pair_u_kln prev cur)
  | _ => Raise AttributeError
  end.

(** The local variables of [run_sequential_sims_given_initial_states],
    with the number of array objects created so far. *)
Record RunState : Type := {
  next_id : nat;
  stored_frames : list (ndarray (list (Coords E)));
  stored_boxes : list (ndarray (list (Box E)));
  tmp_states : list (option EnergyDecomposedState);
  u_kln_by_component_by_lambda : list (list ukln);
}.

Definition set_tmp_states (s : RunState)
    (t : list (option EnergyDecomposedState)) : RunState :=
  {| next_id := next_id s;
     stored_frames := stored_frames s;
     stored_boxes := stored_boxes s;
     tmp_states := t;
     u_kln_by_component_by_lambda := u_kln_by_component_by_lambda s |}.

(** The arrays of the current window, as the loop body names them. *)
Record Current : Type := {
  cur_frames : ndarray (list (Coords E));
  cur_boxes : ndarray (list (Box E));
}.

Section Body.
Variable env : Env E.
Variable md_params : MDParams.
Variable temperature : R.
Variable keep_idxs : list Z.
Variable lamb_idx : nat.
Variable initial_state : InitialState E.

(** [cur_frames, cur_boxes = sample(initial_state, md_params)]: two new
    array objects. *)
Definition run_simulation (s : RunState) : Result (Current * RunState) :=
  let! (xs, bxs) := sample env initial_state md_params None in
  Ok ({| cur_frames := mk_ndarray (next_id s) xs;
         cur_boxes := mk_ndarray (S (next_id s)) bxs |},
      {| next_id := S (S (next_id s));
         stored_frames := stored_frames s;
         stored_boxes := stored_boxes s;
         tmp_states := tmp_states s;
         u_kln_by_component_by_lambda := u_kln_by_component_by_lambda s |}).

(** [if lamb_idx in keep_idxs: stored_frames.append(cur_frames); ...] *)
Definition keep_samples (cur : Current) (s : RunState) : RunState :=
  if py_in (Z.of_nat lamb_idx) keep_idxs then
    {| next_id := next_id s;
       stored_frames := stored_frames s ++ [cur_frames cur];
       stored_boxes := stored_boxes s ++ [cur_boxes cur];
       tmp_states := tmp_states s;
       u_kln_by_component_by_lambda := u_kln_by_component_by_lambda s |}
  else s.

(** [if lamb_idx >= 2: tmp_states[lamb_idx - 2] = None] *)
Definition free_old_state (s : RunState) : RunState :=
  if (2 <=? lamb_idx)%nat
  then set_tmp_states s (<[(lamb_idx - 2)%nat := None]> (tmp_states s))
  else s.

(** [tmp_states[lamb_idx] = EnergyDecomposedState(cur_frames, cur_boxes,
    cur_batch_U_fns)]; the position is within the list, which has one
    slot per window. *)
Definition construct_state (cur : Current) (s : RunState) : RunState :=
  let bound_impls := map (bound_impl E) (potentials initial_state) in
  let cur_batch_U_fns := get_batch_u_fns bound_impls temperature in
  set_tmp_states s
    (<[lamb_idx :=
         Some {| eds_frames := cur_frames cur;
                 eds_boxes := cur_boxes cur;
                 eds_batch_u_fns := cur_batch_U_fns |}]> (tmp_states s)).

(** [if lamb_idx > 0: ... u_kln_by_component_by_lambda.append(...)] *)
Definition pair_analysis (s : RunState) : Result RunState :=
  if (0 <? lamb_idx)%nat then
    let state_pair :=
      [default None (tmp_states s !! (lamb_idx - 1)%nat);
       default None (tmp_states s !! lamb_idx)] in
    let! u_kln_by_component := compute_energy_decomposed_u_kln state_pair in
    Ok {| next_id := next_id s;
          stored_frames := stored_frames s;
          stored_boxes := stored_boxes s;
          tmp_states := tmp_states s;
          u_kln_by_component_by_lambda :=
            u_kln_by_component_by_lambda s ++ [u_kln_by_component] |}
  else Ok s.

Definition loop_body (s : RunState) : Result RunState :=
  let! (cur, s1) := run_simulation s in
  let s2 := keep_samples cur s1 in
  let s3 := free_old_state s2 in
  let s4 := construct_state cur s3 in
  pair_analysis s4.

(** The states the body passes through, one after each statement that
    completes. *)
Definition loop_body_points (s : RunState) : list RunState :=
  match run_simulation s with
  | inl _ => []
  | inr (cur, s1) =>
      let s2 := keep_samples cur s1 in
      let s3 := free_old_state s2 in
      let s4 := construct_state cur s3 in
      [s1; s2; s3; s4] ++
      match pair_analysis s4 with
      | inl _ => []
      | inr s5 => [s5]
      end
  end.
End Body.

(** [for lamb_idx, initial_state in enumerate(initial_states)], from
    [lamb_idx] on. *)
Fixpoint run_loop (env : Env E) (md_params : MDParams) (temperature : R)
    (keep_idxs : list Z) (lamb_idx : nat) (initial_states : list (InitialState E))
    (s : RunState) : Result RunState :=
  match initial_states with
  | [] => Ok s
  | initial_state :: rest =>
      let! s' := loop_body env md_params temperature keep_idxs lamb_idx
                   initial_state s in
      run_loop env md_params temperature keep_idxs (S lamb_idx) rest s'
  end.

(** Every state the loop passes through, until it ends or raises. *)
Fixpoint run_loop_points (env : Env E) (md_params : MDParams) (temperature : R)
    (keep_idxs : list Z) (lamb_idx : nat) (initial_states : list (InitialState E))
    (s : RunState) : list RunState :=
  match initial_states with
  | [] => []
  | initial_state :: rest =>
      loop_body_points env md_params temperature keep_idxs lamb_idx
        initial_state s ++
      match loop_body env md_params temperature keep_idxs lamb_idx
              initial_state s with
      | inl _ => []
      | inr s' =>
          run_loop_points env md_params temperature keep_idxs (S lamb_idx) rest s'
      end
  end.

Definition initial_run_state (n_states : nat) : RunState :=
  {| next_id := 0;
     stored_frames := [];
     stored_boxes := [];
     tmp_states := replicate n_states None;
     u_kln_by_component_by_lambda := [] |}.

(** [keep_idxs = keep_idxs or []] and the assertion on its entries. *)
Definition checked_keep_idxs (keep_idxs : option (list Z)) : Result (list Z) :=
  let keep_idxs := default [] keep_idxs in
  let! _ := match keep_idxs with
            | [] => Ok tt
            | _ => py_assert (forallb (fun k => 0 <=? k) keep_idxs) no_message
            end in
  Ok keep_idxs.

(** The state in which the function returns; the function itself hands out
    three of its fields. *)
Definition run_sequential_final_state (env : Env E)
    (initial_states : list (InitialState E)) (md_params : MDParams)
    (temperature : R) (keep_idxs : option (list Z)) : Result RunState :=
  let! keep_idxs := checked_keep_idxs keep_idxs in
  run_loop env md_params temperature keep_idxs 0 initial_states
    (initial_run_state (length initial_states)).

Definition run_sequential_sims_given_initial_states (env : Env E)
    (initial_states : list (InitialState E)) (md_params : MDParams)
    (temperature : R) (keep_idxs : option (list Z))
    : Result (list (list ukln) *
              list (ndarray (list (Coords E))) *
              list (ndarray (list (Box E)))) :=
  let! s := run_sequential_final_state env initial_states md_params
              temperature keep_idxs in
  Ok (u_kln_by_component_by_lambda s, stored_frames s, stored_boxes s).

(** The states [run_sequential_sims_given_initial_states] passes through:
    the one before the loop and those of the loop. *)
Definition run_sequential_points (env : Env E)
    (initial_states : list (InitialState E)) (md_params : MDParams)
    (temperature : R) (keep_idxs : option (list Z)) : list RunState :=
  match checked_keep_idxs keep_idxs with
  | inl _ => []
  | inr keep_idxs =>
      initial_run_state (length initial_states) ::
      run_loop_points env md_params temperature keep_idxs 0 initial_states
        (initial_run_state (length initial_states))
  end.

(** The number of [EnergyDecomposedState]s a list of slots holds. *)
Definition held (t : list (option EnergyDecomposedState)) : nat :=
  length (filter (fun o => is_Some o) t).

(** *** [estimate_free_energy_given_initial_states] *)

Record SimulationResult : Type := {
  all_dGs : list R;
  all_errs : list R;
  dG_errs_by_lambda_by_component : list (list R);
  overlaps_by_lambda : list R;
  overlaps_by_lambda_by_component : list (list R);
  dG_errs_png : PNG A;
  overlap_summary_png : PNG A;
  overlap_detail_png : PNG A;
  frames : list (ndarray (list (Coords E)));
  boxes : list (ndarray (list (Box E)));
  initial_states : list (InitialState E);
  md_params : MDParams;
}.

(** [w_fwd = u_kln[1, 0] - u_kln[0, 0]] and
    [w_rev = u_kln[0, 1] - u_kln[1, 1]] *)
Definition w_fwd (u_kln : ukln) : vec :=
  vsub (idx2 u_kln 1 0) (idx2 u_kln 0 0).
Definition w_rev (u_kln : ukln) : vec :=
  vsub (idx2 u_kln 0 1) (idx2 u_kln 1 1).

(** The pair-BAR loop over [u_kln_by_component_by_lambda]; [T] is the
    number of frames of the arrays. The message it prints is left out. *)
Fixpoint pair_bar_loop (beta : R) (T : nat) (us : list (list ukln))
    (all_dGs all_errs : list R) : Result (list R * list R) :=
  match us with
  | [] => Ok (all_dGs, all_errs)
  | u_kln_by_component :: rest =>
      let u_kln := sum0 T u_kln_by_component in
      let! (df, df_err) :=
        bar_with_bootstrapped_uncertainty A (w_fwd u_kln) (w_rev u_kln) in
      let dG := (df / beta)%R in
      let dG_err := (df_err / beta)%R in
      pair_bar_loop beta T rest (all_dGs ++ [dG]) (all_errs ++ [dG_err])
  end.

Definition estimate_free_energy_given_initial_states (env : Env E)
    (initial_states : list (InitialState E)) (md_params : MDParams)
    (temperature : R) (prefix : string) (keep_idxs : option (list Z))
    : Result SimulationResult :=
  let! (u_kln_by_component_by_lambda, stored_frames, stored_boxes) :=
    run_sequential_sims_given_initial_states env initial_states md_params
      temperature keep_idxs in
  let kBT := (BOLTZ A * temperature)%R in
  let beta := (1 / kBT)%R in
  let T := Z.to_nat (n_frames md_params) in
  let! (all_dGs, all_errs) :=
    pair_bar_loop beta T u_kln_by_component_by_lambda [] [] in
  let! ukln_by_lambda_by_component := swapaxes01 u_kln_by_component_by_lambda in
  let overlaps_by_lambda :=
    map (pair_overlap_from_ukln A)
      (fold_left (zip_with tadd) ukln_by_lambda_by_component
         (repeat (tzeros T) (length u_kln_by_component_by_lambda))) in
  let dG_errs_by_lambda_by_component :=
    map (map (fun u_kln => (df_err_from_ukln A u_kln / beta)%R))
      ukln_by_lambda_by_component in
  let overlaps_by_lambda_by_component :=
    map (map (pair_overlap_from_ukln A)) ukln_by_lambda_by_component in
  let! state0 := match initial_states with
                 | [] => Raise IndexError
                 | s0 :: _ => Ok s0
                 end in
  let U_names := map (potential_name E) (potentials state0) in
  let lambdas := map lamb initial_states in
  let overlap_detail_png :=
    make_overlap_detail_figure A U_names all_dGs all_errs
      u_kln_by_component_by_lambda temperature prefix in
  let dG_errs_png :=
    make_dG_errs_figure A U_names lambdas all_errs
      dG_errs_by_lambda_by_component in
  let overlap_summary_png :=
    make_overlap_summary_figure A U_names lambdas overlaps_by_lambda
      overlaps_by_lambda_by_component in
  Ok {| all_dGs := all_dGs;
        all_errs := all_errs;
        dG_errs_by_lambda_by_component := dG_errs_by_lambda_by_component;
        overlaps_by_lambda := overlaps_by_lambda;
        overlaps_by_lambda_by_component := overlaps_by_lambda_by_component;
        dG_errs_png := dG_errs_png;
        overlap_summary_png := overlap_summary_png;
        overlap_detail_png := overlap_detail_png;
        frames := stored_frames;
        boxes := stored_boxes;
        initial_states := initial_states;
        md_params := md_params |}.
End Runner.
Arguments EnergyDecomposedState : clear implicits.
Arguments RunState : clear implicits.
End FE.

(** ** rbfe.py *)

Module Rbfe.
Section Sampler.
Context {E : Engine}.

Record SimulationProtocol : Type := {
  n_frames : Z;
  burn_in : Z;
  steps_per_frame : Z;
}.

Record InitialState : Type := {
  potentials : list (Potential E);
  integrator : Integrator E;
  barostat : Barostat E;
  x0 : Coords E;
  v0 : Coords E;
  box0 : Box E;
  lamb : R;
}.

Definition make_context (initial_state : InitialState) : Ctxt E :=
  let bound_impls := map (bound_impl E) (potentials initial_state) in
  let intg_impl := intg_impl E (integrator initial_state) in
  let baro_impl := baro_impl E (barostat initial_state) bound_impls in
  Context E (x0 initial_state) (v0 initial_state) (box0 initial_state)
    intg_impl bound_impls (Some baro_impl).

Definition sample (env : Env E) (initial_state : InitialState)
    (protocol : SimulationProtocol)
    : Result (list (Coords E) * list (Box E)) :=
  let ctxt := make_context initial_state in
  (* burn-in *)
  let '(ctxt, _) :=
    multiple_steps_U (step_lamb E env (lamb initial_state)) ctxt
      (burn_in protocol) 0 in
  let n_steps := n_frames protocol * steps_per_frame protocol in
  let '(_, (all_coords, all_boxes)) :=
    multiple_steps_U (step_lamb E env (lamb initial_state)) ctxt
      n_steps (steps_per_frame protocol) in
  let! _ := py_assert (len_is all_coords (n_frames protocol)) no_message in
  let! _ := py_assert (len_is all_boxes (n_frames protocol)) no_message in
  Ok (all_coords, all_boxes).
End Sampler.
Arguments InitialState : clear implicits.

Section Estimate.
Context {E : Engine} {A : Analysis}.

Definition BatchUFn : Type := list (Coords E) -> list (Box E) -> vec.

(** [get_batch_U_fns]: one [functools.partial(batch_U_fn, bp_impl=bp)] per
    bound potential. *)
Definition get_batch_U_fns (bps : list (BoundImpl E)) (lamb : R)
    : list BatchUFn :=
  map (fun bp xs bxs =>
         map (fun xb => execute_lamb E bp (fst xb) (snd xb) lamb) (zip xs bxs))
      bps.

(** One call of [plot_BAR] on the axes at [(row, col)] of the figure. *)
Inductive PlotTitle : Type :=
| ComponentTitle (U_name : string)
| PairTitle (prefix : string) (from_idx to_idx : nat).

Record PlotCall : Type := {
  plot_row : nat;
  plot_col : nat;
  plot_df : R;
  plot_df_err : R;
  plot_fwd : vec;
  plot_rev : vec;
  plot_title : PlotTitle;
}.

(** The array of axes that [plt.subplots(num_rows, num_cols)] returns: a
    single [Axes] for one row and one column, a one-dimensional array when
    there is one row or one column, a two-dimensional array otherwise
    ([squeeze=True]). The call rejects a grid without rows or without
    columns. *)
Inductive AxesArray : Type :=
| SingleAxes
| Axes1D (n : nat)
| Axes2D (num_rows num_cols : nat).

Definition plt_subplots (num_rows num_cols : nat) : Result AxesArray :=
  match num_rows, num_cols with
  | O, _ | _, O => Raise ValueError
  | 1%nat, 1%nat => Ok SingleAxes
  | 1%nat, n => Ok (Axes1D n)
  | n, 1%nat => Ok (Axes1D n)
  | _, _ => Ok (Axes2D num_rows num_cols)
  end.

(** [all_axes[row]]: a row of a two-dimensional array, an [Axes] of a
    one-dimensional one. An [Axes] is not subscriptable. *)
Inductive AxesRow : Type :=
| AnAxes
| RowOfAxes (num_cols : nat).

Definition axes_getitem (all_axes : AxesArray) (row : nat) : Result AxesRow :=
  match all_axes with
  | SingleAxes => Raise TypeError
  | Axes1D n => if (row <? n)%nat then Ok AnAxes else Raise IndexError
  | Axes2D num_rows num_cols =>
      if (row <? num_rows)%nat then Ok (RowOfAxes num_cols)
      else Raise IndexError
  end.

(** [axes_row[col]], the [Axes] to draw on. *)
Definition row_getitem (axes_row : AxesRow) (col : nat) : Result unit :=
  match axes_row with
  | AnAxes => Raise TypeError
  | RowOfAxes num_cols =>
      if (col <? num_cols)%nat then Ok tt else Raise IndexError
  end.

(** The figure is the list of the subplots drawn; its encoding as PNG
    bytes is matplotlib's. *)
Record SimulationResult : Type := {
  all_dGs : list R;
  all_errs : list R;
  plot_png : list PlotCall;
  frames : list (ndarray (list (Coords E)));
  boxes : list (ndarray (list (Box E)));
  initial_states : list (InitialState E);
  protocol : SimulationProtocol;
}.

Record SimulationException : Type := {
  exc_initial_states : list (InitialState E);
  exc_protocol : SimulationProtocol;
  exc_message : string;
}.

(** What a call of [estimate_relative_free_energy] can raise: an exception
    that passes through, or a [SimulationException] raised [from] the
    exception it replaces ([__cause__]). *)
Inductive raised : Type :=
| Uncaught (e : exn)
| RaisedFrom (exc : SimulationException) (cause : exn).

(** The arrays and evaluators of a window, as [prev_frames], [prev_boxes],
    [prev_batch_U_fns] or their [cur_] counterparts. *)
Record Window : Type := {
  w_frames : ndarray (list (Coords E));
  w_boxes : ndarray (list (Box E));
  w_batch_U_fns : list BatchUFn;
}.

Definition fwd_delta_u (beta : R) (prev cur : Window) (prev_U_fn cur_U_fn : BatchUFn)
    : vec :=
  vscale beta
    (vsub (cur_U_fn (data (w_frames prev)) (data (w_boxes prev)))
          (prev_U_fn (data (w_frames prev)) (data (w_boxes prev)))).

Definition rev_delta_u (beta : R) (prev cur : Window) (prev_U_fn cur_U_fn : BatchUFn)
    : vec :=
  vscale beta
    (vsub (prev_U_fn (data (w_frames cur)) (data (w_boxes cur)))
          (cur_U_fn (data (w_frames cur)) (data (w_boxes cur)))).

(** The loop over the energy terms of one pair, from term [u_idx] on:
    a BAR estimate and a subplot per term, drawn on
    [all_axes[lamb_idx - 1][u_idx]], and the works collected in
    [all_fwd_delta_us] and [all_rev_delta_us]. *)
Fixpoint component_loop (all_axes : AxesArray) (beta : R)
    (U_names : list string) (lamb_idx : nat)
    (prev cur : Window) (u_idx : nat) (fns : list (BatchUFn * BatchUFn))
    (plots : list PlotCall) (all_fwd_delta_us all_rev_delta_us : list vec)
    : Result (list PlotCall * list vec * list vec) :=
  match fns with
  | [] => Ok (plots, all_fwd_delta_us, all_rev_delta_us)
  | (prev_U_fn, cur_U_fn) :: rest =>
      let fwd := fwd_delta_u beta prev cur prev_U_fn cur_U_fn in
      let rev := rev_delta_u beta prev cur prev_U_fn cur_U_fn in
      let! (df, df_err) := pymbar_BAR A fwd rev in
      let! axes_row := axes_getitem all_axes (lamb_idx - 1) in
      let! plot_axis := row_getitem axes_row u_idx in
      let! U_name := match U_names !! u_idx with
                     | Some nm => Ok nm
                     | None => Raise IndexError
                     end in
      let plot := {| plot_row := (lamb_idx - 1)%nat; plot_col := u_idx;
                     plot_df := df; plot_df_err := df_err;
                     plot_fwd := fwd; plot_rev := rev;
                     plot_title := ComponentTitle U_name |} in
      component_loop all_axes beta U_names lamb_idx prev cur (S u_idx) rest
        (plots ++ [plot]) (all_fwd_delta_us ++ [fwd]) (all_rev_delta_us ++ [rev])
  end.

(** The local variables of [estimate_free_energy_given_initial_states]
    that its loop updates, with the number of array objects created so
    far. *)
Record LoopState : Type := {
  next_id : nat;
  stored_frames : list (ndarray (list (Coords E)));
  stored_boxes : list (ndarray (list (Box E)));
  prev_window : option Window;
  acc_dGs : list R;
  acc_errs : list R;
  acc_plots : list PlotCall;
}.

Section Body.
Variable env : Env E.
Variable protocol : SimulationProtocol.
Variable all_axes : AxesArray.
Variable beta : R.
Variable prefix : string.
Variable keep_idxs : list Z.
Variable U_names : list string.
Variable lamb_idx : nat.
Variable initial_state : InitialState E.

(** The analysis of the pair [(lamb_idx - 1, lamb_idx)]; the total is
    drawn on [all_axes[lamb_idx - 1][u_idx + 1]]. With no energy term the
    loop variable [u_idx] is unbound after the loop and the total is not
    an array: the body raises (the model does not say which of the
    possible exceptions). The message printed is left out. *)
Definition pair_bar (prev cur : Window) (s : LoopState)
    : Result (list R * list R * list PlotCall) :=
  let fns := zip (w_batch_U_fns prev) (w_batch_U_fns cur) in
  let! (plots, all_fwd_delta_us, all_rev_delta_us) :=
    component_loop all_axes beta U_names lamb_idx prev cur 0 fns
      (acc_plots s) [] [] in
  let! _ := match fns with
            | [] => Raise (UnboundLocalError "u_idx")
            | _ => Ok tt
            end in
  let T := length (zip (data (w_frames prev)) (data (w_boxes prev))) in
  let T' := length (zip (data (w_frames cur)) (data (w_boxes cur))) in
  let total_fwd_delta_us := vsum0 T all_fwd_delta_us in
  let total_rev_delta_us := vsum0 T' all_rev_delta_us in
  let! (total_df, total_df_err) :=
    pymbar_BAR A total_fwd_delta_us total_rev_delta_us in
  let! axes_row := axes_getitem all_axes (lamb_idx - 1) in
  let! plot_axis := row_getitem axes_row (length fns) in
  let plot := {| plot_row := (lamb_idx - 1)%nat; plot_col := length fns;
                 plot_df := total_df; plot_df_err := total_df_err;
                 plot_fwd := total_fwd_delta_us;
                 plot_rev := total_rev_delta_us;
                 plot_title := PairTitle prefix (lamb_idx - 1) lamb_idx |} in
  let total_dG := (total_df / beta)%R in
  let total_dG_err := (total_df_err / beta)%R in
  Ok (acc_dGs s ++ [total_dG], acc_errs s ++ [total_dG_err], plots ++ [plot]).

Definition loop_body (s : LoopState) : Result LoopState :=
  let! (xs, bxs) := sample env initial_state protocol in
  let cur_frames := mk_ndarray (next_id s) xs in
  let cur_boxes := mk_ndarray (S (next_id s)) bxs in
  let bound_impls := map (bound_impl E) (potentials initial_state) in
  let cur_batch_U_fns := get_batch_U_fns bound_impls (lamb initial_state) in
  let cur := {| w_frames := cur_frames; w_boxes := cur_boxes;
                w_batch_U_fns := cur_batch_U_fns |} in
  let '(stored_frames', stored_boxes') :=
    if py_in (Z.of_nat lamb_idx) keep_idxs
    then (stored_frames s ++ [cur_frames], stored_boxes s ++ [cur_boxes])
    else (stored_frames s, stored_boxes s) in
  let! (dGs, errs, plots) :=
    if (0 <? lamb_idx)%nat then
      match prev_window s with
      | Some prev => pair_bar prev cur s
      | None => Raise TypeError
      end
    else Ok (acc_dGs s, acc_errs s, acc_plots s) in
  Ok {| next_id := S (S (next_id s));
        stored_frames := stored_frames';
        stored_boxes := stored_boxes';
        prev_window := Some cur;
        acc_dGs := dGs;
        acc_errs := errs;
        acc_plots := plots |}.
End Body.

Fixpoint run_loop (env : Env E) (protocol : SimulationProtocol)
    (all_axes : AxesArray) (beta : R)
    (prefix : string) (keep_idxs : list Z) (U_names : list string)
    (lamb_idx : nat) (initial_states : list (InitialState E)) (s : LoopState)
    : Result LoopState :=
  match initial_states with
  | [] => Ok s
  | initial_state :: rest =>
      let! s' := loop_body env protocol all_axes beta prefix keep_idxs U_names
                   lamb_idx initial_state s in
      run_loop env protocol all_axes beta prefix keep_idxs U_names
        (S lamb_idx) rest s'
  end.

Definition initial_loop_state : LoopState :=
  {| next_id := 0;
     stored_frames := [];
     stored_boxes := [];
     prev_window := None;
     acc_dGs := [];
     acc_errs := [];
     acc_plots := [] |}.

(** The state in which the loop of
    [estimate_free_energy_given_initial_states] ends. *)
Definition estimate_final_state (env : Env E)
    (initial_states : list (InitialState E)) (protocol : SimulationProtocol)
    (temperature : R) (prefix : string) (keep_idxs : list Z)
    : Result LoopState :=
  let kT := (BOLTZ A * temperature)%R in
  let beta := (1 / kT)%R in
  let! state0 := match initial_states with
                 | [] => Raise IndexError
                 | s0 :: _ => Ok s0
                 end in
  let U_names := map (potential_name E) (potentials state0) in
  let num_rows := (length initial_states - 1)%nat in
  let num_cols := (length U_names + 1)%nat in
  let! all_axes := plt_subplots num_rows num_cols in
  run_loop env protocol all_axes beta prefix keep_idxs U_names 0
    initial_states initial_loop_state.

Definition estimate_free_energy_given_initial_states (env : Env E)
    (initial_states : list (InitialState E)) (protocol : SimulationProtocol)
    (temperature : R) (prefix : string) (keep_idxs : list Z)
    : Result SimulationResult :=
  let! s := estimate_final_state env initial_states protocol temperature
              prefix keep_idxs in
  Ok {| all_dGs := acc_dGs s;
        all_errs := acc_errs s;
        plot_png := acc_plots s;
        frames := stored_frames s;
        boxes := stored_boxes s;
        initial_states := initial_states;
        protocol := protocol |}.
End Estimate.
Arguments Window : clear implicits.
Arguments LoopState : clear implicits.
Arguments SimulationResult : clear implicits.
Arguments SimulationException : clear implicits.
Arguments raised : clear implicits.

(** The construction of the topology and of the initial states, whose parts
    live in other modules of the repository, and [warnings.warn], which
    raises when the warning filters turn the warning into an error. A call
    of these may raise. *)
Record Setup (E : Engine) : Type := {
  Mol : Type;
  Core : Type;
  Forcefield : Type;
  OmmSystem : Type;
  Topology : Type;
  HostPrep : Type;
  get_mol_name : Mol -> Result string;
  warnings_warn : string -> Result unit;
  SingleTopologyV3 : Mol -> Mol -> Core -> Forcefield -> Result Topology;
  (* deserialize_system and minimize_host_4d: the host potentials, masses
     and minimized coordinates *)
  prepare_host : Topology -> OmmSystem -> Coords E -> Box E -> Result HostPrep;
  (* the body of the loop of setup_initial_states: the state at [lamb], the
     integrator seeded with [run_seed], the barostat with [run_seed + 1] *)
  state_at : Topology -> HostPrep -> Box E -> R -> R -> Z -> InitialState E;
}.
Arguments Mol {E} _.
Arguments Core {E} _.
Arguments Forcefield {E} _.
Arguments OmmSystem {E} _.
Arguments Topology {E} _.
Arguments HostPrep {E} _.
Arguments get_mol_name {E} _ _.
Arguments warnings_warn {E} _ _.
Arguments SingleTopologyV3 {E} _ _ _ _ _.
Arguments prepare_host {E} _ _ _ _ _.
Arguments state_at {E} _ _ _ _ _ _ _.

Section Relative.
Context {E : Engine} {A : Analysis} {S : Setup E}.

Record HostConfig : Type := {
  omm_system : OmmSystem S;
  conf : Coords E;
  box : Box E;
}.

Definition setup_initial_states (st : Topology S) (host_config : HostConfig)
    (temperature : R) (lambda_schedule : list R) (seed : Z)
    : Result (list (InitialState E)) :=
  let! host := prepare_host S st (omm_system host_config) (conf host_config)
                 (box host_config) in
  Ok (imap (fun lamb_idx lamb =>
              let run_seed := seed + Z.of_nat lamb_idx in
              state_at S st host (box host_config) temperature lamb run_seed)
           lambda_schedule).

Definition default_lambda_schedule : list R :=
  let lambda_schedule :=
    [0; 0.01; 0.02; 0.04; 0.06; 0.08; 0.11; 0.15; 0.20; 0.32; 0.42]%R in
  lambda_schedule ++ map (fun x => (1 - x)%R) (rev lambda_schedule).

(** Exceptions before the [try] pass through. *)
Definition uncaught {B} (m : Result B) (k : B -> raised E + SimulationResult E)
    : raised E + SimulationResult E :=
  match m with
  | inl e => inl (Uncaught e)
  | inr b => k b
  end.

Definition lambda_schedule_warning : string :=
  "Warning: setting lambda_schedule manually, this argument may be removed in a future release.".

(** The statements before the [try] run in the order of the source: the
    topology, the warning for a given [lambda_schedule], the initial
    states, the assertion on [keep_idxs], the two molecule names. The
    exceptions are instances of [Exception], which the handler catches. *)
Definition estimate_relative_free_energy (env : Env E) (mol_a mol_b : Mol S)
    (core : Core S) (ff : Forcefield S) (host_config : HostConfig) (seed : Z)
    (n_frames : Z) (prefix : string) (lambda_schedule : option (list R))
    (keep_idxs : option (list Z)) : raised E + SimulationResult E :=
  uncaught (SingleTopologyV3 S mol_a mol_b core ff) (fun single_topology =>
  uncaught
    (match lambda_schedule with
     | None => Ok default_lambda_schedule
     | Some given =>
         let! _ := warnings_warn S lambda_schedule_warning in
         Ok given
     end) (fun lambda_schedule =>
  let temperature := DEFAULT_TEMP A in
  uncaught (setup_initial_states single_topology host_config temperature
              lambda_schedule seed) (fun initial_states =>
  let protocol := {| n_frames := n_frames; burn_in := 10000;
                     steps_per_frame := 1000 |} in
  let keep_idxs := default [0; -1] keep_idxs in
  uncaught (py_assert (length keep_idxs <=? length lambda_schedule)%nat no_message)
    (fun _ =>
  uncaught (get_mol_name S mol_a) (fun name_a =>
  uncaught (get_mol_name S mol_b) (fun name_b =>
  let combined_prefix := (name_a ++ "_" ++ name_b ++ "_" ++ prefix)%string in
  match estimate_free_energy_given_initial_states env initial_states protocol
          temperature combined_prefix keep_idxs with
  | inr result => inr result
  | inl old_exc =>
      inl (RaisedFrom {| exc_initial_states := initial_states;
                         exc_protocol := protocol;
                         exc_message := combined_prefix |} old_exc)
  end)))))).
End Relative.
End Rbfe.

(** ** Properties of inputs and results used in the statements *)

Section Predicates.
Context {E : Engine}.

(** The coordinates of the context stay finite along its first [n]
    steps. *)
Definition stays_finite (stepf : Ctxt E -> Ctxt E) (c : Ctxt E) (n : nat)
    : Prop :=
  forall k : nat,
    (k <= n)%nat -> all_finite E (get_x_t E (Nat.iter k stepf c)) = true.

(** The number of steps a call of [sample] runs. *)
Definition steps_run (n_eq_steps n_frames steps_per_frame : Z) : nat :=
  (Z.to_nat n_eq_steps + Z.to_nat (n_frames * steps_per_frame))%nat.

(** The total energy of a frame under a list of bound potentials. *)
Definition total_energy (bps : list (BoundImpl E)) (xb : Coords E * Box E) : R :=
  fold_left Rplus (map (fun bp => execute E bp (fst xb) (snd xb)) bps) 0%R.

Definition total_energy_lamb (bps : list (BoundImpl E)) (lamb : R)
    (xb : Coords E * Box E) : R :=
  fold_left Rplus (map (fun bp => execute_lamb E bp (fst xb) (snd xb) lamb) bps) 0%R.

(** The slots that hold a state lie in the positions [lo .. hi - 1]. *)
Definition held_within (lo hi : nat)
    (t : list (option (FE.EnergyDecomposedState E))) : Prop :=
  forall j e, t !! j = Some (Some e) -> (lo <= j < hi)%nat.

(** The arrays and the state of window [i] of a run whose sampler returned
    [tr] there: the runner creates two arrays per window. *)
Definition window_frames (i : nat) (tr : list (Coords E) * list (Box E))
    : ndarray (list (Coords E)) := mk_ndarray (2 * i) (fst tr).
Definition window_boxes (i : nat) (tr : list (Coords E) * list (Box E))
    : ndarray (list (Box E)) := mk_ndarray (S (2 * i)) (snd tr).

Definition eds_of {A : Analysis} (temperature : R) (i : nat)
    (st : FE.InitialState E) (tr : list (Coords E) * list (Box E))
    : FE.EnergyDecomposedState E :=
  {| FE.eds_frames := window_frames i tr;
     FE.eds_boxes := window_boxes i tr;
     FE.eds_batch_u_fns :=
       FE.get_batch_u_fns (map (bound_impl E) (FE.potentials st)) temperature |}.

(** The windows [i, i + 1, ...] whose index is in [keep_idxs], in ladder
    order. *)
Fixpoint kept_from {B} (keep_idxs : list Z) (i : nat) (trajs : list B)
    : list (nat * B) :=
  match trajs with
  | [] => []
  | tr :: rest =>
      (if py_in (Z.of_nat i) keep_idxs then [(i, tr)] else []) ++
      kept_from keep_idxs (S i) rest
  end.

(** The arrays of the pairs (previous, current) along a list of states. *)
Fixpoint adjacent_u_klns (prev : FE.EnergyDecomposedState E)
    (ws : list (FE.EnergyDecomposedState E)) : list (list ukln) :=
  match ws with
  | [] => []
  | w :: rest => FE.pair_u_kln prev w :: adjacent_u_klns w rest
  end.

Definition pairs_after (prev : option (FE.EnergyDecomposedState E))
    (ws : list (FE.EnergyDecomposedState E)) : list (list ukln) :=
  match prev with
  | Some p => adjacent_u_klns p ws
  | None =>
      match ws with
      | [] => []
      | w :: rest => adjacent_u_klns w rest
      end
  end.

(** The states of the windows [i, i + 1, ...]. *)
Fixpoint windows_from {A : Analysis} (temperature : R) (i : nat)
    (ists : list (FE.InitialState E))
    (trajs : list (list (Coords E) * list (Box E)))
    : list (FE.EnergyDecomposedState E) :=
  match ists, trajs with
  | st :: ists', tr :: trajs' =>
      eds_of temperature i st tr :: windows_from temperature (S i) ists' trajs'
  | _, _ => []
  end.

(** [prev] is the state of the window before [i], if there is one. *)
Definition prev_is (i : nat) (s : FE.RunState E)
    (prev : option (FE.EnergyDecomposedState E)) : Prop :=
  match prev with
  | Some p => (0 < i)%nat /\ FE.tmp_states s !! (i - 1)%nat = Some (Some p)
  | None => i = 0%nat
  end.

(** What the specification asks of the retained arrays: each is a copy,
    an object other than the arrays held by the [EnergyDecomposedState]s. *)
Definition stored_as_copies (s : FE.RunState E) : Prop :=
  forall a e,
    a ∈ FE.stored_frames s -> Some e ∈ FE.tmp_states s ->
    obj_id a <> obj_id (FE.eds_frames e).
(** The window [i] of a run of rbfe.py whose sampler returned [tr] there. *)
Definition rbfe_window (i : nat) (st : Rbfe.InitialState E)
    (tr : list (Coords E) * list (Box E)) : Rbfe.Window E :=
  {| Rbfe.w_frames := window_frames i tr;
     Rbfe.w_boxes := window_boxes i tr;
     Rbfe.w_batch_U_fns :=
       Rbfe.get_batch_U_fns (map (bound_impl E) (Rbfe.potentials st))
         (Rbfe.lamb st) |}.

Fixpoint rbfe_windows_from (i : nat) (ists : list (Rbfe.InitialState E))
    (trajs : list (list (Coords E) * list (Box E))) : list (Rbfe.Window E) :=
  match ists, trajs with
  | st :: ists', tr :: trajs' =>
      rbfe_window i st tr :: rbfe_windows_from (S i) ists' trajs'
  | _, _ => []
  end.

(** The works of a pair of windows of rbfe.py, summed over the energy
    terms. *)
Definition summed_fwd_works (beta : R) (prev cur : Rbfe.Window E) : vec :=
  vsum0 (length (zip (data (Rbfe.w_frames prev)) (data (Rbfe.w_boxes prev))))
    (map (fun pc => Rbfe.fwd_delta_u beta prev cur (fst pc) (snd pc))
       (zip (Rbfe.w_batch_U_fns prev) (Rbfe.w_batch_U_fns cur))).

Definition summed_rev_works (beta : R) (prev cur : Rbfe.Window E) : vec :=
  vsum0 (length (zip (data (Rbfe.w_frames cur)) (data (Rbfe.w_boxes cur))))
    (map (fun pc => Rbfe.rev_delta_u beta prev cur (fst pc) (snd pc))
       (zip (Rbfe.w_batch_U_fns prev) (Rbfe.w_batch_U_fns cur))).

(** [dG] and [err] are the BAR estimate of the summed works of the pair and
    its error, in units of energy. *)
Definition summed_work_estimate {A : Analysis} (beta : R)
    (prev cur : Rbfe.Window E) (dG err : R) : Prop :=
  exists df df_err,
    pymbar_BAR A (summed_fwd_works beta prev cur)
      (summed_rev_works beta prev cur) = Ok (df, df_err) /\
    dG = (df / beta)%R /\ err = (df_err / beta)%R.

(** The same for a [(P, 2, 2, T)] array of free_energy.py. *)
Definition summed_u_kln_estimate {A : Analysis} (beta : R) (T : nat)
    (u_kln_by_component : list ukln) (dG err : R) : Prop :=
  exists df df_err,
    bar_with_bootstrapped_uncertainty A
      (FE.w_fwd (sum0 T u_kln_by_component))
      (FE.w_rev (sum0 T u_kln_by_component)) = Ok (df, df_err) /\
    dG = (df / beta)%R /\ err = (df_err / beta)%R.

(** The estimates of the successive pairs of a list of windows. *)
Fixpoint pair_estimates {A : Analysis} (beta : R) (prev : Rbfe.Window E)
    (ws : list (Rbfe.Window E)) (dGs errs : list R) : Prop :=
  match ws, dGs, errs with
  | [], [], [] => True
  | w :: ws', dG :: dGs', err :: errs' =>
      summed_work_estimate beta prev w dG err /\
      pair_estimates beta w ws' dGs' errs'
  | _, _, _ => False
  end.
(** The estimates of the successive arrays of free_energy.py. *)
Fixpoint u_kln_estimates {A : Analysis} (beta : R) (T : nat)
    (us : list (list ukln)) (dGs errs : list R) : Prop :=
  match us, dGs, errs with
  | [], [], [] => True
  | u :: us', dG :: dGs', err :: errs' =>
      summed_u_kln_estimate beta T u dG err /\
      u_kln_estimates beta T us' dGs' errs'
  | _, _, _ => False
  end.

(** The total energy of a frame at a window: the sum of the window's
    energy terms. *)
Definition FE_total_energy (st : FE.InitialState E)
    : Coords E * Box E -> R :=
  total_energy (map (bound_impl E) (FE.potentials st)).

Definition Rbfe_total_energy (st : Rbfe.InitialState E)
    : Coords E * Box E -> R :=
  total_energy_lamb (map (bound_impl E) (Rbfe.potentials st)) (Rbfe.lamb st).

(** The reduced works of the total energies along a trajectory:
    beta (U_to(x) - U_from(x)) for each of its frames x. *)
Definition total_works (beta : R) (U_from U_to : Coords E * Box E -> R)
    (tr : list (Coords E) * list (Box E)) : vec :=
  map (fun xb => (beta * (U_to xb - U_from xb))%R) (zip (fst tr) (snd tr)).

(** [dG] and [err] are what the estimator [bar] gives, in units of energy,
    on the works of the total energies of the pair of windows A and B:
    forward over the frames sampled at A, reverse over those sampled at
    B. *)
Definition total_work_estimate (bar : vec -> vec -> Result (R * R))
    (beta : R) (U_A U_B : Coords E * Box E -> R)
    (trA trB : list (Coords E) * list (Box E)) (dG err : R) : Prop :=
  exists df df_err,
    bar (total_works beta U_A U_B trA) (total_works beta U_B U_A trB)
    = Ok (df, df_err) /\
    dG = (df / beta)%R /\ err = (df_err / beta)%R.

Definition pair_estimates_after {A : Analysis} (beta : R)
    (prev : option (Rbfe.Window E)) (ws : list (Rbfe.Window E))
    (dGs errs : list R) : Prop :=
  match prev with
  | Some p => pair_estimates beta p ws dGs errs
  | None =>
      match ws with
      | [] => dGs = [] /\ errs = []
      | w :: ws' => pair_estimates beta w ws' dGs errs
      end
  end.
End Predicates.

(** ** A small engine for examples

    One coordinate that moves by one unit per step around a ring of 100
    positions, and is lost (not finite) when it starts outside of the ring;
    the box never changes. *)

Definition toy_step (c : option Z * Z) : option Z * Z :=
  (match fst c with
   | Some z => if z <? 100 then Some ((z + 1) mod 100) else None
   | None => None
   end, snd c).

Definition toy_energy (k : Z) (x : option Z) : R :=
  match x with
  | Some z => IZR (k * z)
  | None => 0%R
  end.

Definition toy_engine : Engine :=
  {| Env := nat;
     Coords := option Z;
     Box := Z;
     Potential := Z;
     BoundImpl := Z;
     Integrator := Z;
     IntgImpl := Z;
     Barostat := Z;
     BaroImpl := Z;
     Ctxt := option Z * Z;
     bound_impl := fun p => p;
     intg_impl := fun i => i;
     baro_impl := fun b _ => b;
     Context := fun x0 _ box0 _ _ _ => (x0, box0);
     step := fun _ => toy_step;
     step_lamb := fun _ _ => toy_step;
     get_x_t := fst;
     get_box := snd;
     all_finite := fun x => match x with Some _ => true | None => false end;
     execute := fun k x _ => toy_energy k x;
     execute_lamb := fun k x _ _ => toy_energy k x;
     potential_name := fun _ => "HarmonicBond"%string |}.

Definition toy_analysis : Analysis :=
  {| BOLTZ := 1%R;
     DEFAULT_TEMP := 300%R;
     bar_with_bootstrapped_uncertainty := fun f r => Ok (fold_right Rplus 0%R f, 0%R);
     pymbar_BAR := fun f r => Ok (fold_right Rplus 0%R f, 0%R);
     pair_overlap_from_ukln := fun _ => 1%R;
     df_err_from_ukln := fun _ => 0%R;
     PNG := unit;
     make_overlap_detail_figure := fun _ _ _ _ _ _ => tt;
     make_dG_errs_figure := fun _ _ _ _ => tt;
     make_overlap_summary_figure := fun _ _ _ _ => tt |}.

(** An estimator that differs from that of [toy_analysis] wherever the
    first forward work is not 20 beta, beta = 1 / (1 * 300). *)
Definition toy_analysis_shifted : Analysis :=
  {| BOLTZ := 1%R;
     DEFAULT_TEMP := 300%R;
     bar_with_bootstrapped_uncertainty := fun f r => Ok (fold_right Rplus 0%R f, 0%R);
     pymbar_BAR :=
       fun f r =>
         Ok ((fold_right Rplus 0 f + (nth 0 f 0 - 1 / (1 * 300) * 20))%R, 0%R);
     pair_overlap_from_ukln := fun _ => 1%R;
     df_err_from_ukln := fun _ => 0%R;
     PNG := unit;
     make_overlap_detail_figure := fun _ _ _ _ _ _ => tt;
     make_dG_errs_figure := fun _ _ _ _ => tt;
     make_overlap_summary_figure := fun _ _ _ _ => tt |}.

(** potentials, integrator, barostat, x0, v0, box0, lamb, ligand_idxs *)
Definition toy_state (x : Z) : FE.InitialState toy_engine :=
  @FE.Build_InitialState toy_engine [1; 2] 2023 (Some 2024) (Some x) (Some 0) 4
    0%R [].

(** A window with other energy terms. *)
Definition toy_state_with (potentials : list Z) (x : Z)
    : FE.InitialState toy_engine :=
  @FE.Build_InitialState toy_engine potentials 2023 (Some 2024) (Some x)
    (Some 0) 4 0%R [].

Definition toy_md_params : FE.MDParams :=
  {| FE.n_frames := 3; FE.n_eq_steps := 2; FE.steps_per_frame := 2 |}.

(** potentials, integrator, barostat, x0, v0, box0, lamb *)
Definition toy_rbfe_state_at (x : Z) (box : Z) (lamb : R) (run_seed : Z)
    : Rbfe.InitialState toy_engine :=
  @Rbfe.Build_InitialState toy_engine [1; 2] run_seed (run_seed + 1) (Some x)
    (Some 0) box lamb.

Definition toy_rbfe_state (x : Z) : Rbfe.InitialState toy_engine :=
  toy_rbfe_state_at x 4 0%R 2023.

Definition toy_rbfe_state_with (potentials : list Z) (x : Z) (lamb : R)
    : Rbfe.InitialState toy_engine :=
  @Rbfe.Build_InitialState toy_engine potentials 2023 2024 (Some x) (Some 0) 4
    lamb.

(** Three windows whose energy terms differ. *)
Definition toy_rbfe_ladder : list (Rbfe.InitialState toy_engine) :=
  [toy_rbfe_state_with [1; 2] 0 0%R; toy_rbfe_state_with [3; 5] 1 0.5%R;
   toy_rbfe_state_with [4; 8] 2 1%R].

Definition toy_protocol : Rbfe.SimulationProtocol :=
  {| Rbfe.n_frames := 3; Rbfe.burn_in := 2; Rbfe.steps_per_frame := 2 |}.

Definition toy_setup : Rbfe.Setup toy_engine :=
  {| Rbfe.Mol := string;
     Rbfe.Core := unit;
     Rbfe.Forcefield := unit;
     Rbfe.OmmSystem := unit;
     Rbfe.Topology := unit;
     Rbfe.HostPrep := unit;
     Rbfe.get_mol_name := fun m => Ok m;
     Rbfe.warnings_warn := fun _ => Ok tt;
     Rbfe.SingleTopologyV3 := fun _ _ _ _ => Ok tt;
     Rbfe.prepare_host := fun _ _ _ _ => Ok tt;
     Rbfe.state_at := fun _ _ (box : Box toy_engine) _ lamb run_seed =>
                        toy_rbfe_state_at 0 box lamb run_seed |}.

(** omm_system, conf, box *)
Definition toy_host_config : Rbfe.HostConfig (S := toy_setup) :=
  @Rbfe.Build_HostConfig toy_engine toy_setup tt (Some 0) 4.


(** ** potentials/jax_utils.py *)

(** [np.stack(np.triu_indices(n, k=1)).T]: the rows [[i, j]] of the entries
    above the diagonal of an [n] by [n] matrix, in row-major order. *)
Definition triu_indices (n : nat) : list (nat * nat) :=
  flat_map (fun i => map (fun j => (i, j)) (seq (S i) (n - S i))) (seq 0 n).

(** [n_interactions] is the float [n * (n - 1) / 2]; the shape of [pairs]
    equals [(n_interactions, 2)] when twice the number of rows is
    [n * (n - 1)]. For a negative [n] numpy gives no rows. *)
Definition get_all_pairs_indices (n : Z) : Result (list (Z * Z)) :=
  let pairs :=
    map (fun p => (Z.of_nat (fst p), Z.of_nat (snd p)))
      (triu_indices (Z.to_nat n)) in
  let! _ := py_assert (2 * Z.of_nat (length pairs) =? n * (n - 1))
              no_message in
  Ok pairs.

(** [np.meshgrid(a, b)] gives two [(len(b), len(a))] arrays, [X[i, j] = a[j]]
    and [Y[i, j] = b[i]]; stacked, reshaped to [(2, -1)] and transposed they
    are the rows [[a[j], b[i]]] with [i] varying slowest. *)
Definition pairs_from_interaction_groups (group_a_indices group_b_indices : list Z)
    : Result (list (Z * Z)) :=
  let n_interactions :=
    (length group_a_indices * length group_b_indices)%nat in
  let pairs :=
    flat_map (fun b => map (fun a => (a, b)) group_a_indices)
      group_b_indices in
  let! _ := py_assert (length pairs =? n_interactions)%nat no_message in
  Ok pairs.

(** ** ff/handlers/bonded.py *)

Module Bonded.

(** What the file imports: the substructure search and the canonical
    orientation of a match ([timemachine.ff.handlers.utils]), the OpenMM
    deserializer and the suffix of the handler names. A call of these may
    raise. [Term] is a row of float64 parameters, [Props] the properties of
    a handler, neither of which the file looks into. *)
Record Toolkit : Type := {
  Mol : Type;
  Term : Type;
  Props : Type;
  OmmSystem : Type;
  TorsionForce : Type;
  match_smirks : Mol -> string -> Result (list (list Z));
  canonicalize_bond : list Z -> Result (list Z);
  (* [f for f in omm_system.getForces()
      if isinstance(f, omm.PeriodicTorsionForce)] *)
  periodic_torsion_forces : OmmSystem -> list TorsionForce;
  getNumTorsions : TorsionForce -> Z;
  idxs_params_from_t : list TorsionForce -> Result (list (list Z) * list Term);
  SUFFIX : string;
}.
Existing Class Toolkit.

(** A Python [dict] keeps its keys in the order of their first insertion;
    an assignment to a key it has replaces the value in place. *)
Fixpoint dict_set {K V} `{EqDecision K} (k : K) (v : V) (d : list (K * V))
    : list (K * V) :=
  match d with
  | [] => [(k, v)]
  | (k', v') :: d' =>
      if decide (k' = k) then (k', v) :: d'
      else (k', v') :: dict_set k v d'
  end.

(** [a[idxs]] for an integer index array [idxs] without negative entries:
    the rows of [a] at these positions. *)
Fixpoint take_rows {A} (a : list A) (idxs : list nat) : Result (list A) :=
  match idxs with
  | [] => Ok []
  | i :: rest =>
      let! x := match a !! i with
                | Some x => Ok x
                | None => Raise IndexError
                end in
      let! xs := take_rows a rest in
      Ok (x :: xs)
  end.

(** [a[np.array(idxs)]] for a Python list [idxs]: the index array made from
    an empty list has a float dtype, which numpy refuses as an index. *)
Definition take_rows_of_list {A} (a : list A) (idxs : list nat)
    : Result (list A) :=
  match idxs with
  | [] => Raise IndexError
  | _ => take_rows a idxs
  end.

(** [sorted] on integers. *)
Definition sorted (l : list Z) : list Z := merge_sort Z.le l.

(** [name[:-n]]: the empty string for [n = 0]. *)
Definition drop_suffix (name : string) (n : nat) : string :=
  match n with
  | O => EmptyString
  | _ => substring 0 (String.length name - n) name
  end.

Section Handlers.
Context {TK : Toolkit}.

(** The loops of [generate_vd_idxs] and of
    [ImproperTorsionHandler.static_parameterize] over the patterns and
    their matches: [vd[key_of(m)] = p_idx]. *)
Fixpoint add_matches (key_of : list Z -> Result (list Z)) (p_idx : nat)
    (matches : list (list Z)) (vd : list (list Z * nat))
    : Result (list (list Z * nat)) :=
  match matches with
  | [] => Ok vd
  | m :: rest =>
      let! key := key_of m in
      add_matches key_of p_idx rest (dict_set key p_idx vd)
  end.

Fixpoint pattern_loop (key_of : list Z -> Result (list Z)) (mol : Mol TK)
    (p_idx : nat) (smirks : list string) (vd : list (list Z * nat))
    : Result (list (list Z * nat)) :=
  match smirks with
  | [] => Ok vd
  | patt :: rest =>
      let! matches := match_smirks TK mol patt in
      let! vd := add_matches key_of p_idx matches vd in
      pattern_loop key_of mol (S p_idx) rest vd
  end.

(** The matches are tuples of one length, so that the keys form a
    two-dimensional array. *)
Definition generate_vd_idxs (mol : Mol TK) (smirks : list string)
    : Result (list (list Z) * list nat) :=
  let! vd := pattern_loop (canonicalize_bond TK) mol 0 smirks [] in
  let bond_idxs := map fst vd in
  let param_idxs := map snd vd in
  Ok (bond_idxs, param_idxs).

(** *** [query_pt_it_idxs_from_g] *)

(** The node data of the heterograph that the function reads: for every
    [n4] node its four indices and its force constants, and the force
    constants of the [n4_improper] nodes if there are any. [nonzero k] is
    [k != 0.0]. *)
Record Graph (K : Type) : Type := {
  n4 : list ((Z * Z * Z * Z) * list K);
  n4_improper_k : option (list (list K));
}.
Arguments n4 {K} _.
Arguments n4_improper_k {K} _.

Definition count_nonzero {K} (nonzero : K -> bool) (ks : list K) : nat :=
  length (filter (fun k => nonzero k = true) ks).

Definition query_pt_it_idxs_from_g {K} (nonzero : K -> bool) (g : Graph K)
    : list nat * list nat :=
  let pt_counts :=
    fold_left
      (fun pt_counts node =>
         let '((idx0, idx1, idx2, idx3), ks) := node in
         if idx0 <? idx3 then (pt_counts + count_nonzero nonzero ks)%nat
         else pt_counts)
      (n4 g) 0%nat in
  let it_counts :=
    match n4_improper_k g with
    | Some kss =>
        fold_left (fun it_counts ks => (it_counts + count_nonzero nonzero ks)%nat)
          kss 0%nat
    | None => 0%nat
    end in
  (seq 0 pt_counts, seq pt_counts it_counts).

(** *** [prune_torsions] *)

(** [np.all(a == b)] for two rows of one length. *)
Definition rows_equal (a b : list Z) : bool := bool_decide (a = b).

Fixpoint prune_torsions_from (_idx : nat) (torsion_idxs : list (list Z))
    (match_torsion_idxs : list (list Z)) : list nat :=
  match torsion_idxs with
  | [] => []
  | torsion_idx :: rest =>
      let matches :=
        map (fun pt_idx =>
               rows_equal torsion_idx pt_idx
               || rows_equal (rev torsion_idx) pt_idx)
            match_torsion_idxs in
      let any_matches := existsb (fun b : bool => b) matches in
      (if any_matches then [_idx] else []) ++
      prune_torsions_from (S _idx) rest match_torsion_idxs
  end.

Definition prune_torsions (torsion_idxs match_torsion_idxs : list (list Z))
    : list nat :=
  prune_torsions_from 0 torsion_idxs match_torsion_idxs.

(** *** [annotate_mol_sys_torsions] and [handle_omm_torsions] *)

(** The attributes that [annotate_mol_sys_torsions] sets on a molecule. *)
Record Annotation : Type := {
  openmm_system : OmmSystem TK;
  pt_idxs : list nat;
  it_idxs : list nat;
}.

(** A molecule object: the rdkit molecule and the attributes set on it, if
    any. *)
Record PyMol : Type := {
  rd_mol : Mol TK;
  annotation : option Annotation;
}.

(** [idx in a] for an integer array [a] *)
Definition nat_in (idx : nat) (a : list nat) : bool := existsb (Nat.eqb idx) a.

Definition annotate_mol_sys_torsions {K} (nonzero : K -> bool) (mol : PyMol)
    (omm_system : OmmSystem TK) (mol_graph : option (Graph K))
    (pt_handle_smirks : list string) : Result PyMol :=
  let ptfs := periodic_torsion_forces TK omm_system in
  let! _ := py_assert (length ptfs =? 1)%nat
              "only 1 periodic torsion force is handled at this time" in
  let! ptf0 := match ptfs with
               | f :: _ => Ok f
               | [] => Raise IndexError
               end in
  let num_torsions := getNumTorsions TK ptf0 in
  let! (omm_torsion_idxs, omm_assigned_params) := idxs_params_from_t TK ptfs in
  let! (_proper_idxs, _improper_idxs) :=
    match mol_graph with
    | None =>
        let! (pt_torsion_idxs, param_idxs) :=
          generate_vd_idxs (rd_mol mol) pt_handle_smirks in
        let! _ := py_assert (length pt_torsion_idxs =? length param_idxs)%nat
                    no_message in
        let _proper_idxs := prune_torsions omm_torsion_idxs pt_torsion_idxs in
        let _improper_idxs :=
          List.filter (fun idx => negb (nat_in idx _proper_idxs))
            (seq 0 (length omm_torsion_idxs)) in
        Ok (_proper_idxs, _improper_idxs)
    | Some g =>
        let '(_proper_idxs, _improper_idxs) :=
          query_pt_it_idxs_from_g nonzero g in
        let! _ := py_assert
                    (Z.of_nat (length _proper_idxs + length _improper_idxs)
                     =? num_torsions) no_message in
        Ok (_proper_idxs, _improper_idxs)
    end in
  Ok {| rd_mol := rd_mol mol;
        annotation := Some {| openmm_system := omm_system;
                              pt_idxs := _proper_idxs;
                              it_idxs := _improper_idxs |} |}.

Definition handle_omm_torsions (mol : PyMol) (proper : bool)
    : Result (list (Term TK) * list (list Z)) :=
  let! a := match annotation mol with
            | Some a => Ok a
            | None => Raise AttributeError
            end in
  let ptfs := periodic_torsion_forces TK (openmm_system a) in
  let! (omm_torsion_idxs, omm_assigned_params) := idxs_params_from_t TK ptfs in
  let choice_idxs := if proper then pt_idxs a else it_idxs a in
  let! idxs := take_rows omm_torsion_idxs choice_idxs in
  let! assigned_params := take_rows omm_assigned_params choice_idxs in
  Ok (assigned_params, idxs).

(** *** [ReversibleBondHandler] *)

Record ReversibleBondHandler : Type := {
  rbh_smirks : list string;
  rbh_params : list (Term TK);
  rbh_props : Props TK;
}.

Definition rbh_init (smirks : list string) (params : list (Term TK))
    (props : Props TK) : Result ReversibleBondHandler :=
  let! _ := py_assert (length smirks =? length params)%nat no_message in
  Ok {| rbh_smirks := smirks; rbh_params := params; rbh_props := props |}.

(** [lookup_smirks]; [None] is Python's [None], returned when the loop ends
    without a match. *)
Fixpoint lookup_smirks_from (params : list (Term TK)) (s_idx : nat)
    (smirks : list string) (query : string) : Result (option (Term TK)) :=
  match smirks with
  | [] => Ok None
  | s :: rest =>
      if String.eqb s query then
        match params !! s_idx with
        | Some p => Ok (Some p)
        | None => Raise IndexError
        end
      else lookup_smirks_from params (S s_idx) rest query
  end.

Definition lookup_smirks (self : ReversibleBondHandler) (query : string)
    : Result (option (Term TK)) :=
  lookup_smirks_from (rbh_params self) 0 (rbh_smirks self) query.

Definition rbh_static_parameterize (params : list (Term TK))
    (smirks : list string) (mol : Mol TK)
    : Result (list (Term TK) * list (list Z)) :=
  let! (bond_idxs, param_idxs) := generate_vd_idxs mol smirks in
  let! assigned := take_rows params param_idxs in
  Ok (assigned, bond_idxs).

Definition rbh_parameterize (self : ReversibleBondHandler) (mol : Mol TK)
    : Result (list (Term TK) * list (list Z)) :=
  rbh_static_parameterize (rbh_params self) (rbh_smirks self) mol.

(** *** [ProperTorsionHandler] *)

Record ProperTorsionHandler : Type := {
  pth_counts : list nat;
  pth_smirks : list string;
  pth_params : list (Term TK);
  pth_props : Props TK;
}.

(** [__init__]: the loop over [zip(smirks, params)], which stops at the
    shorter of the two lists. *)
Fixpoint pth_init_loop (smirks : list string) (params : list (list (Term TK)))
    (self_counts : list nat) (self_smirks : list string)
    (self_params : list (Term TK))
    : list nat * list string * list (Term TK) :=
  match smirks, params with
  | smi :: smirks', terms :: params' =>
      pth_init_loop smirks' params'
        (self_counts ++ [length terms]) (self_smirks ++ [smi])
        (self_params ++ terms)
  | _, _ => (self_counts, self_smirks, self_params)
  end.

Definition pth_init (smirks : list string) (params : list (list (Term TK)))
    (props : Props TK) : ProperTorsionHandler :=
  let '(self_counts, self_smirks, self_params) :=
    pth_init_loop smirks params [] [] [] in
  {| pth_counts := self_counts;
     pth_smirks := self_smirks;
     pth_params := self_params;
     pth_props := props |}.

(** [np.cumsum] *)
Fixpoint cumsum_from (acc : nat) (counts : list nat) : list nat :=
  match counts with
  | [] => []
  | c :: rest => (acc + c)%nat :: cumsum_from (acc + c) rest
  end.

Definition getitem {A} (a : list A) (i : nat) : Result A :=
  match a !! i with
  | Some x => Ok x
  | None => Raise IndexError
  end.

(** The loop over [param_idxs] of [static_parameterize]. *)
Fixpoint scatter_loop (pfxsum counts : list nat) (param_idxs : list nat)
    (scatter_idxs repeats : list nat) : Result (list nat * list nat) :=
  match param_idxs with
  | [] => Ok (scatter_idxs, repeats)
  | p_idx :: rest =>
      let! start := getitem pfxsum p_idx in
      let! end_ := getitem pfxsum (p_idx + 1) in
      let! count := getitem counts p_idx in
      scatter_loop pfxsum counts rest
        (scatter_idxs ++ seq start (end_ - start)) (repeats ++ [count])
  end.

(** [np.repeat(a, repeats, axis=0)] for as many repeats as rows. *)
Definition np_repeat {A} (a : list A) (repeats : list nat) : list A :=
  flat_map (fun ar => replicate (snd ar) (fst ar)) (zip a repeats).

Definition pth_static_parameterize (params : list (Term TK))
    (smirks : list string) (counts : list nat) (mol : PyMol)
    : Result (list (Term TK) * list (list Z)) :=
  match annotation mol with
  | Some _ => handle_omm_torsions mol true
  | None =>
      let! (torsion_idxs, param_idxs) := generate_vd_idxs (rd_mol mol) smirks in
      let! _ := py_assert (length torsion_idxs =? length param_idxs)%nat
                  no_message in
      let pfxsum := 0%nat :: cumsum_from 0 counts in
      let! (scatter_idxs, repeats) :=
        scatter_loop pfxsum counts param_idxs [] [] in
      if (0 <? length param_idxs)%nat then
        let! assigned_params := take_rows_of_list params scatter_idxs in
        let proper_idxs := np_repeat torsion_idxs repeats in
        Ok (assigned_params, proper_idxs)
      else Ok ([], [])
  end.

Definition pth_parameterize (self : ProperTorsionHandler) (mol : PyMol)
    : Result (list (Term TK) * list (list Z)) :=
  pth_static_parameterize (pth_params self) (pth_smirks self)
    (pth_counts self) mol.

(** [serialize]: the inner loop [for _ in range(self.counts[smi_idx])] and
    the loop over the patterns. The result [{key: {"patterns": patterns}}]
    is the pair of [key] and [patterns]. *)
Fixpoint serialize_terms (self_params : list (Term TK)) (n : nat)
    (t_params : list (Term TK)) (counter : nat)
    : Result (list (Term TK) * nat) :=
  match n with
  | O => Ok (t_params, counter)
  | S n' =>
      let! term := getitem self_params counter in
      serialize_terms self_params n' (t_params ++ [term]) (counter + 1)
  end.

Fixpoint serialize_loop (self : ProperTorsionHandler) (smi_idx : nat)
    (smirks : list string) (list_params : list (list (Term TK)))
    (counter : nat) : Result (list (list (Term TK))) :=
  match smirks with
  | [] => Ok list_params
  | smi :: rest =>
      let! count := getitem (pth_counts self) smi_idx in
      let! (t_params, counter) :=
        serialize_terms (pth_params self) count [] counter in
      serialize_loop self (S smi_idx) rest (list_params ++ [t_params]) counter
  end.

Definition pth_serialize (self : ProperTorsionHandler)
    : Result (string * list (string * list (Term TK))) :=
  let! list_params := serialize_loop self 0 (pth_smirks self) [] 0 in
  let key :=
    drop_suffix "ProperTorsionHandler" (String.length (SUFFIX TK)) in
  let patterns := zip (pth_smirks self) list_params in
  Ok (key, patterns).

(** *** [ImproperTorsionHandler.static_parameterize] *)

Definition make_key (idxs : list Z) : Result (list Z) :=
  let! _ := py_assert (length idxs =? 4)%nat no_message in
  let! ctr := getitem idxs 1 in
  let! nb0 := getitem idxs 0 in
  let! nb2 := getitem idxs 2 in
  let! nb3 := getitem idxs 3 in
  let nbs := sorted [nb0; nb2; nb3] in
  let! s0 := getitem nbs 0 in
  let! s1 := getitem nbs 1 in
  let! s2 := getitem nbs 2 in
  Ok [s0; ctr; s1; s2].

(** The loop over [impropers.items()]: three rows for every key. *)
Fixpoint improper_rows (items : list (list Z * nat))
    (improper_idxs : list (list Z)) (param_idxs : list nat)
    : Result (list (list Z) * list nat) :=
  match items with
  | [] => Ok (improper_idxs, param_idxs)
  | (atom_idxs, p_idx) :: rest =>
      let! center := getitem atom_idxs 1 in
      let! o0 := getitem atom_idxs 0 in
      let! o1 := getitem atom_idxs 2 in
      let! o2 := getitem atom_idxs 3 in
      let! r0 := canonicalize_bond TK [center; o0; o1; o2] in
      let! r1 := canonicalize_bond TK [center; o1; o2; o0] in
      let! r2 := canonicalize_bond TK [center; o2; o0; o1] in
      improper_rows rest (improper_idxs ++ [r0; r1; r2])
        (param_idxs ++ [p_idx; p_idx; p_idx])
  end.

Definition ith_static_parameterize (params : list (Term TK))
    (smirks : list string) (mol : Mol TK)
    : Result (list (Term TK) * list (list Z)) :=
  let! impropers := pattern_loop make_key mol 0 smirks [] in
  let! (improper_idxs, param_idxs) := improper_rows impropers [] [] in
  if (0 <? length param_idxs)%nat then
    let! assigned_params := take_rows params param_idxs in
    Ok (assigned_params, improper_idxs)
  else Ok ([], []).
End Handlers.
Arguments Graph : clear implicits.
Arguments Annotation : clear implicits.
Arguments PyMol : clear implicits.
Arguments ReversibleBondHandler : clear implicits.
Arguments ProperTorsionHandler : clear implicits.
End Bonded.

(** *** Properties used in the statements about bonded.py *)

Section BondedPredicates.
Context {TK : Bonded.Toolkit}.

(** Pattern number [p] of [smirks] has a match in [mol] whose key is
    [k]. *)
Definition matched_by (key_of : list Z -> Result (list Z)) (mol : Bonded.Mol TK)
    (smirks : list string) (p : nat) (k : list Z) : Prop :=
  exists patt ms m,
    smirks !! p = Some patt /\ Bonded.match_smirks TK mol patt = Ok ms /\
    In m ms /\ key_of m = Ok k.

(** [p] is the last pattern of [smirks] with a match of key [k]. *)
Definition last_match (key_of : list Z -> Result (list Z)) (mol : Bonded.Mol TK)
    (smirks : list string) (p : nat) (k : list Z) : Prop :=
  matched_by key_of mol smirks p k /\
  forall p' : nat, (p < p')%nat -> ~ matched_by key_of mol smirks p' k.

(** Some match of the list [ms] has the key [k]. *)
Definition key_among (key_of : list Z -> Result (list Z)) (ms : list (list Z))
    (k : list Z) : Prop :=
  exists m, In m ms /\ key_of m = Ok k.

(** The dictionary [d] holds, for every key matched by one of the first
    [n] patterns, the last of these patterns that matches it. *)
Definition dict_upto (key_of : list Z -> Result (list Z)) (mol : Bonded.Mol TK)
    (smirks : list string) (n : nat) (d : list (list Z * nat)) : Prop :=
  NoDup (map fst d) /\
  forall (k : list Z) (v : nat),
    In (k, v) d <->
    (v < n)%nat /\ matched_by key_of mol smirks v k /\
    forall v' : nat,
      (v < v')%nat -> (v' < n)%nat -> ~ matched_by key_of mol smirks v' k.
End BondedPredicates.

(** *** A small toolkit for examples

    A molecule is the table of the matches of each pattern; a match is
    turned so that its first index is not above its last; the parameter
    rows are integers. *)

Definition toy_match_smirks (mol : list (string * list (list Z)))
    (patt : string) : Result (list (list Z)) :=
  Ok (flat_map (fun e => if String.eqb (fst e) patt then snd e else []) mol).

Definition toy_canonicalize_bond (m : list Z) : Result (list Z) :=
  match m, last m with
  | a :: _, Some b => if b <? a then Ok (rev m) else Ok m
  | _, _ => Raise (ExternalError 0)
  end.

Definition toy_toolkit : Bonded.Toolkit :=
  {| Bonded.Mol := list (string * list (list Z));
     Bonded.Term := Z;
     Bonded.Props := unit;
     Bonded.OmmSystem := list (list Z) * list Z;
     Bonded.TorsionForce := list (list Z) * list Z;
     Bonded.match_smirks := toy_match_smirks;
     Bonded.canonicalize_bond := toy_canonicalize_bond;
     Bonded.periodic_torsion_forces := fun s => [s];
     Bonded.getNumTorsions := fun f => Z.of_nat (length (fst f));
     Bonded.idxs_params_from_t :=
       fun fs => Ok (flat_map fst fs, flat_map snd fs);
     Bonded.SUFFIX := "Handler" |}.

(** Two bonds; the generic pattern matches both, the later one only the
    second, in the other direction. *)
Definition toy_mol : Bonded.Mol toy_toolkit :=
  [("[*:1]-[*:2]"%string, [[0; 1]; [1; 2]]); ("[#6:1]-[#8:2]"%string, [[2; 1]])].

Definition toy_bond_smirks : list string :=
  ["[*:1]-[*:2]"%string; "[#6:1]-[#8:2]"%string].

(** Torsions of a small system and the proper torsions found in the
    molecule, one of them listed in the other direction. *)
Definition toy_omm_torsions : list (list Z) :=
  [[0; 1; 2; 3]; [1; 0; 4; 5]; [3; 2; 1; 6]; [7; 2; 1; 0]].

Definition toy_pt_torsions : list (list Z) := [[0; 1; 2; 3]; [6; 1; 2; 3]].

Definition toy_torsion_mol : Bonded.PyMol toy_toolkit :=
  @Bonded.Build_PyMol toy_toolkit
    [("[*:1]~[*:2]~[*:3]~[*:4]"%string, [[0; 1; 2; 3]; [6; 1; 2; 3]])] None.

(** What a [ProperTorsionHandler] built from [params] assigns when the
    valence dictionary is [(torsion_idxs, param_idxs)]: for every matched
    torsion all the terms of its pattern, and its indices once per term. *)
Definition terms_of {T} (params : list (list T)) (p : nat) : list T :=
  default [] (params !! p).

Definition assigned_terms {T} (params : list (list T)) (param_idxs : list nat)
    : list T :=
  flat_map (terms_of params) param_idxs.

Definition repeated_idxs {T} (params : list (list T))
    (torsion_idxs : list (list Z)) (param_idxs : list nat) : list (list Z) :=
  flat_map (fun tp => replicate (length (terms_of params (snd tp))) (fst tp))
    (zip torsion_idxs param_idxs).

(** Three patterns with one, no and two terms. *)
Definition toy_torsion_smirks : list string :=
  ["[*:1]~[*:2]~[*:3]~[*:4]"%string; "[#1:1]~[*:2]~[*:3]~[*:4]"%string;
   "[#6:1]~[#6:2]~[#6:3]~[#6:4]"%string].

Definition toy_torsion_params : list (list (Bonded.Term toy_toolkit)) :=
  [[10]; []; [31; 32]].

Definition toy_proper_mol : Bonded.PyMol toy_toolkit :=
  @Bonded.Build_PyMol toy_toolkit
    [("[*:1]~[*:2]~[*:3]~[*:4]"%string, [[0; 1; 2; 3]; [4; 1; 2; 3]]);
     ("[#6:1]~[#6:2]~[#6:3]~[#6:4]"%string, [[3; 2; 1; 0]])] None.

(** The three rows that [ImproperTorsionHandler.static_parameterize] makes
    of the key [k]: the centre first, then the other three atoms in their
    three cyclic orders, each row as [canonicalize_bond] returns it. *)
Definition improper_block {TK : Bonded.Toolkit} (k : list Z)
    (r0 r1 r2 : list Z) : Prop :=
  exists o0 center o1 o2,
    Bonded.getitem k 0 = Ok o0 /\ Bonded.getitem k 1 = Ok center /\
    Bonded.getitem k 2 = Ok o1 /\ Bonded.getitem k 3 = Ok o2 /\
    Bonded.canonicalize_bond TK [center; o0; o1; o2] = Ok r0 /\
    Bonded.canonicalize_bond TK [center; o1; o2; o0] = Ok r1 /\
    Bonded.canonicalize_bond TK [center; o2; o0; o1] = Ok r2.

(** An improper centred on atom 1, matched twice with its neighbours in
    two orders, and the pattern that matches it. *)
Definition toy_improper_mol : Bonded.Mol toy_toolkit :=
  [("[*:1]~[#6:2](~[*:3])~[*:4]"%string, [[5; 1; 0; 2]; [2; 1; 5; 0]])].

Definition toy_improper_smirks : list string :=
  ["[*:1]~[#6:2](~[*:3])~[*:4]"%string].

Definition toy_bond_handler : Bonded.ReversibleBondHandler toy_toolkit :=
  @Bonded.Build_ReversibleBondHandler toy_toolkit toy_bond_smirks [10; 20] tt.

(** A handler that lists one pattern twice. *)
Definition toy_repeated_handler : Bonded.ReversibleBondHandler toy_toolkit :=
  @Bonded.Build_ReversibleBondHandler toy_toolkit ["a"; "b"; "a"]%string
    [10; 20; 30] tt.

(** * Theorems *)

(** ** Running the model on small inputs *)

Example batches_10_3 : batches 10 3 = Ok [3; 3; 3; 1].
Proof. reflexivity. Qed.

Example batches_9_3 : batches 9 3 = Ok [3; 3; 3].
Proof. reflexivity. Qed.

Example batches_2_5 : batches 2 5 = Ok [2].
Proof. reflexivity. Qed.

Example toy_sample_in_memory :
  FE.sample (E := toy_engine) 0%nat (toy_state 0) toy_md_params None
  = Ok ([Some 4; Some 6; Some 8], [4; 4; 4]).
Proof. reflexivity. Qed.

Example toy_sample_streaming :
  FE.sample (E := toy_engine) 0%nat (toy_state 0) toy_md_params (Some 2)
  = Ok ([Some 4; Some 6; Some 8], [4; 4; 4]).
Proof. reflexivity. Qed.

Example toy_sample_blow_up :
  FE.sample (E := toy_engine) 0%nat (toy_state 100) toy_md_params None
  = Raise (AssertionError "Equilibration resulted in a nan").
Proof. reflexivity. Qed.

Example toy_rbfe_sample :
  Rbfe.sample (E := toy_engine) 0%nat (toy_rbfe_state 0) toy_protocol
  = Ok ([Some 4; Some 6; Some 8], [4; 4; 4]).
Proof. reflexivity. Qed.

(** ** [batches] *)

Lemma sumZ_app (l1 l2 : list Z) : sumZ (l1 ++ l2) = sumZ l1 + sumZ l2.
Proof. induction l1 as [|x l1 IH]; simpl; lia. Qed.

Lemma sumZ_repeat (b : Z) (k : nat) : sumZ (repeat b k) = Z.of_nat k * b.
Proof. induction k as [|k IH]; [reflexivity|]. cbn [repeat sumZ fold_right]. fold (sumZ (repeat b k)). lia. Qed.

Lemma batches_ok (n batch_size : Z) :
  0 <= n -> 0 < batch_size ->
  batches n batch_size =
    Ok (repeat batch_size (Z.to_nat (n / batch_size)) ++
        (if n mod batch_size =? 0 then [] else [n mod batch_size])).
Proof.
  intros Hn Hb. unfold batches, py_assert.
  destruct (Z.leb_spec 0 n); [|lia].
  destruct (Z.ltb_spec 0 batch_size); [|lia].
  reflexivity.
Qed.

Lemma batches_rejects (n batch_size : Z) :
  batch_size <= 0 -> batches n batch_size = Raise (AssertionError no_message).
Proof.
  intros Hb. unfold batches, py_assert.
  destruct (0 <=? n); [|reflexivity].
  destruct (Z.ltb_spec 0 batch_size); [lia|reflexivity].
Qed.

Lemma batches_yield (n batch_size : Z) :
  0 <= n -> 0 < batch_size ->
  exists l : list Z,
    batches n batch_size = Ok l /\ sumZ l = n /\ Forall (fun b => 0 <= b) l.
Proof.
  intros Hn Hb. eexists. split; [apply batches_ok; assumption|].
  pose proof (Z.div_mod n batch_size ltac:(lia)) as Hdm.
  pose proof (Z.mod_pos_bound n batch_size Hb) as Hr.
  pose proof (Z.div_pos n batch_size Hn Hb) as Hq.
  split.
  - rewrite sumZ_app, sumZ_repeat, Z2Nat.id by assumption.
    destruct (Z.eqb_spec (n mod batch_size) 0); cbn; lia.
  - apply Forall_app. split.
    + apply Forall_forall. intros x Hx%list_elem_of_In%repeat_spec. lia.
    + destruct (Z.eqb_spec (n mod batch_size) 0); [constructor|].
      constructor; [lia|constructor].
Qed.

(** C3. For [n >= 0] and [batch_size > 0], [batches] yields integers that sum
    to [n]; every element but the last is [batch_size] and the last lies in
    [1, batch_size]. [batches 0 k] yields nothing, and a [batch_size <= 0]
    fails the assertion instead of yielding. *)
Theorem batches_split_correct (n batch_size : Z) :
  (0 <= n -> 0 < batch_size ->
   exists l : list Z,
     batches n batch_size = Ok l /\
     sumZ l = n /\
     (forall (i : nat) (x : Z),
         l !! i = Some x -> (S i < length l)%nat -> x = batch_size) /\
     (forall x : Z, last l = Some x -> 1 <= x <= batch_size)) /\
  (0 < batch_size -> batches 0 batch_size = Ok []) /\
  (batch_size <= 0 -> batches n batch_size = Raise (AssertionError no_message)).
Proof.
  split; [|split].
  - intros Hn Hb. eexists. split; [apply batches_ok; assumption|].
    pose proof (Z.div_mod n batch_size ltac:(lia)) as Hdm.
    pose proof (Z.mod_pos_bound n batch_size Hb) as Hr.
    pose proof (Z.div_pos n batch_size Hn Hb) as Hq.
    set (q := n / batch_size) in *. set (r := n mod batch_size) in *.
    split; [|split].
    + rewrite sumZ_app, sumZ_repeat, Z2Nat.id by assumption.
      destruct (Z.eqb_spec r 0); cbn; lia.
    + intros i x Hi Hlen.
      rewrite length_app, repeat_length in Hlen.
      destruct (decide (i < Z.to_nat q)%nat) as [Hlt|Hge].
      * rewrite lookup_app_l in Hi by (rewrite repeat_length; exact Hlt).
        apply list_elem_of_lookup_2, list_elem_of_In, repeat_spec in Hi.
        exact Hi.
      * destruct (r =? 0); cbn in Hlen; lia.
    + intros x Hx.
      destruct (Z.eqb_spec r 0) as [Hr0|Hr0].
      * rewrite app_nil_r in Hx.
        assert (x = batch_size) as ->; [|lia].
        apply last_Some_elem_of, list_elem_of_In, repeat_spec in Hx. exact Hx.
      * rewrite last_snoc in Hx. injection Hx as <-. lia.
  - intros Hb. rewrite batches_ok by lia.
    rewrite Z.div_0_l, Z.mod_0_l by lia. reflexivity.
  - apply batches_rejects.
Qed.

Lemma batches_split_correct_witness :
  (exists l : list Z,
     batches 10 3 = Ok l /\
     sumZ l = 10 /\
     (forall (i : nat) (x : Z),
         l !! i = Some x -> (S i < length l)%nat -> x = 3) /\
     (forall x : Z, last l = Some x -> 1 <= x <= 3)) /\
  batches 0 3 = Ok [] /\
  batches 10 (-1) = Raise (AssertionError no_message).
Proof.
  split; [|split].
  - apply (batches_split_correct 10 3); lia.
  - apply (batches_split_correct 10 3); lia.
  - apply (batches_split_correct 10 (-1)); lia.
Defined.

(** ** The engine's recording of frames *)

Lemma div_succ (m d : Z) :
  0 <= m -> 0 < d ->
  (m + 1) / d = m / d + (if (m + 1) mod d =? 0 then 1 else 0).
Proof.
  intros Hm Hd.
  pose proof (Z.div_mod (m + 1) d ltac:(lia)) as Hdm.
  pose proof (Z.mod_pos_bound (m + 1) d Hd) as Hr.
  set (q := (m + 1) / d) in *. set (r := (m + 1) mod d) in *.
  destruct (Z.eqb_spec r 0) as [Hr0|Hr0].
  - assert (m / d = q - 1); [|lia].
    symmetry. apply (Z.div_unique m d (q - 1) (d - 1)); lia.
  - assert (m / d = q); [|lia].
    symmetry. apply (Z.div_unique m d q (r - 1)); lia.
Qed.

Section StepsFacts.
Context {E : Engine}.
Implicit Types (stepf : Ctxt E -> Ctxt E) (c : Ctxt E).

Lemma steps_ctxt stepf d k c :
  fst (steps stepf d k c) = Nat.iter k stepf c.
Proof.
  induction k as [|k IH]; [reflexivity|].
  rewrite Nat.iter_succ, <- IH. cbn [steps].
  destruct (steps stepf d k c) as [c1 [xs bs]]. cbn [fst].
  destruct ((0 <? d) && (Z.of_nat (S k) mod d =? 0)); reflexivity.
Qed.

Lemma steps_lengths stepf d k c :
  length (fst (snd (steps stepf d k c))) = recorded d k /\
  length (snd (snd (steps stepf d k c))) = recorded d k.
Proof.
  unfold recorded. induction k as [|k IH].
  - cbn. destruct (0 <? d); split; reflexivity.
  - cbn [steps].
    destruct (steps stepf d k c) as [c1 [xs bs]]. cbn [fst snd] in IH.
    destruct IH as [IHx IHb].
    destruct (Z.ltb_spec 0 d) as [Hd|Hd]; cbn [andb].
    + replace (Z.of_nat (S k)) with (Z.of_nat k + 1) by lia.
      rewrite (div_succ (Z.of_nat k) d) by lia.
      pose proof (Z.div_pos (Z.of_nat k) d ltac:(lia) Hd).
      destruct ((Z.of_nat k + 1) mod d =? 0); cbn [fst snd];
        rewrite ?length_app; cbn [length]; lia.
    + cbn [fst snd]. split; assumption.
Qed.

(** Every recorded frame is the coordinate array of the context after some
    number of steps. *)
Lemma steps_frames stepf d k c x :
  x ∈ fst (snd (steps stepf d k c)) ->
  exists j : nat, (j <= k)%nat /\ x = get_x_t E (Nat.iter j stepf c).
Proof.
  induction k as [|k IH].
  - cbn. intros H. apply elem_of_nil in H. destruct H.
  - cbn [steps].
    pose proof (steps_ctxt stepf d k c) as Hc.
    destruct (steps stepf d k c) as [c1 [xs bs]]. cbn [fst snd] in *.
    assert (x ∈ xs -> exists j : nat,
               (j <= S k)%nat /\ x = get_x_t E (Nat.iter j stepf c)) as IH'.
    { intros Hx. destruct (IH Hx) as (j & Hj & ->). exists j.
      split; [lia|reflexivity]. }
    destruct ((0 <? d) && (Z.of_nat (S k) mod d =? 0)); cbn [fst snd].
    + intros [Hx|Hx]%elem_of_app; [exact (IH' Hx)|].
      apply list_elem_of_singleton in Hx. exists (S k).
      rewrite Nat.iter_succ, <- Hc. split; [lia|exact Hx].
    + exact IH'.
Qed.

Lemma multiple_steps_U_lengths stepf c (n d : Z) :
  0 <= n -> 1 <= d ->
  length (fst (snd (multiple_steps_U stepf c (n * d) d))) = Z.to_nat n /\
  length (snd (snd (multiple_steps_U stepf c (n * d) d))) = Z.to_nat n.
Proof.
  intros Hn Hd. unfold multiple_steps_U.
  pose proof (steps_lengths stepf d (Z.to_nat (n * d)) c) as H.
  unfold recorded in H.
  destruct (Z.ltb_spec 0 d); [|lia].
  rewrite Z2Nat.id, Z.div_mul in H by nia. exact H.
Qed.
End StepsFacts.

(** ** Results and assertions *)

Lemma rbind_Ok {A B} (m : Result A) (k : A -> Result B) (b : B) :
  rbind m k = Ok b -> exists a : A, m = Ok a /\ k a = Ok b.
Proof. destruct m as [e|a]; cbn; [discriminate|]. intros H. exists a. split; [reflexivity|exact H]. Qed.

Lemma rbind_Raise {A B} (m : Result A) (k : A -> Result B) (e : exn) :
  m = Raise e -> rbind m k = Raise e.
Proof. intros ->. reflexivity. Qed.

Lemma py_assert_Ok (cond : bool) (msg : string) (u : unit) :
  py_assert cond msg = Ok u -> cond = true.
Proof. destruct cond; [reflexivity|discriminate]. Qed.

Lemma py_assert_true (msg : string) : py_assert true msg = Ok tt.
Proof. reflexivity. Qed.

Lemma len_is_true {A} (l : list A) (n : Z) :
  len_is l n = true <-> Z.of_nat (length l) = n.
Proof. unfold len_is. apply Z.eqb_eq. Qed.

Ltac rsimpl := cbn [rbind Ok Raise].

Tactic Notation "inv_bind" hyp(H) "as" simple_intropattern(a) ident(Ha) :=
  apply rbind_Ok in H; destruct H as (a & Ha & H).

(** ** The sampler of free_energy.py *)

Section FESampleFacts.
Context {E : Engine}.
Implicit Types (env : Env E) (md : FE.MDParams) (st : FE.InitialState E).

Lemma run_batches_lengths env md c (bs : list Z) ax ab :
  1 <= FE.steps_per_frame md ->
  Forall (fun b => 0 <= b) bs ->
  length (fst (FE.run_batches env md c bs ax ab))
    = (length ax + Z.to_nat (sumZ bs))%nat /\
  length (snd (FE.run_batches env md c bs ax ab))
    = (length ab + Z.to_nat (sumZ bs))%nat.
Proof.
  intros Hspf Hbs. revert c ax ab.
  induction Hbs as [|b bs Hb Hbs IH]; intros c ax ab.
  - cbn. lia.
  - cbn [FE.run_batches]. unfold FE.run_production_steps.
    pose proof (multiple_steps_U_lengths (step E env) c b
                  (FE.steps_per_frame md) Hb Hspf) as [Hx Hbx].
    destruct (multiple_steps_U _ c _ _) as [c' [xs bxs]].
    cbn [fst snd] in Hx, Hbx.
    destruct (IH c' (ax ++ xs) (ab ++ bxs)) as [IHx IHb].
    rewrite IHx, IHb, !length_app, Hx, Hbx.
    assert (0 <= sumZ bs).
    { clear -Hbs. induction Hbs; cbn; [lia|]. fold (sumZ l). lia. }
    cbn [sumZ fold_right]. fold (sumZ bs). lia.
Qed.

Lemma run_batches_frames env md c (bs : list Z) ax ab x :
  1 <= FE.steps_per_frame md ->
  Forall (fun b => 0 <= b) bs ->
  x ∈ fst (FE.run_batches env md c bs ax ab) ->
  x ∈ ax \/
  exists j : nat,
    (j <= Z.to_nat (sumZ bs * FE.steps_per_frame md))%nat /\
    x = get_x_t E (Nat.iter j (step E env) c).
Proof.
  intros Hspf Hbs. revert c ax ab.
  induction Hbs as [|b bs Hb Hbs IH]; intros c ax ab.
  - cbn. intros H. left. exact H.
  - cbn [FE.run_batches]. unfold FE.run_production_steps, multiple_steps_U.
    assert (0 <= sumZ bs) as Hsum.
    { clear -Hbs. induction Hbs; cbn; [lia|]. fold (sumZ l). lia. }
    assert (Z.to_nat (sumZ (b :: bs) * FE.steps_per_frame md)
            = (Z.to_nat (sumZ bs * FE.steps_per_frame md)
               + Z.to_nat (b * FE.steps_per_frame md))%nat) as ->.
    { cbn [sumZ fold_right]. fold (sumZ bs). nia. }
    set (k := Z.to_nat (b * FE.steps_per_frame md)).
    pose proof (steps_ctxt (step E env) (FE.steps_per_frame md) k c) as Hc.
    pose proof (steps_frames (step E env) (FE.steps_per_frame md) k c) as Hf.
    destruct (steps _ _ k c) as [c' [xs bxs]]. cbn [fst snd] in Hc, Hf.
    intros Hx. apply IH in Hx. destruct Hx as [Hx|(j & Hj & Hx)].
    + apply elem_of_app in Hx. destruct Hx as [Hx|Hx]; [left; exact Hx|].
      right. destruct (Hf x Hx) as (j & Hj & ->). exists j.
      split; [lia|reflexivity].
    + right. exists (j + k)%nat. rewrite Nat.iter_add, <- Hc.
      split; [lia|exact Hx].
Qed.

(** Whenever [sample] returns, both sequences have [n_frames] entries. *)
Lemma FE_sample_postcondition env st md mbf xs bxs :
  FE.sample env st md mbf = Ok (xs, bxs) ->
  Z.of_nat (length xs) = FE.n_frames md /\
  Z.of_nat (length bxs) = FE.n_frames md.
Proof.
  unfold FE.sample.
  destruct (multiple_steps_U _ _ _ 0) as [c1 ?].
  intros H. inv_bind H as ? Hfin. inv_bind H as [all_coords all_boxes] Hrun.
  inv_bind H as ? Hlx. inv_bind H as ? Hlb. inv_bind H as x_last Hlast.
  inv_bind H as ? Hfin'. injection H as -> ->.
  apply py_assert_Ok, len_is_true in Hlx, Hlb. split; assumption.
Qed.

(** With a protocol of at least one frame and one step per frame and
    coordinates that stay finite, [sample] returns. *)
Lemma FE_sample_returns env st md mbf :
  1 <= FE.n_frames md -> 1 <= FE.steps_per_frame md ->
  (forall m, mbf = Some m -> 0 <= m) ->
  stays_finite (step E env) (FE.make_context st)
    (steps_run (FE.n_eq_steps md) (FE.n_frames md) (FE.steps_per_frame md)) ->
  exists xs bxs, FE.sample env st md mbf = Ok (xs, bxs).
Proof.
  intros Hnf Hspf Hm Hfin. unfold FE.sample. unfold steps_run in Hfin.
  pose proof (steps_ctxt (step E env) 0 (Z.to_nat (FE.n_eq_steps md))
                (FE.make_context st)) as Hc1.
  unfold multiple_steps_U.
  destruct (steps _ 0 _ _) as [c1 ?]. cbn [fst] in Hc1.
  assert (all_finite E (get_x_t E c1) = true) as ->
    by (rewrite Hc1; apply Hfin; lia).
  rewrite py_assert_true. rsimpl.
  assert (exists all_coords all_boxes,
    match FE.truthy mbf with
    | Some m =>
        let! bs := batches (FE.n_frames md) m in
        Ok (FE.run_batches env md c1 bs [] [])
    | None =>
        Ok (snd (FE.run_production_steps env md c1
                   (FE.n_frames md * FE.steps_per_frame md)))
    end = Ok (all_coords, all_boxes) /\
    length all_coords = Z.to_nat (FE.n_frames md) /\
    length all_boxes = Z.to_nat (FE.n_frames md) /\
    forall x, x ∈ all_coords ->
      exists j : nat,
        (j <= Z.to_nat (FE.n_frames md * FE.steps_per_frame md))%nat /\
        x = get_x_t E (Nat.iter j (step E env) c1))
    as (all_coords & all_boxes & -> & Hlx & Hlb & Hiter).
  { destruct (FE.truthy mbf) as [m|] eqn:Hmbf.
    - assert (0 < m) as Hmpos.
      { unfold FE.truthy in Hmbf. destruct mbf as [m'|]; [|discriminate].
        specialize (Hm m' eq_refl).
        destruct (Z.eqb_spec m' 0); [discriminate|].
        injection Hmbf as <-. lia. }
      destruct (batches_yield (FE.n_frames md) m ltac:(lia) Hmpos)
        as (l & -> & Hsum & Hpos).
      rsimpl.
      destruct (run_batches_lengths env md c1 l [] [] Hspf Hpos) as [Hx Hb].
      destruct (FE.run_batches env md c1 l [] []) as [ac ab] eqn:Hrb.
      cbn [fst snd length] in Hx, Hb. exists ac, ab.
      rewrite Hx, Hb, Hsum. do 3 (split; [reflexivity|]).
      intros x Hin.
      pose proof (run_batches_frames env md c1 l [] [] x Hspf Hpos) as Hf.
      rewrite Hrb, Hsum in Hf. destruct (Hf Hin) as [Hnil|Hj]; [|exact Hj].
      apply elem_of_nil in Hnil. destruct Hnil.
    - unfold FE.run_production_steps.
      destruct (multiple_steps_U_lengths (step E env) c1 (FE.n_frames md)
                  (FE.steps_per_frame md) ltac:(lia) Hspf) as [Hx Hb].
      pose proof (steps_frames (step E env) (FE.steps_per_frame md)
                    (Z.to_nat (FE.n_frames md * FE.steps_per_frame md)) c1)
        as Hf.
      unfold multiple_steps_U in *.
      destruct (steps _ _ _ c1) as [c2 [ac ab]]. cbn [fst snd] in *.
      exists ac, ab. do 3 (split; [first [reflexivity|assumption]|]).
      exact Hf. }
  rsimpl.
  assert (len_is all_coords (FE.n_frames md) = true) as ->
    by (apply len_is_true; lia).
  assert (len_is all_boxes (FE.n_frames md) = true) as ->
    by (apply len_is_true; lia).
  rewrite !py_assert_true. rsimpl.
  unfold last_item.
  destruct (last all_coords) as [x_last|] eqn:Hlast.
  - rsimpl. apply last_Some_elem_of in Hlast.
    destruct (Hiter x_last Hlast) as (j & Hj & ->).
    rewrite Hc1, <- Nat.iter_add, Hfin, py_assert_true by lia. rsimpl.
    exists all_coords, all_boxes. reflexivity.
  - apply last_None in Hlast. subst all_coords. cbn in Hlx. lia.
Qed.
End FESampleFacts.

Section FESampleChecks.
Context {E : Engine}.
Implicit Types (env : Env E) (md : FE.MDParams) (st : FE.InitialState E).

(** Coordinates that are not finite after the burn-in abort the call. *)
Lemma FE_sample_aborts_after_burn_in env st md mbf :
  all_finite E
    (get_x_t E (Nat.iter (Z.to_nat (FE.n_eq_steps md)) (step E env)
                  (FE.make_context st))) = false ->
  FE.sample env st md mbf
  = Raise (AssertionError "Equilibration resulted in a nan").
Proof.
  intros Hnan. unfold FE.sample, multiple_steps_U.
  pose proof (steps_ctxt (step E env) 0 (Z.to_nat (FE.n_eq_steps md))
                (FE.make_context st)) as Hc1.
  destruct (steps _ 0 _ _) as [c1 ?]. cbn [fst] in Hc1.
  rewrite Hc1, Hnan. reflexivity.
Qed.

(** The last frame of a returned trajectory is finite. *)
Lemma FE_sample_last_frame_finite env st md mbf xs bxs :
  FE.sample env st md mbf = Ok (xs, bxs) ->
  exists x, last xs = Some x /\ all_finite E x = true.
Proof.
  unfold FE.sample.
  destruct (multiple_steps_U _ _ _ 0) as [c1 ?].
  intros H. inv_bind H as ? Hfin. inv_bind H as [all_coords all_boxes] Hrun.
  inv_bind H as ? Hlx. inv_bind H as ? Hlb. inv_bind H as x_last Hlast.
  inv_bind H as ? Hfin'. injection H as -> ->.
  unfold last_item in Hlast. destruct (last xs) as [y|]; [|discriminate].
  injection Hlast as ->. apply py_assert_Ok in Hfin'. exists x_last.
  split; [reflexivity|exact Hfin'].
Qed.
End FESampleChecks.

(** ** The sampler of rbfe.py *)

Section RbfeSampleFacts.
Context {E : Engine}.
Implicit Types (env : Env E) (p : Rbfe.SimulationProtocol)
  (st : Rbfe.InitialState E).

Lemma Rbfe_sample_postcondition env st p xs bxs :
  Rbfe.sample env st p = Ok (xs, bxs) ->
  Z.of_nat (length xs) = Rbfe.n_frames p /\
  Z.of_nat (length bxs) = Rbfe.n_frames p.
Proof.
  unfold Rbfe.sample.
  destruct (multiple_steps_U _ _ _ 0) as [c1 ?].
  destruct (multiple_steps_U _ c1 _ _) as [c2 [all_coords all_boxes]].
  intros H. inv_bind H as ? Hlx. inv_bind H as ? Hlb. injection H as -> ->.
  apply py_assert_Ok, len_is_true in Hlx, Hlb. split; assumption.
Qed.

(** The frames that [sample] of rbfe.py returns: those recorded after the
    burn-in, whatever their coordinates are. *)
Lemma Rbfe_sample_returns env st p :
  0 <= Rbfe.n_frames p -> 1 <= Rbfe.steps_per_frame p ->
  Rbfe.sample env st p
  = Ok (snd (multiple_steps_U (step_lamb E env (Rbfe.lamb st))
               (Nat.iter (Z.to_nat (Rbfe.burn_in p))
                  (step_lamb E env (Rbfe.lamb st)) (Rbfe.make_context st))
               (Rbfe.n_frames p * Rbfe.steps_per_frame p)
               (Rbfe.steps_per_frame p))).
Proof.
  intros Hnf Hspf. unfold Rbfe.sample.
  pose proof (steps_ctxt (step_lamb E env (Rbfe.lamb st)) 0
                (Z.to_nat (Rbfe.burn_in p)) (Rbfe.make_context st)) as Hc1.
  unfold multiple_steps_U at 1.
  destruct (steps _ 0 _ _) as [c1 ?]. cbn [fst] in Hc1. subst c1.
  destruct (multiple_steps_U_lengths (step_lamb E env (Rbfe.lamb st))
              (Nat.iter (Z.to_nat (Rbfe.burn_in p))
                 (step_lamb E env (Rbfe.lamb st)) (Rbfe.make_context st))
              (Rbfe.n_frames p) (Rbfe.steps_per_frame p) Hnf Hspf)
    as [Hx Hb].
  destruct (multiple_steps_U _ _ _ _) as [c2 [all_coords all_boxes]].
  cbn [fst snd] in *.
  assert (len_is all_coords (Rbfe.n_frames p) = true) as ->
    by (apply len_is_true; lia).
  assert (len_is all_boxes (Rbfe.n_frames p) = true) as ->
    by (apply len_is_true; lia).
  reflexivity.
Qed.
End RbfeSampleFacts.

(** C2. Whenever either sampler returns, the trajectory and the boxes have
    exactly [n_frames] entries, on the in-memory and on the streaming path
    alike; and with at least one frame, at least one step per frame, a buffer
    limit that is not negative and coordinates that stay finite, the sampler
    does return. *)
Theorem sample_frame_count {E : Engine} (env : Env E)
    (st : FE.InitialState E) (md : FE.MDParams) (mbf : option Z)
    (rst : Rbfe.InitialState E) (p : Rbfe.SimulationProtocol) :
  (forall xs bxs,
      FE.sample env st md mbf = Ok (xs, bxs) ->
      Z.of_nat (length xs) = FE.n_frames md /\
      Z.of_nat (length bxs) = FE.n_frames md) /\
  (forall xs bxs,
      Rbfe.sample env rst p = Ok (xs, bxs) ->
      Z.of_nat (length xs) = Rbfe.n_frames p /\
      Z.of_nat (length bxs) = Rbfe.n_frames p) /\
  (1 <= FE.n_frames md -> 1 <= FE.steps_per_frame md ->
   (forall m, mbf = Some m -> 0 <= m) ->
   stays_finite (step E env) (FE.make_context st)
     (steps_run (FE.n_eq_steps md) (FE.n_frames md) (FE.steps_per_frame md)) ->
   exists xs bxs, FE.sample env st md mbf = Ok (xs, bxs)) /\
  (1 <= Rbfe.n_frames p -> 1 <= Rbfe.steps_per_frame p ->
   exists xs bxs, Rbfe.sample env rst p = Ok (xs, bxs)).
Proof.
  split; [|split; [|split]].
  - intros xs bxs. apply FE_sample_postcondition.
  - intros xs bxs. apply Rbfe_sample_postcondition.
  - apply FE_sample_returns.
  - intros Hnf Hspf. rewrite Rbfe_sample_returns by lia.
    destruct (snd _) as [xs bxs]. exists xs, bxs. reflexivity.
Qed.

Lemma toy_stays_finite :
  stays_finite (step toy_engine 0%nat) (FE.make_context (toy_state 0))
    (steps_run (FE.n_eq_steps toy_md_params) (FE.n_frames toy_md_params)
       (FE.steps_per_frame toy_md_params)).
Proof.
  intros k Hk. change (k <= 8)%nat in Hk.
  do 9 (destruct k as [|k]; [reflexivity|]). lia.
Qed.

Lemma sample_frame_count_witness :
  (exists xs bxs,
      FE.sample (E := toy_engine) 0%nat (toy_state 0) toy_md_params (Some 2)
      = Ok (xs, bxs)) /\
  (exists xs bxs,
      Rbfe.sample (E := toy_engine) 0%nat (toy_rbfe_state 0) toy_protocol
      = Ok (xs, bxs)).
Proof.
  pose proof (sample_frame_count (E := toy_engine) 0%nat (toy_state 0)
                toy_md_params (Some 2) (toy_rbfe_state 0) toy_protocol)
    as (_ & _ & Hfe & Hrbfe).
  split.
  - apply Hfe.
    + cbn. lia.
    + cbn. lia.
    + intros m [= <-]. lia.
    + exact toy_stays_finite.
  - apply Hrbfe; cbn; lia.
Defined.

(** C6. In rbfe.py the sampler returns a trajectory whose coordinates are
    not finite, where the sampler of free_energy.py aborts after the
    burn-in: the finiteness assertions are missing on one of the two
    sampling paths. *)
Theorem rbfe_sample_returns_non_finite_frames :
  Rbfe.sample (E := toy_engine) 0%nat (toy_rbfe_state 100) toy_protocol
  = Ok ([None; None; None], [4; 4; 4]) /\
  FE.sample (E := toy_engine) 0%nat (toy_state 100) toy_md_params None
  = Raise (AssertionError "Equilibration resulted in a nan").
Proof. split; reflexivity. Qed.

(** ** The sliding window of the sequential runner *)

Section WindowFacts.
Context {E : Engine}.
Implicit Types (t : list (option (FE.EnergyDecomposedState E))).

Lemma held_cons_Some e t : FE.held (Some e :: t) = S (FE.held t).
Proof.
  unfold FE.held. rewrite filter_cons_True by (eexists; reflexivity).
  reflexivity.
Qed.

Lemma held_cons_None t : FE.held (None :: t) = FE.held t.
Proof.
  unfold FE.held. rewrite filter_cons_False; [reflexivity|].
  intros [e He]. discriminate.
Qed.

(** Slots held within a range of [w] positions hold at most [w] states. *)
Lemma held_within_bound t (lo w : nat) :
  held_within lo (lo + w) t -> (FE.held t <= w)%nat.
Proof.
  revert lo w. induction t as [|o t IH]; intros lo w Hw.
  - cbn. lia.
  - destruct o as [e|].
    + rewrite held_cons_Some.
      pose proof (Hw 0%nat e eq_refl) as H0.
      assert (FE.held t <= w - 1)%nat; [|lia].
      apply (IH 0%nat). intros j e' Hj.
      pose proof (Hw (S j) e' Hj). lia.
    + rewrite held_cons_None. destruct lo as [|lo].
      * destruct w as [|w].
        -- apply (IH 0%nat 0%nat). intros j e' Hj.
           pose proof (Hw (S j) e' Hj). lia.
        -- assert (FE.held t <= w)%nat; [|lia].
           apply (IH 0%nat). intros j e' Hj.
           pose proof (Hw (S j) e' Hj). lia.
      * apply (IH lo). intros j e' Hj.
        pose proof (Hw (S j) e' Hj). lia.
Qed.

Lemma held_within_free t (i : nat) :
  held_within (i - 2) i t ->
  held_within (i - 1) i
    (if (2 <=? i)%nat then <[(i - 2)%nat := None]> t else t).
Proof.
  intros Hw. destruct (Nat.leb_spec 2 i) as [Hi|Hi].
  - intros j e Hj. rewrite list_lookup_insert in Hj.
    destruct (decide _) as [[-> _]|Hn]; [discriminate|].
    pose proof (Hw j e Hj). apply lookup_lt_Some in Hj. lia.
  - intros j e Hj. pose proof (Hw j e Hj). lia.
Qed.

Lemma held_within_construct t (i : nat) e :
  held_within (i - 1) i t ->
  held_within (S i - 2) (S i) (<[i := Some e]> t).
Proof.
  intros Hw j e' Hj. rewrite list_lookup_insert in Hj.
  destruct (decide _) as [[-> _]|_]; [lia|].
  pose proof (Hw j e' Hj). lia.
Qed.
End WindowFacts.

Section RunnerFacts.
Context {E : Engine} {A : Analysis}.
Implicit Types (env : Env E) (md : FE.MDParams) (st : FE.InitialState E)
  (s : FE.RunState E) (keep : list Z) (T : R)
  (t : list (option (FE.EnergyDecomposedState E))).

Lemma held_two t (lo hi : nat) :
  (hi <= lo + 2)%nat -> held_within lo hi t -> (FE.held t <= 2)%nat.
Proof.
  intros Hhi Hw. apply (held_within_bound t lo 2).
  intros j e Hj. pose proof (Hw j e Hj). lia.
Qed.

Lemma run_simulation_Ok env md st s cur s1 :
  FE.run_simulation env md st s = Ok (cur, s1) ->
  exists tr,
    FE.sample env st md None = Ok tr /\
    cur = {| FE.cur_frames := mk_ndarray (FE.next_id s) (fst tr);
             FE.cur_boxes := mk_ndarray (S (FE.next_id s)) (snd tr) |} /\
    FE.next_id s1 = S (S (FE.next_id s)) /\
    FE.stored_frames s1 = FE.stored_frames s /\
    FE.stored_boxes s1 = FE.stored_boxes s /\
    FE.tmp_states s1 = FE.tmp_states s /\
    FE.u_kln_by_component_by_lambda s1 = FE.u_kln_by_component_by_lambda s.
Proof.
  unfold FE.run_simulation.
  destruct (FE.sample env st md None) as [e|[xs bxs]]; [discriminate|].
  rsimpl. intros [= <- <-]. exists (xs, bxs). repeat split.
Qed.

Lemma keep_samples_tmp keep (i : nat) cur s :
  FE.tmp_states (FE.keep_samples keep i cur s) = FE.tmp_states s.
Proof. unfold FE.keep_samples. destruct (py_in _ _); reflexivity. Qed.

Lemma free_old_state_tmp (i : nat) s :
  FE.tmp_states (FE.free_old_state i s)
  = if (2 <=? i)%nat then <[(i - 2)%nat := None]> (FE.tmp_states s)
    else FE.tmp_states s.
Proof. unfold FE.free_old_state. destruct (2 <=? i)%nat; reflexivity. Qed.

Lemma pair_analysis_Ok (i : nat) s s' :
  FE.pair_analysis i s = Ok s' ->
  FE.tmp_states s' = FE.tmp_states s /\
  FE.next_id s' = FE.next_id s /\
  FE.stored_frames s' = FE.stored_frames s /\
  FE.stored_boxes s' = FE.stored_boxes s.
Proof.
  unfold FE.pair_analysis. destruct (0 <? i)%nat.
  - intros H. inv_bind H as u Hu. injection H as <-. repeat split.
  - intros [= <-]. repeat split.
Qed.

(** One iteration keeps the held slots within the last two windows, at
    each of its points. *)
Lemma loop_body_held env md T keep (i : nat) st s :
  held_within (i - 2) i (FE.tmp_states s) ->
  Forall (fun s' => (FE.held (FE.tmp_states s') <= 2)%nat)
    (FE.loop_body_points env md T keep i st s) /\
  (forall s', FE.loop_body env md T keep i st s = Ok s' ->
              held_within (S i - 2) (S i) (FE.tmp_states s')).
Proof.
  intros Hw. unfold FE.loop_body_points, FE.loop_body.
  destruct (FE.run_simulation env md st s) as [e|[cur s1]] eqn:Hsim.
  - split; [constructor|]. intros s' H. discriminate.
  - apply run_simulation_Ok in Hsim.
    destruct Hsim as (tr & _ & _ & _ & _ & _ & Htmp & _).
    set (s2 := FE.keep_samples keep i cur s1).
    set (s3 := FE.free_old_state i s2).
    set (s4 := FE.construct_state T i st cur s3).
    assert (held_within (i - 2) i (FE.tmp_states s1)) as H1
      by (rewrite Htmp; exact Hw).
    assert (held_within (i - 2) i (FE.tmp_states s2)) as H2
      by (unfold s2; rewrite keep_samples_tmp; exact H1).
    assert (held_within (i - 1) i (FE.tmp_states s3)) as H3.
    { unfold s3. rewrite free_old_state_tmp. apply held_within_free.
      exact H2. }
    assert (held_within (S i - 2) (S i) (FE.tmp_states s4)) as H4.
    { unfold s4, FE.construct_state. cbn [FE.tmp_states FE.set_tmp_states].
      apply held_within_construct. exact H3. }
    rsimpl. split.
    + repeat apply Forall_cons_2.
      * apply (held_two _ (i - 2) i); [lia|exact H1].
      * apply (held_two _ (i - 2) i); [lia|exact H2].
      * apply (held_two _ (i - 1) i); [lia|exact H3].
      * apply (held_two _ (S i - 2) (S i)); [lia|exact H4].
      * destruct (FE.pair_analysis i s4) as [e|s5] eqn:H5; [constructor|].
        apply pair_analysis_Ok in H5. destruct H5 as [H5 _].
        apply Forall_cons_2; [|constructor].
        rewrite H5. apply (held_two _ (S i - 2) (S i)); [lia|exact H4].
    + intros s' H5. apply pair_analysis_Ok in H5. destruct H5 as [H5 _].
      rewrite H5. exact H4.
Qed.

Lemma run_loop_points_held env md T keep ists :
  forall (i : nat) s,
    held_within (i - 2) i (FE.tmp_states s) ->
    Forall (fun s' => (FE.held (FE.tmp_states s') <= 2)%nat)
      (FE.run_loop_points env md T keep i ists s).
Proof.
  induction ists as [|st ists IH]; intros i s Hw; [constructor|].
  cbn [FE.run_loop_points].
  destruct (loop_body_held env md T keep i st s Hw) as [Hpts Hnext].
  apply Forall_app. split; [exact Hpts|].
  destruct (FE.loop_body env md T keep i st s) as [e|s']; [constructor|].
  apply IH. apply Hnext. reflexivity.
Qed.

Lemma held_within_replicate (n lo hi : nat) :
  held_within lo hi
    (replicate n (None : option (FE.EnergyDecomposedState E))).
Proof. intros j e Hj. apply lookup_replicate in Hj. destruct Hj. discriminate. Qed.
End RunnerFacts.

Section RunnerForward.
Context {E : Engine} {A : Analysis}.
Variables (env : Env E) (md : FE.MDParams) (T : R) (keep : list Z).
Implicit Types (st : FE.InitialState E) (s : FE.RunState E)
  (tr : list (Coords E) * list (Box E))
  (prev : option (FE.EnergyDecomposedState E)).

Lemma loop_body_forward (i : nat) st tr s prev :
  FE.sample env st md None = Ok tr ->
  FE.next_id s = (2 * i)%nat ->
  (i < length (FE.tmp_states s))%nat ->
  prev_is i s prev ->
  exists s',
    FE.loop_body env md T keep i st s = Ok s' /\
    FE.next_id s' = (2 * S i)%nat /\
    FE.stored_frames s'
    = FE.stored_frames s ++
      (if py_in (Z.of_nat i) keep then [window_frames i tr] else []) /\
    FE.stored_boxes s'
    = FE.stored_boxes s ++
      (if py_in (Z.of_nat i) keep then [window_boxes i tr] else []) /\
    FE.tmp_states s'
    = <[i := Some (eds_of T i st tr)]>
        (if (2 <=? i)%nat then <[(i - 2)%nat := None]> (FE.tmp_states s)
         else FE.tmp_states s) /\
    FE.u_kln_by_component_by_lambda s'
    = FE.u_kln_by_component_by_lambda s ++
      match prev with
      | Some p => [FE.pair_u_kln p (eds_of T i st tr)]
      | None => []
      end.
Proof.
  intros Hsample Hid Hlen Hprev.
  unfold FE.loop_body, FE.run_simulation. rewrite Hsample.
  destruct tr as [xs bxs]. rsimpl.
  set (cur := {| FE.cur_frames := _; FE.cur_boxes := _ |}).
  set (s1 := {| FE.next_id := _ |}).
  set (s2 := FE.keep_samples keep i cur s1).
  set (s3 := FE.free_old_state i s2).
  set (s4 := FE.construct_state T i st cur s3).
  assert (FE.tmp_states s3
          = if (2 <=? i)%nat then <[(i - 2)%nat := None]> (FE.tmp_states s)
            else FE.tmp_states s) as Ht3.
  { unfold s3. rewrite free_old_state_tmp. unfold s2.
    rewrite keep_samples_tmp. reflexivity. }
  assert (FE.tmp_states s4
          = <[i := Some (eds_of T i st (xs, bxs))]> (FE.tmp_states s3)) as Ht4.
  { unfold s4, FE.construct_state, eds_of, window_frames, window_boxes, cur.
    cbn [FE.tmp_states FE.set_tmp_states FE.cur_frames FE.cur_boxes fst snd].
    rewrite Hid. reflexivity. }
  assert (FE.stored_frames s4
          = FE.stored_frames s ++
            (if py_in (Z.of_nat i) keep then [window_frames i (xs, bxs)]
             else []) /\
          FE.stored_boxes s4
          = FE.stored_boxes s ++
            (if py_in (Z.of_nat i) keep then [window_boxes i (xs, bxs)]
             else []) /\
          FE.next_id s4 = (2 * S i)%nat /\
          FE.u_kln_by_component_by_lambda s4
          = FE.u_kln_by_component_by_lambda s) as (Hsf & Hsb & Hid4 & Hu4).
  { unfold s4, FE.construct_state, s3, FE.free_old_state, s2, FE.keep_samples.
    unfold window_frames, window_boxes, cur, s1.
    destruct (py_in (Z.of_nat i) keep), (2 <=? i)%nat;
      cbn [FE.stored_frames FE.stored_boxes FE.next_id FE.set_tmp_states
           FE.u_kln_by_component_by_lambda FE.cur_frames FE.cur_boxes fst snd];
      rewrite ?app_nil_r, ?Hid; repeat split; try lia; reflexivity. }
  assert (length (FE.tmp_states s3) = length (FE.tmp_states s)) as Hl3.
  { rewrite Ht3. destruct (2 <=? i)%nat; [apply length_insert|reflexivity]. }
  unfold FE.pair_analysis.
  destruct prev as [p|]; cbn [prev_is] in Hprev.
  - destruct Hprev as [Hi Hp].
    destruct (Nat.ltb_spec 0 i) as [_|]; [|lia].
    assert (FE.tmp_states s4 !! (i - 1)%nat = Some (Some p)) as ->.
    { rewrite Ht4, list_lookup_insert_ne by lia. rewrite Ht3.
      destruct (Nat.leb_spec 2 i); [|exact Hp].
      rewrite list_lookup_insert_ne by lia. exact Hp. }
    assert (FE.tmp_states s4 !! i = Some (Some (eds_of T i st (xs, bxs))))
      as ->.
    { rewrite Ht4. apply list_lookup_insert_eq. lia. }
    cbn [default FE.compute_energy_decomposed_u_kln]. rsimpl.
    eexists. split; [reflexivity|].
    cbn [FE.next_id FE.stored_frames FE.stored_boxes FE.tmp_states
         FE.u_kln_by_component_by_lambda].
    rewrite Hid4, Hsf, Hsb, Ht4, Ht3, Hu4. repeat split.
  - subst i. cbn [Nat.ltb Nat.leb].
    eexists. split; [reflexivity|].
    rewrite Hid4, Hsf, Hsb, Ht4, Ht3, Hu4, app_nil_r. repeat split.
Qed.
End RunnerForward.

Section RunnerLoop.
Context {E : Engine} {A : Analysis}.
Variables (env : Env E) (md : FE.MDParams) (T : R) (keep : list Z).
Implicit Types (st : FE.InitialState E) (s : FE.RunState E)
  (tr : list (Coords E) * list (Box E))
  (prev : option (FE.EnergyDecomposedState E)).

(** The loop when every window is sampled successfully. *)
Lemma run_loop_forward ists :
  forall trajs (i : nat) s prev,
    Forall2 (fun st tr => FE.sample env st md None = Ok tr) ists trajs ->
    FE.next_id s = (2 * i)%nat ->
    (i + length ists <= length (FE.tmp_states s))%nat ->
    prev_is i s prev ->
    exists s',
      FE.run_loop env md T keep i ists s = Ok s' /\
      FE.next_id s' = (2 * (i + length ists))%nat /\
      FE.stored_frames s'
      = FE.stored_frames s ++
        map (fun p => window_frames (fst p) (snd p)) (kept_from keep i trajs) /\
      FE.stored_boxes s'
      = FE.stored_boxes s ++
        map (fun p => window_boxes (fst p) (snd p)) (kept_from keep i trajs) /\
      length (FE.tmp_states s') = length (FE.tmp_states s) /\
      FE.u_kln_by_component_by_lambda s'
      = FE.u_kln_by_component_by_lambda s ++
        pairs_after prev (windows_from T i ists trajs) /\
      (forall j : nat,
          (j < i)%nat -> (i + length ists <= j + 2)%nat ->
          FE.tmp_states s' !! j = FE.tmp_states s !! j) /\
      (forall (k : nat) w,
          windows_from T i ists trajs !! k = Some w ->
          (length ists <= k + 2)%nat ->
          FE.tmp_states s' !! (i + k)%nat = Some (Some w)).
Proof.
  induction ists as [|st ists IH]; intros trajs i s prev Hall Hid Hlen Hprev.
  - apply Forall2_nil_inv_l in Hall. subst trajs.
    exists s. cbn [FE.run_loop kept_from map windows_from length].
    rewrite !app_nil_r, Nat.add_0_r.
    split; [reflexivity|]. split; [exact Hid|].
    do 3 (split; [reflexivity|]).
    split; [destruct prev; cbn; rewrite app_nil_r; reflexivity|].
    split; [reflexivity|]. intros k w Hk. discriminate.
  - apply Forall2_cons_inv_l in Hall.
    destruct Hall as (tr & trajs' & Hs & Hall & ->).
    cbn [length] in Hlen.
    destruct (loop_body_forward env md T keep i st tr s prev Hs Hid
                ltac:(lia) Hprev)
      as (s1 & Hbody & Hid1 & Hsf1 & Hsb1 & Ht1 & Hu1).
    assert (length (FE.tmp_states s1) = length (FE.tmp_states s)) as Hl1.
    { rewrite Ht1, length_insert.
      destruct (2 <=? i)%nat; [apply length_insert|reflexivity]. }
    assert (FE.tmp_states s1 !! i = Some (Some (eds_of T i st tr))) as Hti.
    { rewrite Ht1. apply list_lookup_insert_eq.
      destruct (2 <=? i)%nat; rewrite ?length_insert; lia. }
    destruct (IH trajs' (S i) s1 (Some (eds_of T i st tr)) Hall Hid1
                ltac:(lia))
      as (s' & Hrun & Hid' & Hsf' & Hsb' & Hl' & Hu' & Hpres & Hwin).
    { cbn [prev_is]. split; [lia|].
      replace (S i - 1)%nat with i by lia. exact Hti. }
    exists s'. cbn [FE.run_loop]. rewrite Hbody. rsimpl.
    split; [exact Hrun|].
    split; [rewrite Hid'; cbn [length]; lia|].
    split.
    { rewrite Hsf', Hsf1. cbn [kept_from]. rewrite map_app, <- app_assoc.
      f_equal. destruct (py_in _ _); reflexivity. }
    split.
    { rewrite Hsb', Hsb1. cbn [kept_from]. rewrite map_app, <- app_assoc.
      f_equal. destruct (py_in _ _); reflexivity. }
    split; [rewrite Hl'; exact Hl1|].
    split.
    { rewrite Hu', Hu1, <- app_assoc. f_equal.
      cbn [windows_from pairs_after]. destruct prev; reflexivity. }
    split.
    + intros j Hj Hj2. cbn [length] in Hj2.
      rewrite (Hpres j) by lia. rewrite Ht1.
      rewrite list_lookup_insert_ne by lia.
      destruct (Nat.leb_spec 2 i); [|reflexivity].
      rewrite list_lookup_insert_ne by lia. reflexivity.
    + intros k w Hk Hk2. cbn [windows_from length] in Hk, Hk2.
      destruct k as [|k].
      * injection Hk as <-. rewrite Nat.add_0_r.
        rewrite (Hpres i) by lia. exact Hti.
      * replace (i + S k)%nat with (S i + k)%nat by lia.
        apply Hwin; [exact Hk|lia].
Qed.

(** A loop that ends has sampled every window successfully. *)
Lemma run_loop_sampled ists :
  forall (i : nat) s s',
    FE.run_loop env md T keep i ists s = Ok s' ->
    exists trajs,
      Forall2 (fun st tr => FE.sample env st md None = Ok tr) ists trajs.
Proof.
  induction ists as [|st ists IH]; intros i s s' Hrun.
  - exists []. constructor.
  - cbn [FE.run_loop] in Hrun. inv_bind Hrun as s1 Hbody.
    unfold FE.loop_body in Hbody. inv_bind Hbody as [cur s0] Hsim.
    apply run_simulation_Ok in Hsim. destruct Hsim as (tr & Hs & _).
    destruct (IH _ _ _ Hrun) as [trajs Hall].
    exists (tr :: trajs). constructor; assumption.
Qed.

Lemma run_loop_held_final ists :
  forall (i : nat) s s',
    FE.run_loop env md T keep i ists s = Ok s' ->
    held_within (i - 2) i (FE.tmp_states s) ->
    held_within (i + length ists - 2) (i + length ists) (FE.tmp_states s').
Proof.
  induction ists as [|st ists IH]; intros i s s' Hrun Hw.
  - cbn in Hrun. injection Hrun as <-. cbn [length].
    rewrite Nat.add_0_r. exact Hw.
  - cbn [FE.run_loop] in Hrun. inv_bind Hrun as s1 Hbody.
    destruct (loop_body_held env md T keep i st s Hw) as [_ Hnext].
    specialize (IH (S i) s1 s' Hrun (Hnext s1 Hbody)).
    cbn [length]. replace (i + S (length ists))%nat
      with (S i + length ists)%nat by lia. exact IH.
Qed.
End RunnerLoop.

(** C1. Along a run of [run_sequential_sims_given_initial_states] over any
    ladder, [tmp_states] holds at most two [EnergyDecomposedState]s at every
    point; in iteration [i >= 2] the state in which the
    [EnergyDecomposedState] of window [i] is constructed (the third point of
    the iteration) has slot [i - 2] freed; and when the run ends every slot
    but the last two is [None]. *)
Theorem sliding_window_memory_bound {E : Engine} {A : Analysis} (env : Env E)
    (initial_states : list (FE.InitialState E)) (md : FE.MDParams) (T : R)
    (keep_idxs : option (list Z)) :
  Forall (fun s => (FE.held (FE.tmp_states s) <= 2)%nat)
    (FE.run_sequential_points env initial_states md T keep_idxs) /\
  (forall (keep : list Z) (i : nat) st s s3,
      FE.loop_body_points env md T keep i st s !! 2%nat = Some s3 ->
      (2 <= i)%nat -> (i - 2 < length (FE.tmp_states s))%nat ->
      FE.tmp_states s3 !! (i - 2)%nat = Some None) /\
  (forall s,
      FE.run_sequential_final_state env initial_states md T keep_idxs = Ok s ->
      forall j : nat,
        (j + 2 < length initial_states)%nat ->
        FE.tmp_states s !! j = Some None).
Proof.
  split; [|split].
  - unfold FE.run_sequential_points.
    destruct (FE.checked_keep_idxs keep_idxs) as [e|keep]; [constructor|].
    apply Forall_cons_2.
    + apply (held_two _ 0 0); [lia|]. apply held_within_replicate.
    + apply run_loop_points_held. apply held_within_replicate.
  - intros keep i st s s3 Hpt Hi Hlen. unfold FE.loop_body_points in Hpt.
    destruct (FE.run_simulation env md st s) as [e|[cur s1]] eqn:Hsim;
      [discriminate|].
    apply run_simulation_Ok in Hsim.
    destruct Hsim as (tr & _ & _ & _ & _ & _ & Htmp & _).
    cbn in Hpt. injection Hpt as <-.
    rewrite free_old_state_tmp, keep_samples_tmp, Htmp.
    destruct (Nat.leb_spec 2 i); [|lia].
    apply list_lookup_insert_eq. exact Hlen.
  - intros s Hrun j Hj. unfold FE.run_sequential_final_state in Hrun.
    inv_bind Hrun as keep Hkeep.
    pose proof (run_loop_held_final env md T keep initial_states 0 _ s Hrun
                  (held_within_replicate _ _ _)) as Hw.
    destruct (run_loop_sampled env md T keep initial_states 0 _ s Hrun)
      as [trajs Hall].
    destruct (run_loop_forward env md T keep initial_states trajs 0
                (FE.initial_run_state (length initial_states)) None Hall
                eq_refl)
      as (s' & Hrun' & _ & _ & _ & Hlen & _).
    { cbn. rewrite length_replicate. lia. }
    { reflexivity. }
    rewrite Hrun in Hrun'. injection Hrun' as <-.
    cbn in Hlen. rewrite length_replicate in Hlen.
    destruct (FE.tmp_states s !! j) as [[e|]|] eqn:Hlook.
    + pose proof (Hw j e Hlook). lia.
    + reflexivity.
    + apply lookup_ge_None in Hlook. lia.
Qed.

Lemma sliding_window_memory_bound_witness :
  exists s,
    FE.run_sequential_final_state (E := toy_engine) (A := toy_analysis) 0%nat
      [toy_state 0; toy_state 1; toy_state 2] toy_md_params 300%R
      (Some [0; 2]) = Ok s /\
    FE.tmp_states s !! 0%nat = Some None.
Proof.
  destruct (sliding_window_memory_bound (E := toy_engine) (A := toy_analysis)
              0%nat [toy_state 0; toy_state 1; toy_state 2]
              toy_md_params 300%R (Some [0; 2]))
    as (_ & _ & Hfinal).
  assert (returned
            (FE.run_sequential_final_state (E := toy_engine)
               (A := toy_analysis) 0%nat
               [toy_state 0; toy_state 1; toy_state 2] toy_md_params 300%R
               (Some [0; 2])) = true) as Hret by (vm_compute; reflexivity).
  destruct (FE.run_sequential_final_state _ _ _ _ _) as [e|s] eqn:Hrun.
  - discriminate Hret.
  - exists s. split; [reflexivity|].
    apply Hfinal; [reflexivity|cbn; lia].
Defined.

(** ** What the runner retains *)

Section Retention.
Context {E : Engine}.

Lemma elem_of_kept_from {B} (keep : list Z) (trajs : list B) :
  forall (i j : nat) (tr : B),
    (j, tr) ∈ kept_from keep i trajs <->
    exists k : nat,
      j = (i + k)%nat /\ trajs !! k = Some tr /\
      py_in (Z.of_nat j) keep = true.
Proof.
  induction trajs as [|tr0 trajs IH]; intros i j tr; cbn [kept_from].
  - split; [intros H; apply elem_of_nil in H; destruct H|].
    intros (k & _ & Hk & _). discriminate.
  - rewrite elem_of_app, IH. split.
    + intros [H|(k & -> & Hk & Hin)].
      * destruct (py_in (Z.of_nat i) keep) eqn:Hin;
          [|apply elem_of_nil in H; destruct H].
        apply list_elem_of_singleton in H. injection H as -> ->.
        exists 0%nat. rewrite Nat.add_0_r. auto.
      * exists (S k). split; [lia|]. split; [exact Hk|].
        replace (i + S k)%nat with (S i + k)%nat by lia. exact Hin.
    + intros (k & -> & Hk & Hin). destruct k as [|k].
      * left. injection Hk as ->. rewrite Nat.add_0_r in *. rewrite Hin.
        apply list_elem_of_here.
      * right. exists k. split; [lia|]. split; [exact Hk|].
        replace (S i + k)%nat with (i + S k)%nat by lia. exact Hin.
Qed.

Lemma windows_from_lookup {A : Analysis} (T : R)
    (ists : list (FE.InitialState E)) :
  forall (trajs : list (list (Coords E) * list (Box E))) (i k : nat) st tr,
    ists !! k = Some st -> trajs !! k = Some tr ->
    windows_from T i ists trajs !! k = Some (eds_of T (i + k) st tr).
Proof.
  induction ists as [|st0 ists IH]; intros trajs i k st tr Hst Htr;
    [discriminate|].
  destruct trajs as [|tr0 trajs]; [discriminate|].
  cbn [windows_from]. destruct k as [|k].
  - injection Hst as ->. injection Htr as ->. rewrite Nat.add_0_r. reflexivity.
  - replace (i + S k)%nat with (S i + k)%nat by lia. apply IH; assumption.
Qed.

(** The final state of a run of the runner of free_energy.py, window by
    window. *)
Lemma run_sequential_final_state_spec {A : Analysis} (env : Env E)
    (ists : list (FE.InitialState E)) (md : FE.MDParams) (T : R)
    (keep_idxs : option (list Z)) (s : FE.RunState E) :
  FE.run_sequential_final_state env ists md T keep_idxs = Ok s ->
  exists trajs,
    Forall2 (fun st tr => FE.sample env st md None = Ok tr) ists trajs /\
    FE.stored_frames s
    = map (fun p => window_frames (fst p) (snd p))
        (kept_from (default [] keep_idxs) 0 trajs) /\
    FE.stored_boxes s
    = map (fun p => window_boxes (fst p) (snd p))
        (kept_from (default [] keep_idxs) 0 trajs) /\
    FE.u_kln_by_component_by_lambda s
    = pairs_after None (windows_from T 0 ists trajs) /\
    (forall (k : nat) st tr,
        ists !! k = Some st -> trajs !! k = Some tr ->
        (length ists <= k + 2)%nat ->
        FE.tmp_states s !! k = Some (Some (eds_of T k st tr))).
Proof.
  intros Hrun. unfold FE.run_sequential_final_state in Hrun.
  inv_bind Hrun as keep Hkeep.
  assert (keep = default [] keep_idxs) as ->.
  { unfold FE.checked_keep_idxs in Hkeep. inv_bind Hkeep as u Hu.
    injection Hkeep as <-. reflexivity. }
  destruct (run_loop_sampled env md T _ ists 0 _ s Hrun) as [trajs Hall].
  destruct (run_loop_forward env md T (default [] keep_idxs) ists trajs 0
              (FE.initial_run_state (length ists)) None Hall eq_refl)
    as (s' & Hrun' & _ & Hsf & Hsb & _ & Hu & _ & Hwin).
  { cbn. rewrite length_replicate. lia. }
  { reflexivity. }
  rewrite Hrun in Hrun'. injection Hrun' as <-.
  exists trajs. split; [exact Hall|]. split; [exact Hsf|].
  split; [exact Hsb|]. split; [exact Hu|].
  intros k st tr Hst Htr Hk.
  apply (Hwin k); [|exact Hk].
  apply (windows_from_lookup T ists trajs 0 k st tr Hst Htr).
Qed.
End Retention.

(** ** The loop of rbfe.py *)

Section RbfeLoop.
Context {E : Engine} {A : Analysis}.
Variables (env : Env E) (p : Rbfe.SimulationProtocol)
  (all_axes : Rbfe.AxesArray) (beta : R) (prefix : string) (keep : list Z)
  (U_names : list string).
Implicit Types (st : Rbfe.InitialState E) (s : Rbfe.LoopState E)
  (tr : list (Coords E) * list (Box E)) (prev cur : Rbfe.Window E).

Lemma component_loop_Ok (i : nat) prev cur fns :
  forall (u_idx : nat) plots fwds revs plots' fwds' revs',
    Rbfe.component_loop all_axes beta U_names i prev cur u_idx fns plots fwds
      revs
    = Ok (plots', fwds', revs') ->
    fwds' = fwds ++
            map (fun pc => Rbfe.fwd_delta_u beta prev cur (fst pc) (snd pc)) fns /\
    revs' = revs ++
            map (fun pc => Rbfe.rev_delta_u beta prev cur (fst pc) (snd pc)) fns.
Proof.
  induction fns as [|[pf cf] fns IH];
    intros u_idx plots fwds revs plots' fwds' revs' H.
  - cbn in H. injection H as <- <- <-. rewrite !app_nil_r. split; reflexivity.
  - cbn [Rbfe.component_loop] in H.
    inv_bind H as [df df_err] Hbar. inv_bind H as axes_row Hrow.
    inv_bind H as plot_axis Haxis. inv_bind H as nm Hnm.
    apply IH in H. destruct H as [-> ->].
    cbn [map fst snd]. rewrite <- !app_assoc. split; reflexivity.
Qed.

(** A subplot can be picked with two subscripts only from a grid of at
    least two rows and two columns. *)
Lemma two_subscripts_Ok (row col : nat) axes_row :
  Rbfe.axes_getitem all_axes row = Ok axes_row ->
  Rbfe.row_getitem axes_row col = Ok tt ->
  exists num_rows num_cols,
    all_axes = Rbfe.Axes2D num_rows num_cols /\
    (row < num_rows)%nat /\ (col < num_cols)%nat.
Proof.
  intros Hrow Hcol. destruct all_axes as [|n|num_rows num_cols];
    unfold Rbfe.axes_getitem in Hrow.
  - discriminate.
  - destruct (row <? n)%nat; [|discriminate]. injection Hrow as <-.
    discriminate.
  - destruct (Nat.ltb_spec row num_rows) as [Hr|Hr]; [|discriminate].
    injection Hrow as <-. unfold Rbfe.row_getitem in Hcol.
    destruct (Nat.ltb_spec col num_cols) as [Hc|Hc]; [|discriminate].
    exists num_rows, num_cols. auto.
Qed.

Lemma pair_bar_Ok (i : nat) prev cur s dGs errs plots :
  Rbfe.pair_bar all_axes beta prefix U_names i prev cur s
  = Ok (dGs, errs, plots) ->
  exists dG err,
    summed_work_estimate beta prev cur dG err /\
    dGs = Rbfe.acc_dGs s ++ [dG] /\ errs = Rbfe.acc_errs s ++ [err].
Proof.
  unfold Rbfe.pair_bar. intros H.
  inv_bind H as [[plots' fwds] revs] Hloop. inv_bind H as u Hu.
  inv_bind H as [df df_err] Hbar. inv_bind H as axes_row Hrow.
  inv_bind H as plot_axis Haxis. injection H as <- <- <-.
  apply component_loop_Ok in Hloop. destruct Hloop as [-> ->].
  cbn [app] in Hbar.
  exists (df / beta)%R, (df_err / beta)%R.
  split; [|split; reflexivity].
  exists df, df_err. split; [exact Hbar|]. split; reflexivity.
Qed.

Lemma rbfe_loop_body_Ok (i : nat) st s s' :
  Rbfe.loop_body env p all_axes beta prefix keep U_names i st s = Ok s' ->
  Rbfe.next_id s = (2 * i)%nat ->
  exists tr,
    Rbfe.sample env st p = Ok tr /\
    Rbfe.next_id s' = (2 * S i)%nat /\
    Rbfe.stored_frames s'
    = Rbfe.stored_frames s ++
      (if py_in (Z.of_nat i) keep then [window_frames i tr] else []) /\
    Rbfe.stored_boxes s'
    = Rbfe.stored_boxes s ++
      (if py_in (Z.of_nat i) keep then [window_boxes i tr] else []) /\
    Rbfe.prev_window s' = Some (rbfe_window i st tr) /\
    if (0 <? i)%nat then
      exists prev dG err,
        Rbfe.prev_window s = Some prev /\
        summed_work_estimate beta prev (rbfe_window i st tr) dG err /\
        Rbfe.acc_dGs s' = Rbfe.acc_dGs s ++ [dG] /\
        Rbfe.acc_errs s' = Rbfe.acc_errs s ++ [err]
    else
      Rbfe.acc_dGs s' = Rbfe.acc_dGs s /\ Rbfe.acc_errs s' = Rbfe.acc_errs s.
Proof.
  unfold Rbfe.loop_body. intros H Hid.
  inv_bind H as [xs bxs] Hsample. exists (xs, bxs).
  split; [exact Hsample|].
  rewrite Hid in H.
  change (mk_ndarray (2 * i) xs) with (window_frames i (xs, bxs)) in H.
  change (mk_ndarray (S (2 * i)) bxs) with (window_boxes i (xs, bxs)) in H.
  change {| Rbfe.w_frames := window_frames i (xs, bxs);
            Rbfe.w_boxes := window_boxes i (xs, bxs);
            Rbfe.w_batch_U_fns := _ |}
    with (rbfe_window i st (xs, bxs)) in H.
  destruct (py_in (Z.of_nat i) keep);
    inv_bind H as [[dGs errs] plots] Hpair; injection H as <-;
    cbn [Rbfe.next_id Rbfe.stored_frames Rbfe.stored_boxes Rbfe.prev_window
         Rbfe.acc_dGs Rbfe.acc_errs]; rewrite ?app_nil_r;
    (split; [lia|]); do 3 (split; [reflexivity|]);
    (destruct (0 <? i)%nat;
     [ destruct (Rbfe.prev_window s) as [prev|]; [|discriminate];
       apply pair_bar_Ok in Hpair; destruct Hpair as (dG & err & Hest & -> & ->);
       exists prev, dG, err; auto
     | injection Hpair as <- <- _; split; reflexivity ]).
Qed.

Lemma rbfe_run_loop_Ok ists :
  forall (i : nat) s s',
    Rbfe.run_loop env p all_axes beta prefix keep U_names i ists s = Ok s' ->
    Rbfe.next_id s = (2 * i)%nat ->
    (i = 0%nat <-> Rbfe.prev_window s = None) ->
    exists trajs dGs errs,
      Forall2 (fun st tr => Rbfe.sample env st p = Ok tr) ists trajs /\
      Rbfe.stored_frames s'
      = Rbfe.stored_frames s ++
        map (fun p => window_frames (fst p) (snd p)) (kept_from keep i trajs) /\
      Rbfe.stored_boxes s'
      = Rbfe.stored_boxes s ++
        map (fun p => window_boxes (fst p) (snd p)) (kept_from keep i trajs) /\
      Rbfe.acc_dGs s' = Rbfe.acc_dGs s ++ dGs /\
      Rbfe.acc_errs s' = Rbfe.acc_errs s ++ errs /\
      pair_estimates_after beta (Rbfe.prev_window s)
        (rbfe_windows_from i ists trajs) dGs errs /\
      Rbfe.prev_window s'
      = match last (rbfe_windows_from i ists trajs) with
        | Some w => Some w
        | None => Rbfe.prev_window s
        end.
Proof.
  induction ists as [|st ists IH]; intros i s s' Hrun Hid Hprev.
  - cbn in Hrun. injection Hrun as <-. exists [], [], [].
    cbn [kept_from map rbfe_windows_from last]. rewrite !app_nil_r.
    split; [constructor|]. do 4 (split; [reflexivity|]).
    split; [|reflexivity].
    unfold pair_estimates_after. destruct (Rbfe.prev_window s); cbn; auto.
  - cbn [Rbfe.run_loop] in Hrun. inv_bind Hrun as s1 Hbody.
    apply rbfe_loop_body_Ok in Hbody; [|exact Hid].
    destruct Hbody as (tr & Hsample & Hid1 & Hsf1 & Hsb1 & Hprev1 & Hest).
    destruct (IH (S i) s1 s' Hrun Hid1) as
      (trajs & dGs & errs & Hall & Hsf & Hsb & HdG & Herr & Hpairs & Hlast).
    { rewrite Hprev1. split; [lia|discriminate]. }
    rewrite Hprev1 in Hpairs, Hlast. cbn [pair_estimates_after] in Hpairs.
    assert (Rbfe.prev_window s'
            = match last (rbfe_windows_from i (st :: ists) (tr :: trajs)) with
              | Some w => Some w
              | None => Rbfe.prev_window s
              end) as Hlast'.
    { cbn [rbfe_windows_from]. rewrite Hlast.
      destruct (rbfe_windows_from (S i) ists trajs) as [|w ws] eqn:Hws;
        [reflexivity|].
      rewrite (last_cons_cons (rbfe_window i st tr) w ws).
      destruct (last (w :: ws)) eqn:Hl; [reflexivity|].
      apply last_None in Hl. discriminate. }
    destruct (Nat.ltb_spec 0 i) as [Hi|Hi].
    + destruct Hest as (prev & dG & err & Hp & Hest & HdG1 & Herr1).
      exists (tr :: trajs), (dG :: dGs), (err :: errs).
      split; [constructor; assumption|].
      split.
      { rewrite Hsf, Hsf1. cbn [kept_from]. rewrite map_app, <- app_assoc.
        f_equal. destruct (py_in _ _); reflexivity. }
      split.
      { rewrite Hsb, Hsb1. cbn [kept_from]. rewrite map_app, <- app_assoc.
        f_equal. destruct (py_in _ _); reflexivity. }
      split; [rewrite HdG, HdG1, <- app_assoc; reflexivity|].
      split; [rewrite Herr, Herr1, <- app_assoc; reflexivity|].
      split; [|exact Hlast'].
      rewrite Hp. cbn [pair_estimates_after rbfe_windows_from pair_estimates].
      split; assumption.
    + destruct Hest as [HdG1 Herr1].
      assert (Rbfe.prev_window s = None) as Hnone by (apply Hprev; lia).
      exists (tr :: trajs), dGs, errs.
      split; [constructor; assumption|].
      split.
      { rewrite Hsf, Hsf1. cbn [kept_from]. rewrite map_app, <- app_assoc.
        f_equal. destruct (py_in _ _); reflexivity. }
      split.
      { rewrite Hsb, Hsb1. cbn [kept_from]. rewrite map_app, <- app_assoc.
        f_equal. destruct (py_in _ _); reflexivity. }
      split; [rewrite HdG, HdG1; reflexivity|].
      split; [rewrite Herr, Herr1; reflexivity|].
      split; [|exact Hlast'].
      rewrite Hnone. cbn [pair_estimates_after rbfe_windows_from].
      exact Hpairs.
Qed.

(** Where a pair of windows has been analysed, the axes form a grid. *)
Lemma pair_bar_axes (i : nat) prev cur s r :
  Rbfe.pair_bar all_axes beta prefix U_names i prev cur s = Ok r ->
  exists num_rows num_cols,
    all_axes = Rbfe.Axes2D num_rows num_cols /\ (i - 1 < num_rows)%nat.
Proof.
  unfold Rbfe.pair_bar. intros H.
  inv_bind H as [[plots' fwds] revs] Hloop. inv_bind H as u Hu.
  inv_bind H as [df df_err] Hbar. inv_bind H as axes_row Hrow.
  inv_bind H as plot_axis Haxis. destruct plot_axis.
  destruct (two_subscripts_Ok _ _ _ Hrow Haxis) as (nr & nc & -> & Hr & _).
  exists nr, nc. auto.
Qed.

Lemma rbfe_loop_body_axes (i : nat) st s s' :
  Rbfe.loop_body env p all_axes beta prefix keep U_names i st s = Ok s' ->
  (0 < i)%nat ->
  exists num_rows num_cols,
    all_axes = Rbfe.Axes2D num_rows num_cols /\ (i - 1 < num_rows)%nat.
Proof.
  unfold Rbfe.loop_body. intros H Hi.
  inv_bind H as [xs bxs] Hsample.
  apply Nat.ltb_lt in Hi.
  destruct (py_in (Z.of_nat i) keep);
    inv_bind H as [[dGs errs] plots] Hpair; rewrite Hi in Hpair;
    (destruct (Rbfe.prev_window s) as [prev|]; [|discriminate]);
    exact (pair_bar_axes _ _ _ _ _ Hpair).
Qed.

(** A loop that returns after a window other than the first has a grid of
    axes with a row for each of its pairs. *)
Lemma rbfe_run_loop_axes ists :
  forall (i : nat) s s',
    Rbfe.run_loop env p all_axes beta prefix keep U_names i ists s = Ok s' ->
    (1 < i + length ists)%nat ->
    ists <> [] ->
    exists num_rows num_cols,
      all_axes = Rbfe.Axes2D num_rows num_cols /\
      (i + length ists - 1 <= num_rows)%nat.
Proof.
  induction ists as [|st ists IH]; intros i s s' Hrun Hlen Hne;
    [contradiction|].
  cbn [Rbfe.run_loop] in Hrun. inv_bind Hrun as s1 Hbody.
  destruct ists as [|st' ists].
  - assert (0 < i)%nat as Hi by (cbn [length] in Hlen; lia).
    destruct (rbfe_loop_body_axes _ _ _ _ Hbody Hi) as (nr & nc & -> & Hr).
    exists nr, nc. split; [reflexivity|]. cbn [length]. lia.
  - destruct (IH (S i) s1 s' Hrun) as (nr & nc & -> & Hr);
      [cbn [length]; lia|discriminate|].
    exists nr, nc. split; [reflexivity|]. cbn [length] in *. lia.
Qed.
End RbfeLoop.

Section RetentionTheorems.
Context {E : Engine} {A : Analysis}.

Lemma window_frames_inj (i j : nat) (tr tr' : list (Coords E) * list (Box E)) :
  window_frames i tr = window_frames j tr' -> i = j.
Proof. unfold window_frames. intros [= H _]. lia. Qed.

Lemma stored_frames_kept (keep : list Z)
    (trajs : list (list (Coords E) * list (Box E))) (i : nat) tr :
  trajs !! i = Some tr ->
  (window_frames i tr
     ∈ map (fun p => window_frames (fst p) (snd p)) (kept_from keep 0 trajs)
   <-> py_in (Z.of_nat i) keep = true).
Proof.
  intros Htr. change (map ?f ?l) with (f <$> l). rewrite list_elem_of_fmap.
  split.
  - intros ([j tr'] & Heq & Hin). cbn [fst snd] in Heq.
    apply window_frames_inj in Heq. subst j.
    apply elem_of_kept_from in Hin. destruct Hin as (k & _ & _ & Hin).
    exact Hin.
  - intros Hin. exists (i, tr). split; [reflexivity|].
    apply elem_of_kept_from. exists i. auto.
Qed.

Lemma estimate_final_state_spec (env : Env E)
    (ists : list (Rbfe.InitialState E)) (p : Rbfe.SimulationProtocol) (T : R)
    (prefix : string) (keep : list Z) (s : Rbfe.LoopState E) :
  Rbfe.estimate_final_state env ists p T prefix keep = Ok s ->
  exists trajs,
    Forall2 (fun st tr => Rbfe.sample env st p = Ok tr) ists trajs /\
    ists <> [] /\
    Rbfe.stored_frames s
    = map (fun p => window_frames (fst p) (snd p)) (kept_from keep 0 trajs) /\
    Rbfe.stored_boxes s
    = map (fun p => window_boxes (fst p) (snd p)) (kept_from keep 0 trajs) /\
    pair_estimates_after (1 / (BOLTZ A * T))%R None
      (rbfe_windows_from 0 ists trajs) (Rbfe.acc_dGs s) (Rbfe.acc_errs s) /\
    Rbfe.prev_window s = last (rbfe_windows_from 0 ists trajs).
Proof.
  unfold Rbfe.estimate_final_state. intros H. inv_bind H as st0 Hst0.
  assert (ists <> []) as Hne by (intros ->; discriminate).
  inv_bind H as all_axes Haxes.
  apply rbfe_run_loop_Ok in H; [|reflexivity|split; reflexivity].
  destruct H as (trajs & dGs & errs & Hall & Hsf & Hsb & HdG & Herr & Hp & Hl).
  exists trajs. cbn in Hsf, Hsb, HdG, Herr. subst dGs errs.
  do 4 (split; [assumption|]). split; [exact Hp|].
  rewrite Hl. cbn [Rbfe.prev_window Rbfe.initial_loop_state].
  destruct ists as [|st ists]; [contradiction|].
  apply Forall2_cons_inv_l in Hall. destruct Hall as (tr & trajs' & _ & _ & ->).
  cbn [rbfe_windows_from].
  destruct (last (_ :: _)) eqn:Hlast; [reflexivity|].
  apply last_None in Hlast. discriminate.
Qed.

(** [plt.subplots] gives a grid of axes only for two rows or more. *)
Lemma plt_subplots_grid (num_rows num_cols nr nc : nat) :
  Rbfe.plt_subplots num_rows num_cols = Ok (Rbfe.Axes2D nr nc) ->
  (2 <= num_rows)%nat /\ (2 <= num_cols)%nat /\ nr = num_rows /\ nc = num_cols.
Proof.
  destruct num_rows as [|[|num_rows]], num_cols as [|[|num_cols]];
    cbn; try discriminate.
  intros [= <- <-]. repeat split; lia.
Qed.

(** The estimate returns only for three windows or more: with fewer, there
    is no grid of axes to take the subplots from. *)
Lemma estimate_final_state_three_windows (env : Env E)
    (ists : list (Rbfe.InitialState E)) (p : Rbfe.SimulationProtocol) (T : R)
    (prefix : string) (keep : list Z) (s : Rbfe.LoopState E) :
  Rbfe.estimate_final_state env ists p T prefix keep = Ok s ->
  (3 <= length ists)%nat.
Proof.
  unfold Rbfe.estimate_final_state. intros H. inv_bind H as st0 Hst0.
  inv_bind H as all_axes Haxes.
  destruct ists as [|stA [|stB ists]]; [discriminate|discriminate|].
  apply rbfe_run_loop_axes in H; [|cbn [length]; lia|discriminate].
  destruct H as (nr & nc & -> & _).
  apply plt_subplots_grid in Haxes. cbn [length] in *. lia.
Qed.

Lemma rbfe_last_window (ists : list (Rbfe.InitialState E)) :
  forall (trajs : list (list (Coords E) * list (Box E))) tr (i : nat),
    last trajs = Some tr -> length ists = length trajs ->
    exists w,
      last (rbfe_windows_from i ists trajs) = Some w /\
      Rbfe.w_frames w = window_frames (i + (length ists - 1)) tr /\
      Rbfe.w_boxes w = window_boxes (i + (length ists - 1)) tr.
Proof.
  induction ists as [|st ists IH]; intros trajs tr i Hlast Hlen.
  - destruct trajs; discriminate.
  - destruct trajs as [|tr0 trajs]; [discriminate|].
    cbn [rbfe_windows_from].
    destruct trajs as [|tr1 trajs].
    + destruct ists; [|discriminate]. cbn in Hlast. injection Hlast as ->.
      exists (rbfe_window i st tr). cbn. rewrite Nat.add_0_r.
      repeat split.
    + destruct ists as [|st1 ists]; [discriminate|].
      rewrite last_cons_cons in Hlast.
      destruct (IH (tr1 :: trajs) tr (S i) Hlast ltac:(cbn in *; lia))
        as (w & Hw & Hf & Hb).
      exists w. cbn [rbfe_windows_from] in Hw |- *.
      rewrite last_cons_cons. split; [exact Hw|].
      cbn [length] in *.
      replace (i + (S (S (length ists)) - 1))%nat
        with (S i + (S (length ists) - 1))%nat by lia.
      split; assumption.
Qed.
End RetentionTheorems.

(** C9 (as amended). A run of the runner that ends retains, in ladder order
    and once each, the trajectory and the boxes of the windows whose index is
    in [keep_idxs], and of no other window. What it retains are the array
    objects the sampler returned, not copies: the [EnergyDecomposedState] of
    the window (free_energy.py) or [prev_frames] and [prev_boxes] (rbfe.py)
    hold the same objects. *)
Theorem keep_idxs_retains_references {E : Engine} {A : Analysis} (env : Env E)
    (T : R) :
  (forall (ists : list (FE.InitialState E)) (md : FE.MDParams)
          (keep_idxs : option (list Z)) (s : FE.RunState E),
      FE.run_sequential_final_state env ists md T keep_idxs = Ok s ->
      exists trajs,
        Forall2 (fun st tr => FE.sample env st md None = Ok tr) ists trajs /\
        FE.stored_frames s
        = map (fun p => window_frames (fst p) (snd p))
            (kept_from (default [] keep_idxs) 0 trajs) /\
        FE.stored_boxes s
        = map (fun p => window_boxes (fst p) (snd p))
            (kept_from (default [] keep_idxs) 0 trajs) /\
        (forall (i : nat) tr,
            trajs !! i = Some tr ->
            (window_frames i tr ∈ FE.stored_frames s
             <-> py_in (Z.of_nat i) (default [] keep_idxs) = true)) /\
        (forall (i : nat) tr,
            trajs !! i = Some tr -> (length ists <= i + 2)%nat ->
            exists e,
              FE.tmp_states s !! i = Some (Some e) /\
              FE.eds_frames e = window_frames i tr /\
              FE.eds_boxes e = window_boxes i tr)) /\
  (forall (ists : list (Rbfe.InitialState E)) (p : Rbfe.SimulationProtocol)
          (prefix : string) (keep_idxs : list Z) (s : Rbfe.LoopState E),
      Rbfe.estimate_final_state env ists p T prefix keep_idxs = Ok s ->
      exists trajs,
        Forall2 (fun st tr => Rbfe.sample env st p = Ok tr) ists trajs /\
        Rbfe.stored_frames s
        = map (fun p => window_frames (fst p) (snd p))
            (kept_from keep_idxs 0 trajs) /\
        Rbfe.stored_boxes s
        = map (fun p => window_boxes (fst p) (snd p))
            (kept_from keep_idxs 0 trajs) /\
        (forall (i : nat) tr,
            trajs !! i = Some tr ->
            (window_frames i tr ∈ Rbfe.stored_frames s
             <-> py_in (Z.of_nat i) keep_idxs = true)) /\
        (forall tr,
            last trajs = Some tr ->
            exists w,
              Rbfe.prev_window s = Some w /\
              Rbfe.w_frames w = window_frames (length ists - 1) tr /\
              Rbfe.w_boxes w = window_boxes (length ists - 1) tr)).
Proof.
  split.
  - intros ists md keep_idxs s Hrun.
    apply run_sequential_final_state_spec in Hrun.
    destruct Hrun as (trajs & Hall & Hsf & Hsb & _ & Htmp).
    exists trajs. do 3 (split; [assumption|]). split.
    + intros i tr Htr. rewrite Hsf. apply stored_frames_kept. exact Htr.
    + intros i tr Htr Hi.
      destruct (Forall2_lookup_r _ _ _ _ _ Hall Htr) as (st & Hst & _).
      exists (eds_of T i st tr). split; [|split; reflexivity].
      apply Htmp; assumption.
  - intros ists p prefix keep_idxs s Hrun.
    apply estimate_final_state_spec in Hrun.
    destruct Hrun as (trajs & Hall & _ & Hsf & Hsb & _ & Hprev).
    exists trajs. do 3 (split; [assumption|]). split.
    + intros i tr Htr. rewrite Hsf. apply stored_frames_kept. exact Htr.
    + intros tr Hlast. rewrite Hprev.
      pose proof (Forall2_length _ _ _ Hall) as Hlen.
      exact (rbfe_last_window ists trajs tr 0 Hlast Hlen).
Qed.


Lemma keep_idxs_retains_references_witness :
  exists s,
    FE.run_sequential_final_state (E := toy_engine) (A := toy_analysis) 0%nat
      [toy_state 0; toy_state 1] toy_md_params 300%R
      (Some [0; 1]) = Ok s /\
    exists trajs,
      Forall2
        (fun st tr =>
           FE.sample (E := toy_engine) 0%nat st toy_md_params None = Ok tr)
        [toy_state 0; toy_state 1] trajs /\
      FE.stored_frames s
      = map (fun p => window_frames (fst p) (snd p)) (kept_from [0; 1] 0 trajs).
Proof.
  pose proof (proj1 (keep_idxs_retains_references (E := toy_engine)
                       (A := toy_analysis) 0%nat 300%R)
                [toy_state 0; toy_state 1] toy_md_params (Some [0; 1]))
    as Hfe.
  assert (returned
            (FE.run_sequential_final_state (E := toy_engine)
               (A := toy_analysis) 0%nat [toy_state 0; toy_state 1]
               toy_md_params 300%R (Some [0; 1])) = true) as Hret
    by (vm_compute; reflexivity).
  destruct (FE.run_sequential_final_state _ _ _ _ _) as [e|s] eqn:Hrun.
  - discriminate Hret.
  - exists s. split; [reflexivity|].
    destruct (Hfe s eq_refl) as (trajs & Hall & Hsf & _).
    exists trajs. split; [exact Hall|exact Hsf].
Defined.

(** C9 as it is stated does not hold: on a ladder of one window that is
    kept, the array retained in [stored_frames] is the very object held by
    the window's [EnergyDecomposedState], not a copy. *)
Lemma keep_idxs_copy_refuted :
  exists s,
    FE.run_sequential_final_state (E := toy_engine) (A := toy_analysis) 0%nat
      [toy_state 0] toy_md_params 300%R (Some [0]) = Ok s /\
    ~ stored_as_copies s.
Proof.
  assert (returned
            (FE.run_sequential_final_state (E := toy_engine)
               (A := toy_analysis) 0%nat [toy_state 0] toy_md_params 300%R
               (Some [0])) = true) as Hret by (vm_compute; reflexivity).
  destruct (FE.run_sequential_final_state _ _ _ _ _) as [e|s] eqn:Hrun;
    [discriminate Hret|].
  exists s. split; [reflexivity|].
  destruct (run_sequential_final_state_spec _ _ _ _ _ _ Hrun)
    as (trajs & Hall & Hsf & _ & _ & Htmp).
  apply Forall2_cons_inv_l in Hall.
  destruct Hall as (tr & trajs' & _ & Hnil & ->).
  apply Forall2_nil_inv_l in Hnil. subst trajs'.
  specialize (Htmp 0%nat (toy_state 0) tr eq_refl eq_refl ltac:(cbn; lia)).
  intros Hcopies.
  refine (Hcopies (window_frames 0 tr) (eds_of 300%R 0 (toy_state 0) tr)
            _ _ _).
  - rewrite Hsf. apply list_elem_of_here.
  - apply list_elem_of_lookup_2 in Htmp. exact Htmp.
  - reflexivity.
Qed.

(** ** [estimate_relative_free_energy] *)

Section Relative.
Context {E : Engine} {A : Analysis} {S : Rbfe.Setup E}.

Lemma setup_initial_states_length (st : Rbfe.Topology S) hc (T : R)
    (sched : list R) (seed : Z) ists :
  Rbfe.setup_initial_states st hc T sched seed = Ok ists ->
  length ists = length sched.
Proof.
  unfold Rbfe.setup_initial_states. intros H. inv_bind H as host Hhost.
  injection H as <-. apply length_imap.
Qed.

Lemma kept_from_default {B} (trajs : list B) :
  forall i : nat, (1 <= i)%nat -> kept_from [0; -1]%Z i trajs = [].
Proof.
  induction trajs as [|tr trajs IH]; intros i Hi; [reflexivity|].
  cbn [kept_from]. rewrite IH by lia.
  unfold py_in. cbn [existsb].
  destruct (Z.eqb_spec (Z.of_nat i) 0); [lia|].
  destruct (Z.eqb_spec (Z.of_nat i) (-1)); [lia|]. reflexivity.
Qed.

Lemma kept_from_default_cons {B} (tr : B) (trajs : list B) :
  kept_from [0; -1]%Z 0 (tr :: trajs) = [(0%nat, tr)].
Proof. cbn [kept_from]. rewrite kept_from_default by lia. reflexivity. Qed.

(** The call from the [try] block on: what precedes it has succeeded. *)
Lemma estimate_relative_free_energy_try (env : Env E) mol_a mol_b core ff hc
    (seed n_frames : Z) (prefix : string) (lambda_schedule : option (list R))
    (keep_idxs : option (list Z)) st ists (name_a name_b : string) :
  Rbfe.SingleTopologyV3 S mol_a mol_b core ff = Ok st ->
  (lambda_schedule <> None ->
   Rbfe.warnings_warn S Rbfe.lambda_schedule_warning = Ok tt) ->
  Rbfe.setup_initial_states st hc (DEFAULT_TEMP A)
    (default Rbfe.default_lambda_schedule lambda_schedule) seed = Ok ists ->
  (length (default [0; -1]%Z keep_idxs)
   <= length (default Rbfe.default_lambda_schedule lambda_schedule))%nat ->
  Rbfe.get_mol_name S mol_a = Ok name_a ->
  Rbfe.get_mol_name S mol_b = Ok name_b ->
  Rbfe.estimate_relative_free_energy env mol_a mol_b core ff hc seed n_frames
    prefix lambda_schedule keep_idxs
  = match
      Rbfe.estimate_free_energy_given_initial_states env ists
        {| Rbfe.n_frames := n_frames; Rbfe.burn_in := 10000;
           Rbfe.steps_per_frame := 1000 |}
        (DEFAULT_TEMP A)
        (name_a ++ "_" ++ name_b ++ "_" ++ prefix)%string
        (default [0; -1]%Z keep_idxs)
    with
    | inr result => inr result
    | inl old_exc =>
        inl (Rbfe.RaisedFrom
               {| Rbfe.exc_initial_states := ists;
                  Rbfe.exc_protocol :=
                    {| Rbfe.n_frames := n_frames; Rbfe.burn_in := 10000;
                       Rbfe.steps_per_frame := 1000 |};
                  Rbfe.exc_message :=
                    (name_a ++ "_" ++ name_b ++ "_" ++ prefix)%string |}
               old_exc)
    end.
Proof.
  intros Hst Hwarn Hists Hlen Ha Hb.
  unfold Rbfe.estimate_relative_free_energy.
  rewrite Hst. cbn [Rbfe.uncaught Ok].
  destruct lambda_schedule as [given|].
  - rewrite Hwarn by discriminate.
    change (default Rbfe.default_lambda_schedule (Some given)) with given in *.
    cbn [rbind Ok Rbfe.uncaught].
    rewrite Hists. cbn [Rbfe.uncaught Ok].
    apply Nat.leb_le in Hlen. rewrite Hlen. cbn [py_assert Rbfe.uncaught Ok].
    rewrite Ha. cbn [Rbfe.uncaught Ok]. rewrite Hb. reflexivity.
  - change (default Rbfe.default_lambda_schedule None)
      with Rbfe.default_lambda_schedule in *.
    cbn [rbind Ok Rbfe.uncaught].
    rewrite Hists. cbn [Rbfe.uncaught Ok].
    apply Nat.leb_le in Hlen. rewrite Hlen. cbn [py_assert Rbfe.uncaught Ok].
    rewrite Ha. cbn [Rbfe.uncaught Ok]. rewrite Hb. reflexivity.
Qed.

(** A call that returns has passed the steps before the [try]. *)
Lemma estimate_relative_free_energy_returns (env : Env E) mol_a mol_b core ff
    hc (seed n_frames : Z) (prefix : string) (lambda_schedule : option (list R))
    (keep_idxs : option (list Z)) r :
  Rbfe.estimate_relative_free_energy env mol_a mol_b core ff hc seed n_frames
    prefix lambda_schedule keep_idxs = inr r ->
  exists st ists name_a name_b,
    Rbfe.SingleTopologyV3 S mol_a mol_b core ff = Ok st /\
    Rbfe.setup_initial_states st hc (DEFAULT_TEMP A)
      (default Rbfe.default_lambda_schedule lambda_schedule) seed = Ok ists /\
    (length (default [0; -1]%Z keep_idxs)
     <= length (default Rbfe.default_lambda_schedule lambda_schedule))%nat /\
    Rbfe.get_mol_name S mol_a = Ok name_a /\
    Rbfe.get_mol_name S mol_b = Ok name_b /\
    Rbfe.estimate_free_energy_given_initial_states env ists
      {| Rbfe.n_frames := n_frames; Rbfe.burn_in := 10000;
         Rbfe.steps_per_frame := 1000 |}
      (DEFAULT_TEMP A)
      (name_a ++ "_" ++ name_b ++ "_" ++ prefix)%string
      (default [0; -1]%Z keep_idxs) = Ok r.
Proof.
  unfold Rbfe.estimate_relative_free_energy. intros H.
  destruct (Rbfe.SingleTopologyV3 S mol_a mol_b core ff) as [e|st] eqn:Hst;
    [discriminate|].
  cbn [Rbfe.uncaught] in H.
  assert (exists sched,
             match lambda_schedule with
             | Some given =>
                 let! _ := Rbfe.warnings_warn S Rbfe.lambda_schedule_warning in
                 Ok given
             | None => Ok Rbfe.default_lambda_schedule
             end = Ok sched /\
             sched = default Rbfe.default_lambda_schedule lambda_schedule)
    as (sched & Hsched & ->).
  { destruct lambda_schedule as [given|].
    - destruct (Rbfe.warnings_warn S Rbfe.lambda_schedule_warning) as [e|u];
        [discriminate|].
      exists given. split; reflexivity.
    - exists Rbfe.default_lambda_schedule. split; reflexivity. }
  rewrite Hsched in H. cbn [Rbfe.uncaught Ok] in H.
  destruct (Rbfe.setup_initial_states st hc _ _ seed) as [e|ists] eqn:Hists;
    [discriminate|].
  cbn [Rbfe.uncaught] in H.
  destruct (Nat.leb_spec (length (default [0; -1]%Z keep_idxs))
              (length (default Rbfe.default_lambda_schedule lambda_schedule)))
    as [Hlen|Hlen]; [|discriminate].
  cbn [py_assert Rbfe.uncaught Ok] in H.
  destruct (Rbfe.get_mol_name S mol_a) as [e|name_a] eqn:Ha; [discriminate|].
  cbn [Rbfe.uncaught] in H.
  destruct (Rbfe.get_mol_name S mol_b) as [e|name_b] eqn:Hb; [discriminate|].
  cbn [Rbfe.uncaught] in H.
  destruct (Rbfe.estimate_free_energy_given_initial_states _ _ _ _ _ _)
    as [e|r'] eqn:Hest; [discriminate|].
  injection H as ->. exists st, ists, name_a, name_b.
  split; [reflexivity|]. split; [exact Hists|]. split; [exact Hlen|].
  split; [reflexivity|]. split; [reflexivity|exact Hest].
Qed.
End Relative.

(** C8. Once the call has reached its [try] block (the statements before
    it have returned), an exception raised by
    [estimate_free_energy_given_initial_states] leaves
    [estimate_relative_free_energy] as one [SimulationException] that carries
    the list of initial states, the protocol and the combined prefix and is
    raised from the original exception; nothing passes through unwrapped, and
    the call returns a result only when the estimate returned it, every
    window having been sampled without an exception. *)
Theorem exception_context_wrapping {E : Engine} {A : Analysis}
    {S : Rbfe.Setup E} (env : Env E) (mol_a mol_b : Rbfe.Mol S)
    (core : Rbfe.Core S) (ff : Rbfe.Forcefield S) (hc : Rbfe.HostConfig)
    (seed n_frames : Z) (prefix : string) (lambda_schedule : option (list R))
    (keep_idxs : option (list Z)) (st : Rbfe.Topology S)
    (ists : list (Rbfe.InitialState E)) (name_a name_b : string) :
  let protocol :=
    {| Rbfe.n_frames := n_frames; Rbfe.burn_in := 10000;
       Rbfe.steps_per_frame := 1000 |} in
  let combined_prefix :=
    (name_a ++ "_" ++ name_b ++ "_" ++ prefix)%string in
  let call :=
    Rbfe.estimate_relative_free_energy env mol_a mol_b core ff hc seed
      n_frames prefix lambda_schedule keep_idxs in
  let estimate :=
    Rbfe.estimate_free_energy_given_initial_states env ists protocol
      (DEFAULT_TEMP A) combined_prefix (default [0; -1]%Z keep_idxs) in
  Rbfe.SingleTopologyV3 S mol_a mol_b core ff = Ok st ->
  (lambda_schedule <> None ->
   Rbfe.warnings_warn S Rbfe.lambda_schedule_warning = Ok tt) ->
  Rbfe.setup_initial_states st hc (DEFAULT_TEMP A)
    (default Rbfe.default_lambda_schedule lambda_schedule) seed = Ok ists ->
  (length (default [0; -1]%Z keep_idxs)
   <= length (default Rbfe.default_lambda_schedule lambda_schedule))%nat ->
  Rbfe.get_mol_name S mol_a = Ok name_a ->
  Rbfe.get_mol_name S mol_b = Ok name_b ->
  (forall old_exc,
      estimate = Raise old_exc ->
      call = inl (Rbfe.RaisedFrom
                    {| Rbfe.exc_initial_states := ists;
                       Rbfe.exc_protocol := protocol;
                       Rbfe.exc_message := combined_prefix |} old_exc)) /\
  (forall e, call <> inl (Rbfe.Uncaught e)) /\
  (forall r,
      call = inr r ->
      estimate = Ok r /\
      exists trajs,
        Forall2 (fun st tr => Rbfe.sample env st protocol = Ok tr) ists trajs).
Proof.
  intros protocol combined_prefix call estimate Hst Hwarn Hists Hlen Ha Hb.
  assert (call = match estimate with
                 | inr result => inr result
                 | inl old_exc =>
                     inl (Rbfe.RaisedFrom
                            {| Rbfe.exc_initial_states := ists;
                               Rbfe.exc_protocol := protocol;
                               Rbfe.exc_message := combined_prefix |} old_exc)
                 end) as Hcall.
  { apply (estimate_relative_free_energy_try env mol_a mol_b core ff hc seed
             n_frames prefix lambda_schedule keep_idxs st ists name_a name_b
             Hst Hwarn Hists Hlen Ha Hb). }
  split; [|split].
  - intros old_exc Hraise. rewrite Hcall, Hraise. reflexivity.
  - intros e. rewrite Hcall. destruct estimate; discriminate.
  - intros r Hr. rewrite Hcall in Hr.
    destruct estimate as [e|r'] eqn:Hest; [discriminate|].
    injection Hr as ->. split; [reflexivity|].
    unfold estimate, Rbfe.estimate_free_energy_given_initial_states in Hest.
    inv_bind Hest as s Hs.
    apply estimate_final_state_spec in Hs.
    destruct Hs as (trajs & Hall & _). exists trajs. exact Hall.
Qed.

Lemma exception_context_wrapping_witness :
  Rbfe.estimate_relative_free_energy (E := toy_engine) (A := toy_analysis)
    (S := toy_setup) 0%nat "a"%string "b"%string tt tt toy_host_config 2023
    (-1) "leg"%string (Some [0; 1]%R) None
  = inl (Rbfe.RaisedFrom
           {| Rbfe.exc_initial_states :=
                [toy_rbfe_state_at 0 4 0%R 2023; toy_rbfe_state_at 0 4 1%R 2024];
              Rbfe.exc_protocol :=
                {| Rbfe.n_frames := -1; Rbfe.burn_in := 10000;
                   Rbfe.steps_per_frame := 1000 |};
              Rbfe.exc_message := "a_b_leg"%string |}
           (AssertionError no_message)).
Proof.
  apply (proj1 (exception_context_wrapping (E := toy_engine)
                  (A := toy_analysis) (S := toy_setup) 0%nat "a"%string
                  "b"%string tt tt toy_host_config 2023 (-1) "leg"%string
                  (Some [0; 1]%R) None tt
                  [toy_rbfe_state_at 0 4 0%R 2023; toy_rbfe_state_at 0 4 1%R 2024]
                  "a"%string "b"%string
                  eq_refl (fun _ => eq_refl) eq_refl ltac:(cbn; lia) eq_refl
                  eq_refl)).
  vm_compute. reflexivity.
Defined.

(** C10. A call of [estimate_relative_free_energy] with [keep_idxs=None]
    that returns ran on a ladder of at least three windows (with two, the
    subplot of the pair cannot be taken from the axes and the call raises),
    and its result retains the frames and boxes of window 0 and of no other
    window: the entry [-1] of the default [[0, -1]] never equals a window
    index, so the lists of frames and of boxes have one entry, not two. *)
Theorem default_keep_idxs_keeps_first_window_only {E : Engine} {A : Analysis}
    {S : Rbfe.Setup E} (env : Env E) (mol_a mol_b : Rbfe.Mol S)
    (core : Rbfe.Core S) (ff : Rbfe.Forcefield S) (hc : Rbfe.HostConfig)
    (seed n_frames : Z) (prefix : string) (lambda_schedule : option (list R))
    (r : Rbfe.SimulationResult E) :
  Rbfe.estimate_relative_free_energy env mol_a mol_b core ff hc seed n_frames
    prefix lambda_schedule None = inr r ->
  (3 <= length (Rbfe.initial_states r))%nat /\
  (exists st0 tr0,
      Rbfe.initial_states r !! 0%nat = Some st0 /\
      Rbfe.sample env st0 (Rbfe.protocol r) = Ok tr0 /\
      Rbfe.frames r = [window_frames 0 tr0] /\
      Rbfe.boxes r = [window_boxes 0 tr0]) /\
  length (Rbfe.frames r) = 1%nat /\
  (forall (i : nat) tr, (1 <= i)%nat -> window_frames i tr ∉ Rbfe.frames r).
Proof.
  intros Hcall. apply estimate_relative_free_energy_returns in Hcall.
  destruct Hcall as (st & ists & name_a & name_b & _ & _ & _ & _ & _ & Hest).
  unfold Rbfe.estimate_free_energy_given_initial_states in Hest.
  inv_bind Hest as s Hs. injection Hest as <-.
  cbn [Rbfe.initial_states Rbfe.protocol Rbfe.frames Rbfe.boxes].
  pose proof (estimate_final_state_three_windows _ _ _ _ _ _ _ Hs) as Hlen.
  apply estimate_final_state_spec in Hs.
  destruct Hs as (trajs & Hall & _ & Hsf & Hsb & _).
  destruct ists as [|st0 ists]; [cbn [length] in Hlen; lia|].
  apply Forall2_cons_inv_l in Hall.
  destruct Hall as (tr0 & trajs' & Hs0 & _ & ->).
  rewrite kept_from_default_cons in Hsf, Hsb.
  cbn [map fst snd] in Hsf, Hsb.
  split; [exact Hlen|]. split; [|split].
  - exists st0, tr0. split; [reflexivity|]. split; [exact Hs0|].
    split; assumption.
  - rewrite Hsf. reflexivity.
  - intros i tr Hi Hin. rewrite Hsf in Hin.
    apply list_elem_of_singleton in Hin.
    apply window_frames_inj in Hin. lia.
Qed.

Lemma default_keep_idxs_keeps_first_window_only_witness :
  exists r,
    Rbfe.estimate_relative_free_energy (E := toy_engine) (A := toy_analysis)
      (S := toy_setup) 0%nat "a"%string "b"%string tt tt toy_host_config 2023
      1 "leg"%string (Some [0; 0.5; 1]%R) None = inr r /\
    length (Rbfe.initial_states r) = 3%nat /\
    length (Rbfe.frames r) = 1%nat /\
    Rbfe.frames r = [window_frames (E := toy_engine) 0 ([Some 0], [4])].
Proof.
  assert (returned
            (Rbfe.estimate_relative_free_energy (E := toy_engine)
               (A := toy_analysis) (S := toy_setup) 0%nat "a"%string
               "b"%string tt tt toy_host_config 2023 1 "leg"%string
               (Some [0; 0.5; 1]%R) None) = true) as Hret
    by (vm_compute; reflexivity).
  destruct (Rbfe.estimate_relative_free_energy _ _ _ _ _ _ _ _ _ _ _)
    as [e|r] eqn:Hcall; [discriminate Hret|].
  exists r. split; [reflexivity|].
  destruct (default_keep_idxs_keeps_first_window_only (E := toy_engine)
              (A := toy_analysis) (S := toy_setup) 0%nat "a"%string
              "b"%string tt tt toy_host_config 2023 1 "leg"%string
              (Some [0; 0.5; 1]%R) r Hcall)
    as (_ & (st0 & tr0 & Hst0 & Htr0 & Hframes & _) & Hone & _).
  apply estimate_relative_free_energy_returns in Hcall.
  destruct Hcall as (st & ists & name_a & name_b & _ & Hists & _ & _ & _ & Hest).
  unfold Rbfe.estimate_free_energy_given_initial_states in Hest.
  inv_bind Hest as s Hs. injection Hest as <-.
  cbn [Rbfe.initial_states Rbfe.protocol] in *.
  split; [exact (setup_initial_states_length _ _ _ _ _ _ Hists)|].
  split; [exact Hone|].
  rewrite Hframes. do 2 f_equal.
  injection Hists as <-. cbn in Hst0. injection Hst0 as <-.
  vm_compute in Htr0. injection Htr0 as <-. reflexivity.
Defined.

(** On a ladder of two windows [plt.subplots(1, 3)] gives a
    one-dimensional array of axes, the subscript [all_axes[0][0]] fails and
    the call raises a [SimulationException] from a [TypeError]. *)
Example two_window_ladder_raises :
  Rbfe.estimate_relative_free_energy (E := toy_engine) (A := toy_analysis)
    (S := toy_setup) 0%nat "a"%string "b"%string tt tt toy_host_config 2023 1
    "leg"%string (Some [0; 1]%R) None
  = inl (Rbfe.RaisedFrom
           {| Rbfe.exc_initial_states :=
                [toy_rbfe_state_at 0 4 0%R 2023; toy_rbfe_state_at 0 4 1%R 2024];
              Rbfe.exc_protocol :=
                {| Rbfe.n_frames := 1; Rbfe.burn_in := 10000;
                   Rbfe.steps_per_frame := 1000 |};
              Rbfe.exc_message := "a_b_leg"%string |}
           TypeError).
Proof. vm_compute. reflexivity. Qed.

(** ** The reported free-energy differences *)

Section Reported.
Context {E : Engine} {A : Analysis}.

Lemma pair_bar_loop_Ok (beta : R) (T : nat) (us : list (list ukln)) :
  forall dGs errs dGs' errs',
    FE.pair_bar_loop beta T us dGs errs = Ok (dGs', errs') ->
    exists dGa erra,
      dGs' = dGs ++ dGa /\ errs' = errs ++ erra /\
      u_kln_estimates beta T us dGa erra.
Proof.
  induction us as [|u us IH]; intros dGs errs dGs' errs' H.
  - cbn in H. injection H as <- <-. exists [], [].
    rewrite !app_nil_r. repeat split.
  - cbn [FE.pair_bar_loop] in H. inv_bind H as [df df_err] Hbar.
    apply IH in H. destruct H as (dGa & erra & -> & -> & Hrest).
    exists ((df / beta)%R :: dGa), ((df_err / beta)%R :: erra).
    rewrite <- !app_assoc. split; [reflexivity|]. split; [reflexivity|].
    cbn. split; [|exact Hrest].
    exists df, df_err. split; [exact Hbar|]. split; reflexivity.
Qed.
End Reported.

(** ** Sums of arrays of energies *)

Section ArrayFacts.
Local Open Scope R_scope.

Lemma vadd_map {Y} (f g : Y -> R) (l : list Y) :
  vadd (map f l) (map g l) = map (fun y => f y + g y) l.
Proof. induction l as [|y l IH]; cbn; [reflexivity|]. f_equal. exact IH. Qed.

Lemma vsub_map {Y} (f g : Y -> R) (l : list Y) :
  vsub (map f l) (map g l) = map (fun y => f y - g y) l.
Proof. induction l as [|y l IH]; cbn; [reflexivity|]. f_equal. exact IH. Qed.

Lemma vscale_map {Y} (a : R) (f : Y -> R) (l : list Y) :
  vscale a (map f l) = map (fun y => a * f y) l.
Proof. unfold vscale. apply map_map. Qed.

Lemma vzeros_map {Y} (l : list Y) :
  vzeros (length l) = map (fun _ => 0) l.
Proof. induction l as [|y l IH]; cbn; [reflexivity|]. f_equal. exact IH. Qed.

Lemma fold_left_vadd_map {X Y} (cs : list X) (l : list Y) (h : X -> Y -> R) :
  forall h0 : Y -> R,
    fold_left vadd (map (fun c => map (h c) l) cs) (map h0 l)
    = map (fun y => fold_left Rplus (map (fun c => h c y) cs) (h0 y)) l.
Proof.
  induction cs as [|c cs IH]; intros h0; cbn [map fold_left]; [reflexivity|].
  rewrite vadd_map. apply (IH (fun y => h0 y + h c y)).
Qed.

Lemma fold_left_tadd {X} (ps : list X) (g00 g01 g10 g11 : X -> vec) :
  forall a b c d : vec,
    fold_left tadd
      (map (fun p => [[g00 p; g01 p]; [g10 p; g11 p]]) ps) [[a; b]; [c; d]]
    = [[fold_left vadd (map g00 ps) a; fold_left vadd (map g01 ps) b];
       [fold_left vadd (map g10 ps) c; fold_left vadd (map g11 ps) d]].
Proof.
  induction ps as [|p ps IH]; intros a b c d; cbn [map fold_left];
    [reflexivity|].
  cbn [tadd zip_with]. apply IH.
Qed.

Lemma fold_left_Rplus_scale {X} (beta : R) (f : X -> R) (cs : list X) :
  forall a : R,
    fold_left Rplus (map (fun c => beta * f c) cs) (beta * a)
    = beta * fold_left Rplus (map f cs) a.
Proof.
  induction cs as [|c cs IH]; intros a; cbn [map fold_left]; [reflexivity|].
  rewrite <- IH. f_equal. ring.
Qed.

Lemma fold_left_Rplus_scale_sub {X} (beta : R) (f g : X -> R) (cs : list X) :
  forall a b : R,
    fold_left Rplus (map (fun c => beta * (f c - g c)) cs) (beta * (a - b))
    = beta * (fold_left Rplus (map f cs) a - fold_left Rplus (map g cs) b).
Proof.
  induction cs as [|c cs IH]; intros a b; cbn [map fold_left]; [reflexivity|].
  rewrite <- IH. f_equal. ring.
Qed.

Lemma zip_with_map_map {X X' Y Y' Z} (G : Y -> Y' -> Z) (F : X -> Y)
    (F' : X' -> Y') (la : list X) :
  forall lb : list X',
    zip_with G (map F la) (map F' lb)
    = map (fun p => G (F (fst p)) (F' (snd p))) (zip la lb).
Proof.
  induction la as [|a la IH]; intros [|b lb]; cbn; try reflexivity.
  f_equal. apply IH.
Qed.

Lemma map_fst_zip {X X' Y} (f : X -> Y) (la : list X) :
  forall lb : list X',
    length la = length lb ->
    map (fun p => f (fst p)) (zip la lb) = map f la.
Proof.
  induction la as [|a la IH]; intros [|b lb] Hlen; cbn in *;
    try reflexivity; try discriminate.
  f_equal. apply IH. lia.
Qed.

Lemma map_snd_zip {X X' Y} (f : X' -> Y) (la : list X) :
  forall lb : list X',
    length la = length lb ->
    map (fun p => f (snd p)) (zip la lb) = map f lb.
Proof.
  induction la as [|a la IH]; intros [|b lb] Hlen; cbn in *;
    try reflexivity; try discriminate.
  f_equal. apply IH. lia.
Qed.
End ArrayFacts.

(** ** The reduced works of a pair of windows *)

Section ReducedWorks.
Context {E : Engine} {A : Analysis}.
Local Open Scope R_scope.

Lemma FE_reduced_works (temperature : R) (i j : nat)
    (stA stB : FE.InitialState E) (trA trB : list (Coords E) * list (Box E))
    (T : nat) :
  length (FE.potentials stA) = length (FE.potentials stB) ->
  length (zip (fst trA) (snd trA)) = T ->
  length (zip (fst trB) (snd trB)) = T ->
  let u_kln :=
    sum0 T (FE.pair_u_kln (eds_of temperature i stA trA)
              (eds_of temperature j stB trB)) in
  let beta := 1 / (BOLTZ A * temperature) in
  let U_A := total_energy (map (bound_impl E) (FE.potentials stA)) in
  let U_B := total_energy (map (bound_impl E) (FE.potentials stB)) in
  FE.w_fwd u_kln
  = map (fun xb => beta * (U_B xb - U_A xb)) (zip (fst trA) (snd trA)) /\
  FE.w_rev u_kln
  = map (fun xb => beta * (U_A xb - U_B xb)) (zip (fst trB) (snd trB)).
Proof.
  intros Hpot HTA HTB u_kln beta U_A U_B.
  set (bpsA := map (bound_impl E) (FE.potentials stA)) in *.
  set (bpsB := map (bound_impl E) (FE.potentials stB)) in *.
  assert (length bpsA = length bpsB) as Hbps
    by (unfold bpsA, bpsB; rewrite !length_map; exact Hpot).
  set (lA := zip (fst trA) (snd trA)) in *.
  set (lB := zip (fst trB) (snd trB)) in *.
  set (e := fun (bp : BoundImpl E) (xb : Coords E * Box E) =>
              beta * execute E bp (fst xb) (snd xb)).
  assert (u_kln
          = [[fold_left vadd (map (fun p => map (e (fst p)) lA) (zip bpsA bpsB))
                (vzeros T);
              fold_left vadd (map (fun p => map (e (fst p)) lB) (zip bpsA bpsB))
                (vzeros T)];
             [fold_left vadd (map (fun p => map (e (snd p)) lA) (zip bpsA bpsB))
                (vzeros T);
              fold_left vadd (map (fun p => map (e (snd p)) lB) (zip bpsA bpsB))
                (vzeros T)]]) as ->.
  { unfold u_kln, sum0, FE.pair_u_kln, eds_of, FE.get_batch_u_fns.
    cbn [FE.eds_batch_u_fns]. fold bpsA bpsB.
    rewrite zip_with_map_map.
    exact (fold_left_tadd (zip bpsA bpsB)
             (fun p => map (e (fst p)) lA) (fun p => map (e (fst p)) lB)
             (fun p => map (e (snd p)) lA) (fun p => map (e (snd p)) lB)
             (vzeros T) (vzeros T) (vzeros T) (vzeros T)). }
  assert (forall (sel : BoundImpl E * BoundImpl E -> BoundImpl E)
                 (l : list (Coords E * Box E)),
             length l = T ->
             fold_left vadd (map (fun p => map (e (sel p)) l) (zip bpsA bpsB))
               (vzeros T)
             = map (fun xb =>
                      beta * fold_left Rplus
                               (map (fun p => execute E (sel p) (fst xb) (snd xb))
                                  (zip bpsA bpsB)) 0) l) as Hsum.
  { intros sel l <-. rewrite vzeros_map.
    rewrite (fold_left_vadd_map (zip bpsA bpsB) l (fun p => e (sel p))
               (fun _ => 0)).
    apply map_ext. intros xb. unfold e.
    rewrite <- (fold_left_Rplus_scale beta
                  (fun p => execute E (sel p) (fst xb) (snd xb))).
    f_equal. ring. }
  unfold FE.w_fwd, FE.w_rev, idx2. cbn [lookup_total list_lookup_total].
  rewrite !Hsum by assumption. rewrite !vsub_map.
  unfold U_A, U_B, total_energy.
  split; apply map_ext; intros xb;
    rewrite (map_fst_zip (fun bp => execute E bp (fst xb) (snd xb)) bpsA bpsB Hbps),
            (map_snd_zip (fun bp => execute E bp (fst xb) (snd xb)) bpsA bpsB Hbps);
    ring.
Qed.

Lemma Rbfe_reduced_works (beta : R) (i j : nat)
    (stA stB : Rbfe.InitialState E) (trA trB : list (Coords E) * list (Box E)) :
  length (Rbfe.potentials stA) = length (Rbfe.potentials stB) ->
  let U_A :=
    total_energy_lamb (map (bound_impl E) (Rbfe.potentials stA))
      (Rbfe.lamb stA) in
  let U_B :=
    total_energy_lamb (map (bound_impl E) (Rbfe.potentials stB))
      (Rbfe.lamb stB) in
  summed_fwd_works beta (rbfe_window i stA trA) (rbfe_window j stB trB)
  = map (fun xb => beta * (U_B xb - U_A xb)) (zip (fst trA) (snd trA)) /\
  summed_rev_works beta (rbfe_window i stA trA) (rbfe_window j stB trB)
  = map (fun xb => beta * (U_A xb - U_B xb)) (zip (fst trB) (snd trB)).
Proof.
  intros Hpot U_A U_B.
  set (bpsA := map (bound_impl E) (Rbfe.potentials stA)) in *.
  set (bpsB := map (bound_impl E) (Rbfe.potentials stB)) in *.
  assert (length bpsA = length bpsB) as Hbps
    by (unfold bpsA, bpsB; rewrite !length_map; exact Hpot).
  set (eA := fun (bp : BoundImpl E) (xb : Coords E * Box E) =>
               execute_lamb E bp (fst xb) (snd xb) (Rbfe.lamb stA)).
  set (eB := fun (bp : BoundImpl E) (xb : Coords E * Box E) =>
               execute_lamb E bp (fst xb) (snd xb) (Rbfe.lamb stB)).
  unfold summed_fwd_works, summed_rev_works, vsum0, rbfe_window,
    Rbfe.fwd_delta_u, Rbfe.rev_delta_u, Rbfe.get_batch_U_fns.
  cbn [Rbfe.w_frames Rbfe.w_boxes Rbfe.w_batch_U_fns window_frames
       window_boxes data].
  fold bpsA bpsB.
  set (lA := zip (fst trA) (snd trA)).
  set (lB := zip (fst trB) (snd trB)).
  change (zip (map ?F bpsA) (map ?F' bpsB))
    with (zip_with pair (map F bpsA) (map F' bpsB)).
  rewrite zip_with_map_map, !map_map. cbn [fst snd].
  rewrite !vzeros_map.
  split.
  - erewrite (map_ext _ (fun p => map (fun xb => beta * (eB (snd p) xb - eA (fst p) xb)) lA)).
    2:{ intros p. rewrite vsub_map, vscale_map. reflexivity. }
    rewrite (fold_left_vadd_map (zip bpsA bpsB) lA
               (fun p xb => beta * (eB (snd p) xb - eA (fst p) xb))
               (fun _ => 0)).
    apply map_ext. intros xb.
    replace 0 with (beta * (0 - 0)) at 1 by ring.
    rewrite (fold_left_Rplus_scale_sub beta (fun p => eB (snd p) xb)
               (fun p => eA (fst p) xb)).
    rewrite (map_fst_zip (fun bp => eA bp xb) bpsA bpsB Hbps),
            (map_snd_zip (fun bp => eB bp xb) bpsA bpsB Hbps).
    reflexivity.
  - erewrite (map_ext _ (fun p => map (fun xb => beta * (eA (fst p) xb - eB (snd p) xb)) lB)).
    2:{ intros p. rewrite vsub_map, vscale_map. reflexivity. }
    rewrite (fold_left_vadd_map (zip bpsA bpsB) lB
               (fun p xb => beta * (eA (fst p) xb - eB (snd p) xb))
               (fun _ => 0)).
    apply map_ext. intros xb.
    replace 0 with (beta * (0 - 0)) at 1 by ring.
    rewrite (fold_left_Rplus_scale_sub beta (fun p => eA (fst p) xb)
               (fun p => eB (snd p) xb)).
    rewrite (map_fst_zip (fun bp => eA bp xb) bpsA bpsB Hbps),
            (map_snd_zip (fun bp => eB bp xb) bpsA bpsB Hbps).
    reflexivity.
Qed.
End ReducedWorks.

(** C4. For a pair of windows A (previous) and B (current) with as many
    energy terms each, the forward works are beta (U_B(x) - U_A(x)) over the
    frames x sampled at A and the reverse works beta (U_A(x) - U_B(x)) over
    the frames sampled at B: in free_energy.py as [u_kln[1, 0] - u_kln[0, 0]]
    and [u_kln[0, 1] - u_kln[1, 1]] of the component-summed array, in rbfe.py
    as the sum over the terms of the per-term works. U is the sum of the
    energy terms of a window. *)
Theorem reduced_work_construction {E : Engine} {A : Analysis} (env : Env E)
    (temperature : R) (i j : nat) :
  (forall (md : FE.MDParams) (stA stB : FE.InitialState E) trA trB,
      FE.sample env stA md None = Ok trA ->
      FE.sample env stB md None = Ok trB ->
      length (FE.potentials stA) = length (FE.potentials stB) ->
      let u_kln :=
        sum0 (Z.to_nat (FE.n_frames md))
          (FE.pair_u_kln (eds_of temperature i stA trA)
             (eds_of temperature j stB trB)) in
      let beta := (1 / (BOLTZ A * temperature))%R in
      let U_A := total_energy (map (bound_impl E) (FE.potentials stA)) in
      let U_B := total_energy (map (bound_impl E) (FE.potentials stB)) in
      FE.w_fwd u_kln
      = map (fun xb => (beta * (U_B xb - U_A xb))%R) (zip (fst trA) (snd trA)) /\
      FE.w_rev u_kln
      = map (fun xb => (beta * (U_A xb - U_B xb))%R) (zip (fst trB) (snd trB))) /\
  (forall (beta : R) (stA stB : Rbfe.InitialState E)
          (trA trB : list (Coords E) * list (Box E)),
      length (Rbfe.potentials stA) = length (Rbfe.potentials stB) ->
      let U_A :=
        total_energy_lamb (map (bound_impl E) (Rbfe.potentials stA))
          (Rbfe.lamb stA) in
      let U_B :=
        total_energy_lamb (map (bound_impl E) (Rbfe.potentials stB))
          (Rbfe.lamb stB) in
      summed_fwd_works beta (rbfe_window i stA trA) (rbfe_window j stB trB)
      = map (fun xb => (beta * (U_B xb - U_A xb))%R) (zip (fst trA) (snd trA)) /\
      summed_rev_works beta (rbfe_window i stA trA) (rbfe_window j stB trB)
      = map (fun xb => (beta * (U_A xb - U_B xb))%R) (zip (fst trB) (snd trB))).
Proof.
  split.
  - intros md stA stB [xsA bxsA] [xsB bxsB] HA HB Hpot.
    apply FE_sample_postcondition in HA, HB.
    destruct HA as [HxA HbA], HB as [HxB HbB].
    apply FE_reduced_works; [exact Hpot| |]; cbn [fst snd];
      rewrite length_zip; lia.
  - intros beta stA stB trA trB Hpot. apply Rbfe_reduced_works. exact Hpot.
Qed.

Lemma reduced_work_construction_witness :
  FE.w_fwd
    (sum0 (Z.to_nat (FE.n_frames toy_md_params))
       (FE.pair_u_kln
          (eds_of (E := toy_engine) (A := toy_analysis) 300%R 0
             (toy_state_with [1; 2] 0) ([Some 4; Some 6; Some 8], [4; 4; 4]))
          (eds_of (E := toy_engine) (A := toy_analysis) 300%R 1
             (toy_state_with [3; 5] 1) ([Some 5; Some 7; Some 9], [4; 4; 4]))))
  = [1 / (1 * 300) * 20; 1 / (1 * 300) * 30; 1 / (1 * 300) * 40]%R /\
  FE.w_rev
    (sum0 (Z.to_nat (FE.n_frames toy_md_params))
       (FE.pair_u_kln
          (eds_of (E := toy_engine) (A := toy_analysis) 300%R 0
             (toy_state_with [1; 2] 0) ([Some 4; Some 6; Some 8], [4; 4; 4]))
          (eds_of (E := toy_engine) (A := toy_analysis) 300%R 1
             (toy_state_with [3; 5] 1) ([Some 5; Some 7; Some 9], [4; 4; 4]))))
  = [1 / (1 * 300) * -25; 1 / (1 * 300) * -35; 1 / (1 * 300) * -45]%R /\
  summed_fwd_works (E := toy_engine) 2%R
    (rbfe_window 0 (toy_rbfe_state_with [1; 2] 0 0%R)
       ([Some 4; Some 6; Some 8], [4; 4; 4]))
    (rbfe_window 1 (toy_rbfe_state_with [3; 5] 1 1%R)
       ([Some 5; Some 7; Some 9], [4; 4; 4]))
  = [2 * 20; 2 * 30; 2 * 40]%R /\
  summed_rev_works (E := toy_engine) 2%R
    (rbfe_window 0 (toy_rbfe_state_with [1; 2] 0 0%R)
       ([Some 4; Some 6; Some 8], [4; 4; 4]))
    (rbfe_window 1 (toy_rbfe_state_with [3; 5] 1 1%R)
       ([Some 5; Some 7; Some 9], [4; 4; 4]))
  = [2 * -25; 2 * -35; 2 * -45]%R.
Proof.
  pose proof (reduced_work_construction (E := toy_engine) (A := toy_analysis)
              0%nat 300%R 0 1) as Hthm.
  destruct (proj1 Hthm toy_md_params (toy_state_with [1; 2] 0)
              (toy_state_with [3; 5] 1) ([Some 4; Some 6; Some 8], [4; 4; 4])
              ([Some 5; Some 7; Some 9], [4; 4; 4]) eq_refl eq_refl eq_refl)
    as [Hfwd Hrev].
  destruct (proj2 Hthm 2%R (toy_rbfe_state_with [1; 2] 0 0%R)
              (toy_rbfe_state_with [3; 5] 1 1%R)
              ([Some 4; Some 6; Some 8], [4; 4; 4])
              ([Some 5; Some 7; Some 9], [4; 4; 4]) eq_refl)
    as [Hfwd' Hrev'].
  clear Hthm. rewrite Hfwd, Hrev, Hfwd', Hrev'. clear.
  unfold total_energy, total_energy_lamb.
  cbn [map zip zip_with fst snd fold_left FE.potentials Rbfe.potentials Rbfe.lamb
       toy_state_with toy_rbfe_state_with bound_impl execute execute_lamb
       toy_engine toy_energy].
  change (BOLTZ toy_analysis) with 1%R.
  repeat split; repeat f_equal; rewrite !mult_IZR; lra.
Defined.

(** ** The reported values and the works of the total energies *)

Section ReportedTotals.
Context {E : Engine} {A : Analysis}.
Variable env : Env E.

(** The estimates of the successive arrays of free_energy.py, pair by
    pair, on the works of the total energies. *)
Lemma FE_adjacent_estimates (temperature : R) (md : FE.MDParams)
    (ists : list (FE.InitialState E)) :
  forall trajs stP trP (k : nat) dGs errs,
    FE.sample env stP md None = Ok trP ->
    Forall2 (fun st tr => FE.sample env st md None = Ok tr) ists trajs ->
    u_kln_estimates (1 / (BOLTZ A * temperature))%R
      (Z.to_nat (FE.n_frames md))
      (adjacent_u_klns (eds_of temperature k stP trP)
         (windows_from temperature (S k) ists trajs)) dGs errs ->
    length dGs = length ists /\ length errs = length ists /\
    forall (i : nat) stA stB,
      (stP :: ists) !! i = Some stA -> (stP :: ists) !! S i = Some stB ->
      length (FE.potentials stA) = length (FE.potentials stB) ->
      exists trA trB dG err,
        FE.sample env stA md None = Ok trA /\
        FE.sample env stB md None = Ok trB /\
        dGs !! i = Some dG /\ errs !! i = Some err /\
        total_work_estimate (bar_with_bootstrapped_uncertainty A)
          (1 / (BOLTZ A * temperature))%R
          (FE_total_energy stA) (FE_total_energy stB) trA trB dG err.
Proof.
  induction ists as [|st ists IH]; intros trajs stP trP k dGs errs HP Hall Hest.
  - apply Forall2_nil_inv_l in Hall. subst trajs. cbn in Hest.
    destruct dGs, errs; try contradiction.
    do 2 (split; [reflexivity|]). intros i stA stB _ HB. discriminate.
  - apply Forall2_cons_inv_l in Hall.
    destruct Hall as (tr & trajs' & Htr & Hall & ->).
    cbn [windows_from adjacent_u_klns u_kln_estimates] in Hest.
    destruct dGs as [|dG dGs], errs as [|err errs]; try contradiction.
    destruct Hest as [(df & df_err & Hbar & HdG & Herr) Hest].
    destruct (IH trajs' st tr (S k) dGs errs Htr Hall Hest)
      as (Hlen & Hlen' & Hrest).
    cbn [length]. split; [lia|]. split; [lia|].
    intros [|i] stA stB HA HB Hpot.
    + cbn in HA, HB. injection HA as <-. injection HB as <-.
      exists trP, tr, dG, err. do 4 (split; [reflexivity || assumption|]).
      exists df, df_err. split; [|split; assumption].
      destruct trP as [xsP bxsP], tr as [xs bxs].
      apply FE_sample_postcondition in HP, Htr.
      destruct (FE_reduced_works temperature k (S k) stP st (xsP, bxsP)
                  (xs, bxs) (Z.to_nat (FE.n_frames md)) Hpot)
        as [Hfwd Hrev];
        [cbn [fst snd]; rewrite length_zip; lia
        |cbn [fst snd]; rewrite length_zip; lia|].
      rewrite Hfwd, Hrev in Hbar. exact Hbar.
    + exact (Hrest i stA stB HA HB Hpot).
Qed.

(** The same for the pairs of windows of rbfe.py. *)
Lemma Rbfe_adjacent_estimates (beta : R) (p : Rbfe.SimulationProtocol)
    (ists : list (Rbfe.InitialState E)) :
  forall trajs stP trP (k : nat) dGs errs,
    Rbfe.sample env stP p = Ok trP ->
    Forall2 (fun st tr => Rbfe.sample env st p = Ok tr) ists trajs ->
    pair_estimates beta (rbfe_window k stP trP)
      (rbfe_windows_from (S k) ists trajs) dGs errs ->
    length dGs = length ists /\ length errs = length ists /\
    forall (i : nat) stA stB,
      (stP :: ists) !! i = Some stA -> (stP :: ists) !! S i = Some stB ->
      length (Rbfe.potentials stA) = length (Rbfe.potentials stB) ->
      exists trA trB dG err,
        Rbfe.sample env stA p = Ok trA /\
        Rbfe.sample env stB p = Ok trB /\
        dGs !! i = Some dG /\ errs !! i = Some err /\
        total_work_estimate (pymbar_BAR A) beta
          (Rbfe_total_energy stA) (Rbfe_total_energy stB) trA trB dG err.
Proof.
  induction ists as [|st ists IH]; intros trajs stP trP k dGs errs HP Hall Hest.
  - apply Forall2_nil_inv_l in Hall. subst trajs. cbn in Hest.
    destruct dGs, errs; try contradiction.
    do 2 (split; [reflexivity|]). intros i stA stB _ HB. discriminate.
  - apply Forall2_cons_inv_l in Hall.
    destruct Hall as (tr & trajs' & Htr & Hall & ->).
    cbn [rbfe_windows_from pair_estimates] in Hest.
    destruct dGs as [|dG dGs], errs as [|err errs]; try contradiction.
    destruct Hest as [(df & df_err & Hbar & HdG & Herr) Hest].
    destruct (IH trajs' st tr (S k) dGs errs Htr Hall Hest)
      as (Hlen & Hlen' & Hrest).
    cbn [length]. split; [lia|]. split; [lia|].
    intros [|i] stA stB HA HB Hpot.
    + cbn in HA, HB. injection HA as <-. injection HB as <-.
      exists trP, tr, dG, err. do 4 (split; [reflexivity || assumption|]).
      exists df, df_err. split; [|split; assumption].
      destruct (Rbfe_reduced_works beta k (S k) stP st trP tr Hpot)
        as [Hfwd Hrev].
      rewrite Hfwd, Hrev in Hbar. exact Hbar.
    + exact (Hrest i stA stB HA HB Hpot).
Qed.

(** The values that rbfe.py reports, pair by pair. *)
Lemma Rbfe_reported_totals (temperature : R) (prefix : string)
    (ists : list (Rbfe.InitialState E)) (p : Rbfe.SimulationProtocol)
    (keep_idxs : list Z) (r : Rbfe.SimulationResult E) :
  Rbfe.estimate_free_energy_given_initial_states env ists p temperature
    prefix keep_idxs = Ok r ->
  length (Rbfe.all_dGs r) = (length ists - 1)%nat /\
  length (Rbfe.all_errs r) = (length ists - 1)%nat /\
  forall (i : nat) stA stB,
    ists !! i = Some stA -> ists !! S i = Some stB ->
    length (Rbfe.potentials stA) = length (Rbfe.potentials stB) ->
    exists trA trB dG err,
      Rbfe.sample env stA p = Ok trA /\
      Rbfe.sample env stB p = Ok trB /\
      Rbfe.all_dGs r !! i = Some dG /\ Rbfe.all_errs r !! i = Some err /\
      total_work_estimate (pymbar_BAR A) (1 / (BOLTZ A * temperature))%R
        (Rbfe_total_energy stA) (Rbfe_total_energy stB) trA trB dG err.
Proof.
  intros H. unfold Rbfe.estimate_free_energy_given_initial_states in H.
  inv_bind H as s Hs. injection H as <-.
  cbn [Rbfe.all_dGs Rbfe.all_errs].
  apply estimate_final_state_spec in Hs.
  destruct Hs as (trajs & Hall & Hne & _ & _ & Hest & _).
  destruct ists as [|st0 ists]; [contradiction|].
  apply Forall2_cons_inv_l in Hall.
  destruct Hall as (tr0 & trajs' & Htr0 & Hall & ->).
  cbn [pair_estimates_after rbfe_windows_from] in Hest.
  destruct (Rbfe_adjacent_estimates _ p ists trajs' st0 tr0 0 _ _ Htr0 Hall
              Hest) as (Hlen & Hlen' & Hpairs).
  replace (length (st0 :: ists) - 1)%nat with (length ists)
    by (cbn [length]; lia).
  auto.
Qed.
End ReportedTotals.

(** C5. In a run that returns, the free-energy difference reported for the
    adjacent pair of windows (A, B), with as many energy terms each, is the
    BAR estimate of the works of the total energies divided by beta: the
    forward works beta (U_B(x) - U_A(x)) over the frames sampled at A and
    the reverse works beta (U_A(x) - U_B(x)) over the frames sampled at B,
    U being the sum of the energy terms of a window; there is one reported
    value per pair. The estimates of the single terms do not enter the
    reported values: two estimators that agree on the works of the total
    energies of the pairs of the ladder report the same values, whatever
    they return on the works of the single terms. *)
Theorem reported_dG_from_summed_works {E : Engine} {A : Analysis}
    (env : Env E) (temperature : R) (prefix : string) :
  (forall (ists : list (FE.InitialState E)) (md : FE.MDParams)
          (keep_idxs : option (list Z)) (r : FE.SimulationResult),
      FE.estimate_free_energy_given_initial_states env ists md temperature
        prefix keep_idxs = Ok r ->
      length (FE.all_dGs r) = (length ists - 1)%nat /\
      length (FE.all_errs r) = (length ists - 1)%nat /\
      forall (i : nat) stA stB,
        ists !! i = Some stA -> ists !! S i = Some stB ->
        length (FE.potentials stA) = length (FE.potentials stB) ->
        exists trA trB dG err,
          FE.sample env stA md None = Ok trA /\
          FE.sample env stB md None = Ok trB /\
          FE.all_dGs r !! i = Some dG /\ FE.all_errs r !! i = Some err /\
          total_work_estimate (bar_with_bootstrapped_uncertainty A)
            (1 / (BOLTZ A * temperature))%R
            (FE_total_energy stA) (FE_total_energy stB) trA trB dG err) /\
  (forall (ists : list (Rbfe.InitialState E)) (p : Rbfe.SimulationProtocol)
          (keep_idxs : list Z) (r : Rbfe.SimulationResult E),
      Rbfe.estimate_free_energy_given_initial_states env ists p temperature
        prefix keep_idxs = Ok r ->
      length (Rbfe.all_dGs r) = (length ists - 1)%nat /\
      length (Rbfe.all_errs r) = (length ists - 1)%nat /\
      forall (i : nat) stA stB,
        ists !! i = Some stA -> ists !! S i = Some stB ->
        length (Rbfe.potentials stA) = length (Rbfe.potentials stB) ->
        exists trA trB dG err,
          Rbfe.sample env stA p = Ok trA /\
          Rbfe.sample env stB p = Ok trB /\
          Rbfe.all_dGs r !! i = Some dG /\ Rbfe.all_errs r !! i = Some err /\
          total_work_estimate (pymbar_BAR A) (1 / (BOLTZ A * temperature))%R
            (Rbfe_total_energy stA) (Rbfe_total_energy stB) trA trB dG err) /\
  (forall (A' : Analysis) (ists : list (Rbfe.InitialState E))
          (p : Rbfe.SimulationProtocol) (keep_idxs : list Z)
          (r r' : Rbfe.SimulationResult E),
      BOLTZ A' = BOLTZ A ->
      (forall (i : nat) stA stB,
          ists !! i = Some stA -> ists !! S i = Some stB ->
          length (Rbfe.potentials stA) = length (Rbfe.potentials stB)) ->
      (forall (i : nat) stA stB trA trB,
          ists !! i = Some stA -> ists !! S i = Some stB ->
          Rbfe.sample env stA p = Ok trA -> Rbfe.sample env stB p = Ok trB ->
          pymbar_BAR A
            (total_works (1 / (BOLTZ A * temperature))%R
               (Rbfe_total_energy stA) (Rbfe_total_energy stB) trA)
            (total_works (1 / (BOLTZ A * temperature))%R
               (Rbfe_total_energy stB) (Rbfe_total_energy stA) trB)
          = pymbar_BAR A'
              (total_works (1 / (BOLTZ A * temperature))%R
                 (Rbfe_total_energy stA) (Rbfe_total_energy stB) trA)
              (total_works (1 / (BOLTZ A * temperature))%R
                 (Rbfe_total_energy stB) (Rbfe_total_energy stA) trB)) ->
      Rbfe.estimate_free_energy_given_initial_states (A := A) env ists p
        temperature prefix keep_idxs = Ok r ->
      Rbfe.estimate_free_energy_given_initial_states (A := A') env ists p
        temperature prefix keep_idxs = Ok r' ->
      Rbfe.all_dGs r = Rbfe.all_dGs r' /\ Rbfe.all_errs r = Rbfe.all_errs r').
Proof.
  split; [|split].
  - intros ists md keep_idxs r H.
    unfold FE.estimate_free_energy_given_initial_states in H.
    inv_bind H as [[us sf] sb] Hrun.
    inv_bind H as [dGs errs] Hbar. inv_bind H as swapped Hswap.
    inv_bind H as state0 Hstate0. injection H as <-.
    cbn [FE.all_dGs FE.all_errs].
    unfold FE.run_sequential_sims_given_initial_states in Hrun.
    inv_bind Hrun as s Hs. injection Hrun as <- <- <-.
    apply run_sequential_final_state_spec in Hs.
    destruct Hs as (trajs & Hall & _ & _ & Hu & _).
    apply pair_bar_loop_Ok in Hbar.
    destruct Hbar as (dGa & erra & -> & -> & Hest).
    cbn [app]. rewrite Hu in Hest.
    destruct ists as [|st0 ists].
    + apply Forall2_nil_inv_l in Hall. subst trajs. cbn in Hest.
      destruct dGa, erra; try contradiction.
      do 2 (split; [reflexivity|]). intros i stA stB HA. discriminate.
    + apply Forall2_cons_inv_l in Hall.
      destruct Hall as (tr0 & trajs' & Htr0 & Hall & ->).
      cbn [pairs_after windows_from] in Hest.
      destruct (FE_adjacent_estimates env temperature md ists trajs' st0 tr0
                  0 _ _ Htr0 Hall Hest) as (Hlen & Hlen' & Hpairs).
      replace (length (st0 :: ists) - 1)%nat with (length ists)
        by (cbn [length]; lia).
      auto.
  - intros ists p keep_idxs r H.
    exact (Rbfe_reported_totals env temperature prefix ists p keep_idxs r H).
  - intros A' ists p keep_idxs r r' Hboltz Hpot Hagree Hr Hr'.
    apply (Rbfe_reported_totals (A := A)) in Hr.
    apply (Rbfe_reported_totals (A := A')) in Hr'.
    rewrite Hboltz in Hr'.
    destruct Hr as (Hlen & Hlen' & Hpairs).
    destruct Hr' as (Hlen2 & Hlen2' & Hpairs').
    assert (forall i : nat,
               Rbfe.all_dGs r !! i = Rbfe.all_dGs r' !! i /\
               Rbfe.all_errs r !! i = Rbfe.all_errs r' !! i) as Hsame.
    { intros i. destruct (Nat.lt_ge_cases (S i) (length ists)) as [Hi|Hi].
      - destruct (lookup_lt_is_Some_2 ists i ltac:(lia)) as [stA HA].
        destruct (lookup_lt_is_Some_2 ists (S i) Hi) as [stB HB].
        pose proof (Hpot i stA stB HA HB) as Hp.
        destruct (Hpairs i stA stB HA HB Hp)
          as (trA & trB & dG & err & HtA & HtB & -> & -> &
              (df & df_err & Hbar & -> & ->)).
        destruct (Hpairs' i stA stB HA HB Hp)
          as (trA' & trB' & dG' & err' & HtA' & HtB' & -> & -> &
              (df' & df_err' & Hbar' & -> & ->)).
        rewrite HtA in HtA'. injection HtA' as <-.
        rewrite HtB in HtB'. injection HtB' as <-.
        rewrite (Hagree i stA stB trA trB HA HB HtA HtB), Hbar' in Hbar.
        injection Hbar as <- <-. split; reflexivity.
      - rewrite !(proj2 (lookup_ge_None _ i)) by lia. split; reflexivity. }
    split; apply list_eq; intros i; apply Hsame.
Qed.

Lemma reported_dG_from_summed_works_witness :
  (exists r,
      FE.estimate_free_energy_given_initial_states (E := toy_engine)
        (A := toy_analysis) 0%nat
        [toy_state_with [1; 2] 0; toy_state_with [3; 5] 1] toy_md_params
        300%R "leg" (Some [0]) = Ok r /\
      FE.all_dGs r = [90%R]) /\
  (exists r r',
      Rbfe.estimate_free_energy_given_initial_states (E := toy_engine)
        (A := toy_analysis) 0%nat toy_rbfe_ladder toy_protocol 300%R "leg"
        [0] = Ok r /\
      Rbfe.all_dGs r = [90%R; 84%R] /\
      Rbfe.estimate_free_energy_given_initial_states (E := toy_engine)
        (A := toy_analysis_shifted) 0%nat toy_rbfe_ladder toy_protocol 300%R
        "leg" [0] = Ok r' /\
      Rbfe.all_dGs r = Rbfe.all_dGs r' /\
      map Rbfe.plot_df (Rbfe.plot_png r) <> map Rbfe.plot_df (Rbfe.plot_png r')).
Proof.
  pose proof (reported_dG_from_summed_works (E := toy_engine)
                (A := toy_analysis) 0%nat 300%R "leg") as (Hfe & Hrbfe & Hind).
  split.
  - assert (returned
              (FE.estimate_free_energy_given_initial_states (E := toy_engine)
                 (A := toy_analysis) 0%nat
                 [toy_state_with [1; 2] 0; toy_state_with [3; 5] 1]
                 toy_md_params 300%R "leg" (Some [0])) = true) as Hret
      by (vm_compute; reflexivity).
    destruct (FE.estimate_free_energy_given_initial_states _ _ _ _ _ _)
      as [e|r] eqn:Hcall; [discriminate Hret|].
    exists r. split; [reflexivity|].
    destruct (Hfe _ _ _ _ Hcall) as (Hlen & _ & Hpairs).
    destruct (Hpairs 0%nat _ _ eq_refl eq_refl eq_refl)
      as (trA & trB & dG & err & HA & HB & HdG & _ &
          (df & df_err & Hbar & -> & _)).
    vm_compute in HA. injection HA as <-.
    vm_compute in HB. injection HB as <-.
    cbn [bar_with_bootstrapped_uncertainty toy_analysis] in Hbar.
    injection Hbar as <- _.
    destruct (FE.all_dGs r) as [|dG0 [|dG1 dGs]]; try discriminate Hlen.
    cbn in HdG. injection HdG as ->. f_equal.
    unfold total_works, FE_total_energy, total_energy.
    cbn [map zip zip_with fst snd fold_left fold_right FE.potentials
         toy_state_with bound_impl execute toy_engine toy_energy].
    change (BOLTZ toy_analysis) with 1%R. rewrite !mult_IZR. field.
  - assert (returned
              (Rbfe.estimate_free_energy_given_initial_states
                 (E := toy_engine) (A := toy_analysis) 0%nat toy_rbfe_ladder
                 toy_protocol 300%R "leg" [0]) = true) as Hret
      by (vm_compute; reflexivity).
    assert (returned
              (Rbfe.estimate_free_energy_given_initial_states
                 (E := toy_engine) (A := toy_analysis_shifted) 0%nat
                 toy_rbfe_ladder toy_protocol 300%R "leg" [0]) = true)
      as Hret' by (vm_compute; reflexivity).
    destruct (Rbfe.estimate_free_energy_given_initial_states
                (A := toy_analysis) _ _ _ _ _ _)
      as [e|r] eqn:Hcall; [discriminate Hret|].
    destruct (Rbfe.estimate_free_energy_given_initial_states
                (A := toy_analysis_shifted) _ _ _ _ _ _)
      as [e|r'] eqn:Hcall'; [discriminate Hret'|].
    exists r, r'. split; [reflexivity|].
    split; [|split; [reflexivity|split]].
    + destruct (Hrbfe _ _ _ _ Hcall) as (Hlen & _ & Hpairs).
      destruct (Hpairs 0%nat _ _ eq_refl eq_refl eq_refl)
        as (trA & trB & dG & err & HA & HB & HdG & _ &
            (df & df_err & Hbar & -> & _)).
      vm_compute in HA. injection HA as <-.
      vm_compute in HB. injection HB as <-.
      cbn [pymbar_BAR toy_analysis] in Hbar. injection Hbar as <- _.
      destruct (Hpairs 1%nat _ _ eq_refl eq_refl eq_refl)
        as (trA & trB & dG & err' & HA & HB & HdG' & _ &
            (df & df_err' & Hbar & -> & _)).
      vm_compute in HA. injection HA as <-.
      vm_compute in HB. injection HB as <-.
      cbn [pymbar_BAR toy_analysis] in Hbar. injection Hbar as <- _.
      destruct (Rbfe.all_dGs r) as [|dG0 [|dG1 [|dG2 dGs]]];
        try discriminate Hlen.
      cbn in HdG, HdG'. injection HdG as ->. injection HdG' as ->.
      unfold total_works, Rbfe_total_energy, total_energy_lamb.
      cbn [map zip zip_with fst snd fold_left fold_right Rbfe.potentials
           Rbfe.lamb toy_rbfe_state_with bound_impl execute_lamb toy_engine
           toy_energy].
      change (BOLTZ toy_analysis) with 1%R. rewrite !mult_IZR.
      f_equal; [field|]. f_equal. field.
    + refine (proj1 (Hind toy_analysis_shifted toy_rbfe_ladder toy_protocol
                       [0] r r' eq_refl _ _ Hcall Hcall')).
      * intros [|[|[|i]]] stA stB HA HB; try discriminate HB;
          cbn in HA, HB; injection HA as <-; injection HB as <-; reflexivity.
      * intros [|[|[|i]]] stA stB trA trB HA HB HtA HtB; try discriminate HB;
          cbn in HA, HB; injection HA as <-; injection HB as <-;
          vm_compute in HtA; injection HtA as <-;
          vm_compute in HtB; injection HtB as <-;
          unfold total_works, Rbfe_total_energy, total_energy_lamb;
          cbn [map zip zip_with fst snd fold_left fold_right nth
               Rbfe.potentials Rbfe.lamb toy_rbfe_state_with bound_impl
               execute_lamb toy_engine toy_energy pymbar_BAR toy_analysis
               toy_analysis_shifted];
          change (BOLTZ toy_analysis) with 1%R; rewrite !mult_IZR;
          do 2 f_equal; field.
    + cbv - [IZR Rplus Rmult Rminus Rdiv Rinv Ropp] in Hcall, Hcall'.
      injection Hcall as <-. injection Hcall' as <-.
      cbn [map Rbfe.plot_png Rbfe.plot_df].
      intros Heq. injection Heq as Heq _. lra.
Defined.
(** * Further properties of free_energy.py and rbfe.py *)

(** ** The streaming path of [sample] *)

Section Streaming.
Context {E : Engine}.
Implicit Types (stepf : Ctxt E -> Ctxt E) (c : Ctxt E).

(** Running [k1] steps, a multiple of the interval, and then [k2] more in a
    second call records what one call of [k1 + k2] steps records. *)
Lemma steps_app stepf (d : Z) (k1 k2 : nat) c :
  1 <= d -> Z.of_nat k1 mod d = 0 ->
  steps stepf d (k2 + k1) c
  = let '(c1, (xs1, bs1)) := steps stepf d k1 c in
    let '(c2, (xs2, bs2)) := steps stepf d k2 c1 in
    (c2, (xs1 ++ xs2, bs1 ++ bs2)).
Proof.
  intros Hd Hk1. induction k2 as [|k2 IH].
  - cbn [Nat.add].
    destruct (steps stepf d k1 c) as [c1 [xs1 bs1]]. cbn.
    rewrite !app_nil_r. reflexivity.
  - cbn [Nat.add steps]. rewrite IH.
    destruct (steps stepf d k1 c) as [c1 [xs1 bs1]].
    destruct (steps stepf d k2 c1) as [c2 [xs2 bs2]].
    assert (Z.of_nat (S (k2 + k1)) mod d = Z.of_nat (S k2) mod d) as ->.
    { replace (Z.of_nat (S (k2 + k1)))
        with (Z.of_nat (S k2) + Z.of_nat k1) by lia.
      rewrite Z.add_mod, Hk1, Z.add_0_r, Z.mod_mod by lia. reflexivity. }
    destruct ((0 <? d) && (Z.of_nat (S k2) mod d =? 0));
      rewrite ?app_assoc; reflexivity.
Qed.

Lemma sumZ_cons (b : Z) (bs : list Z) : sumZ (b :: bs) = b + sumZ bs.
Proof. reflexivity. Qed.

Lemma sumZ_nonneg (bs : list Z) : Forall (fun b => 0 <= b) bs -> 0 <= sumZ bs.
Proof.
  induction 1 as [|b l Hb Hl IH]; [cbn; lia|rewrite sumZ_cons; lia].
Qed.

Lemma run_batches_steps (env : Env E) (md : FE.MDParams) (bs : list Z) :
  1 <= FE.steps_per_frame md ->
  Forall (fun b => 0 <= b) bs ->
  forall c ax ab,
    FE.run_batches env md c bs ax ab
    = let '(_, (xs, bxs)) :=
        steps (step E env) (FE.steps_per_frame md)
          (Z.to_nat (sumZ bs * FE.steps_per_frame md)) c in
      (ax ++ xs, ab ++ bxs).
Proof.
  intros Hspf Hbs. induction Hbs as [|b bs Hb Hbs IH]; intros c ax ab.
  - change (Z.to_nat (sumZ [] * FE.steps_per_frame md)) with 0%nat. cbn.
    rewrite !app_nil_r. reflexivity.
  - cbn [FE.run_batches]. unfold FE.run_production_steps, multiple_steps_U.
    pose proof (sumZ_nonneg bs Hbs) as Hsum.
    assert (Z.to_nat (sumZ (b :: bs) * FE.steps_per_frame md)
            = (Z.to_nat (sumZ bs * FE.steps_per_frame md)
               + Z.to_nat (b * FE.steps_per_frame md))%nat) as ->.
    { rewrite sumZ_cons. nia. }
    rewrite steps_app; [|exact Hspf|].
    2:{ rewrite Z2Nat.id by nia. apply Z.mod_mul. lia. }
    destruct (steps _ _ (Z.to_nat (b * _)) c) as [c1 [xs1 bs1]].
    rewrite IH.
    destruct (steps _ _ _ c1) as [c2 [xs2 bs2]].
    rewrite !app_assoc. reflexivity.
Qed.
End Streaming.

(** X1. With a buffer limit [m > 0], [sample] returns what it returns
    without one: splitting the production run into batches changes neither
    the frames nor the boxes. *)
Theorem sample_streaming_equals_in_memory {E : Engine} (env : Env E)
    (st : FE.InitialState E) (md : FE.MDParams) (m : Z) :
  0 < m -> 0 <= FE.n_frames md -> 1 <= FE.steps_per_frame md ->
  FE.sample env st md (Some m) = FE.sample env st md None.
Proof.
  intros Hm Hnf Hspf. unfold FE.sample.
  destruct (multiple_steps_U _ _ _ 0) as [c1 ?].
  destruct (py_assert (all_finite E (get_x_t E c1)) _) as [e|u];
    [reflexivity|].
  rsimpl. unfold FE.truthy.
  destruct (Z.eqb_spec m 0) as [|_]; [lia|].
  destruct (batches_yield (FE.n_frames md) m Hnf Hm) as (l & -> & Hsum & Hpos).
  rsimpl. rewrite (run_batches_steps env md l Hspf Hpos c1 [] []), Hsum.
  unfold FE.run_production_steps, multiple_steps_U.
  destruct (steps _ _ _ c1) as [c2 [xs bxs]]. reflexivity.
Qed.

Lemma sample_streaming_equals_in_memory_witness :
  FE.sample (E := toy_engine) 0%nat (toy_state 0) toy_md_params (Some 2)
  = FE.sample (E := toy_engine) 0%nat (toy_state 0) toy_md_params None.
Proof.
  apply (sample_streaming_equals_in_memory (E := toy_engine) 0%nat
           (toy_state 0) toy_md_params 2); cbn; lia.
Defined.

(** X2. A protocol without frames never makes [sample] of free_energy.py
    return: with [n_frames <= 0] the call raises, on both paths; with
    [n_frames = 0] and finite coordinates after the burn-in the in-memory
    path raises [IndexError] at [all_coords[-1]]. The sampler of rbfe.py
    returns an empty trajectory instead. *)
Theorem sample_without_frames {E : Engine} (env : Env E)
    (st : FE.InitialState E) (md : FE.MDParams) (mbf : option Z)
    (rst : Rbfe.InitialState E) (p : Rbfe.SimulationProtocol) :
  (FE.n_frames md <= 0 -> returned (FE.sample env st md mbf) = false) /\
  (FE.n_frames md = 0 ->
   all_finite E
     (get_x_t E (Nat.iter (Z.to_nat (FE.n_eq_steps md)) (step E env)
                   (FE.make_context st))) = true ->
   FE.sample env st md None = Raise IndexError) /\
  (Rbfe.n_frames p = 0 -> Rbfe.sample env rst p = Ok ([], [])).
Proof.
  split; [|split].
  - intros Hnf. destruct (FE.sample env st md mbf) as [e|[xs bxs]] eqn:Hs;
      [reflexivity|exfalso].
    destruct (FE_sample_postcondition _ _ _ _ _ _ Hs) as [Hx _].
    destruct (FE_sample_last_frame_finite _ _ _ _ _ _ Hs) as (x & Hlast & _).
    destruct xs; [discriminate|cbn in Hx; lia].
  - intros Hnf Hfin. unfold FE.sample, multiple_steps_U.
    pose proof (steps_ctxt (step E env) 0 (Z.to_nat (FE.n_eq_steps md))
                  (FE.make_context st)) as Hc1.
    destruct (steps _ 0 _ _) as [c1 ?]. cbn [fst] in Hc1. subst c1.
    rewrite Hfin, Hnf. reflexivity.
  - intros Hnf. unfold Rbfe.sample, multiple_steps_U.
    destruct (steps _ 0 _ _) as [c1 ?]. rewrite Hnf. reflexivity.
Qed.

Lemma sample_without_frames_witness :
  returned
    (FE.sample (E := toy_engine) 0%nat (toy_state 0)
       {| FE.n_frames := 0; FE.n_eq_steps := 2; FE.steps_per_frame := 2 |}
       (Some 2)) = false /\
  FE.sample (E := toy_engine) 0%nat (toy_state 0)
    {| FE.n_frames := 0; FE.n_eq_steps := 2; FE.steps_per_frame := 2 |} None
  = Raise IndexError /\
  Rbfe.sample (E := toy_engine) 0%nat (toy_rbfe_state 0)
    {| Rbfe.n_frames := 0; Rbfe.burn_in := 2; Rbfe.steps_per_frame := 2 |}
  = Ok ([], []).
Proof.
  pose proof (sample_without_frames (E := toy_engine) 0%nat (toy_state 0)
                {| FE.n_frames := 0; FE.n_eq_steps := 2;
                   FE.steps_per_frame := 2 |} (Some 2) (toy_rbfe_state 0)
                {| Rbfe.n_frames := 0; Rbfe.burn_in := 2;
                   Rbfe.steps_per_frame := 2 |}) as (H1 & H2 & H3).
  split; [apply H1; cbn; lia|].
  split; [apply H2; reflexivity|apply H3; reflexivity].
Defined.

(** ** The outcome of the runner of free_energy.py *)

Lemma py_in_In (i : Z) (l : list Z) : py_in i l = true <-> In i l.
Proof.
  unfold py_in. rewrite existsb_exists. split.
  - intros (x & Hx & Heq). apply Z.eqb_eq in Heq. subst x. exact Hx.
  - intros Hin. exists i. split; [exact Hin|]. apply Z.eqb_refl.
Qed.

Lemma py_in_ext (i : Z) (l l' : list Z) :
  (In i l <-> In i l') -> py_in i l = py_in i l'.
Proof.
  intros H. pose proof (py_in_In i l) as H1. pose proof (py_in_In i l') as H2.
  destruct (py_in i l), (py_in i l'); try reflexivity;
    [symmetry; apply H2, H, H1|apply H1, H, H2]; reflexivity.
Qed.

Lemma checked_keep_idxs_Some (keep : list Z) :
  Forall (fun k => 0 <= k) keep -> FE.checked_keep_idxs (Some keep) = Ok keep.
Proof.
  intros Hk. unfold FE.checked_keep_idxs.
  change (default [] (Some keep)) with keep. cbv zeta.
  destruct keep as [|k keep]; [reflexivity|].
  assert (forallb (fun k => 0 <=? k) (k :: keep) = true) as ->; [|reflexivity].
  apply forallb_forall. intros x Hx. apply Z.leb_le.
  rewrite Forall_forall in Hk. apply Hk, list_elem_of_In, Hx.
Qed.

Lemma checked_keep_idxs_negative (keep : list Z) (k : Z) :
  In k keep -> k < 0 ->
  FE.checked_keep_idxs (Some keep) = Raise (AssertionError no_message).
Proof.
  intros Hin Hk. unfold FE.checked_keep_idxs.
  change (default [] (Some keep)) with keep. cbv zeta.
  destruct keep as [|k0 keep]; [destruct Hin|].
  assert (forallb (fun k => 0 <=? k) (k0 :: keep) = false) as ->;
    [|reflexivity].
  apply not_true_is_false. intros Hall.
  rewrite forallb_forall in Hall. apply Hall, Z.leb_le in Hin. lia.
Qed.

(** X3. A negative entry in [keep_idxs] makes the runner raise
    [AssertionError] before any window is sampled, whatever the initial
    states are. *)
Theorem negative_keep_idx_rejected {E : Engine} {A : Analysis} (env : Env E)
    (ists : list (FE.InitialState E)) (md : FE.MDParams) (T : R)
    (keep : list Z) (k : Z) :
  In k keep -> k < 0 ->
  FE.run_sequential_sims_given_initial_states env ists md T (Some keep)
  = Raise (AssertionError no_message) /\
  FE.run_sequential_points env ists md T (Some keep) = [].
Proof.
  intros Hin Hk.
  unfold FE.run_sequential_sims_given_initial_states,
    FE.run_sequential_final_state, FE.run_sequential_points.
  rewrite (checked_keep_idxs_negative keep k Hin Hk). split; reflexivity.
Qed.

Lemma negative_keep_idx_rejected_witness :
  FE.run_sequential_sims_given_initial_states (E := toy_engine)
    (A := toy_analysis) 0%nat [toy_state 0; toy_state 1] toy_md_params 1%R
    (Some [0; -1])
  = Raise (AssertionError no_message) /\
  FE.run_sequential_points (E := toy_engine) (A := toy_analysis) 0%nat
    [toy_state 0; toy_state 1] toy_md_params 1%R (Some [0; -1]) = [].
Proof.
  apply (negative_keep_idx_rejected (E := toy_engine) (A := toy_analysis)
           0%nat [toy_state 0; toy_state 1] toy_md_params 1%R [0; -1] (-1)).
  - cbn. right. left. reflexivity.
  - lia.
Defined.





(** ** [keep_idxs] as a set of window indices *)

Section KeepIdxs.
Context {E : Engine} {A : Analysis}.

Lemma FE_run_loop_keep_ext (env : Env E) (md : FE.MDParams) (T : R)
    (keep keep' : list Z) (ists : list (FE.InitialState E)) :
  forall (i : nat) (s : FE.RunState E),
    (forall k : nat,
        (k < length ists)%nat ->
        In (Z.of_nat (i + k)) keep <-> In (Z.of_nat (i + k)) keep') ->
    FE.run_loop env md T keep i ists s = FE.run_loop env md T keep' i ists s.
Proof.
  induction ists as [|st ists IH]; intros i s Hmem; [reflexivity|].
  cbn [FE.run_loop].
  assert (FE.loop_body env md T keep i st s
          = FE.loop_body env md T keep' i st s) as ->.
  { unfold FE.loop_body, FE.keep_samples.
    rewrite (py_in_ext (Z.of_nat i) keep keep'); [reflexivity|].
    specialize (Hmem 0%nat ltac:(cbn; lia)).
    rewrite Nat.add_0_r in Hmem. exact Hmem. }
  destruct (FE.loop_body env md T keep' i st s) as [e|s1]; [reflexivity|].
  rsimpl. apply IH. intros k Hk.
  replace (S i + k)%nat with (i + S k)%nat by lia.
  apply Hmem. cbn [length]. lia.
Qed.

Lemma Rbfe_run_loop_keep_ext (env : Env E) (p : Rbfe.SimulationProtocol)
    (all_axes : Rbfe.AxesArray) (beta : R) (prefix : string)
    (keep keep' : list Z) (U_names : list string)
    (ists : list (Rbfe.InitialState E)) :
  forall (i : nat) (s : Rbfe.LoopState E),
    (forall k : nat,
        (k < length ists)%nat ->
        In (Z.of_nat (i + k)) keep <-> In (Z.of_nat (i + k)) keep') ->
    Rbfe.run_loop env p all_axes beta prefix keep U_names i ists s
    = Rbfe.run_loop env p all_axes beta prefix keep' U_names i ists s.
Proof.
  induction ists as [|st ists IH]; intros i s Hmem; [reflexivity|].
  cbn [Rbfe.run_loop].
  assert (Rbfe.loop_body env p all_axes beta prefix keep U_names i st s
          = Rbfe.loop_body env p all_axes beta prefix keep' U_names i st s)
    as ->.
  { unfold Rbfe.loop_body.
    rewrite (py_in_ext (Z.of_nat i) keep keep'); [reflexivity|].
    specialize (Hmem 0%nat ltac:(cbn; lia)).
    rewrite Nat.add_0_r in Hmem. exact Hmem. }
  destruct (Rbfe.loop_body env p all_axes beta prefix keep' U_names i st s)
    as [e|s1]; [reflexivity|].
  rsimpl. apply IH. intros k Hk.
  replace (S i + k)%nat with (i + S k)%nat by lia.
  apply Hmem. cbn [length]. lia.
Qed.
End KeepIdxs.

(** X6. The runner of free_energy.py reads [keep_idxs] as a set of window
    indices: two lists without negative entries that contain the same
    indices below the number of windows give the same result, so the
    order of the entries, repetitions and indices past the last window
    play no role. *)
Theorem runner_keep_idxs_as_set {E : Engine} {A : Analysis} (env : Env E)
    (ists : list (FE.InitialState E)) (md : FE.MDParams) (T : R)
    (keep keep' : list Z) :
  Forall (fun k => 0 <= k) keep -> Forall (fun k => 0 <= k) keep' ->
  (forall i : nat,
      (i < length ists)%nat ->
      In (Z.of_nat i) keep <-> In (Z.of_nat i) keep') ->
  FE.run_sequential_sims_given_initial_states env ists md T (Some keep)
  = FE.run_sequential_sims_given_initial_states env ists md T (Some keep').
Proof.
  intros Hk Hk' Hmem.
  unfold FE.run_sequential_sims_given_initial_states,
    FE.run_sequential_final_state.
  rewrite (checked_keep_idxs_Some keep Hk), (checked_keep_idxs_Some keep' Hk').
  rsimpl.
  rewrite (FE_run_loop_keep_ext env md T keep keep' ists 0); [reflexivity|].
  intros k Hlt. apply Hmem, Hlt.
Qed.

Lemma runner_keep_idxs_as_set_witness :
  FE.run_sequential_sims_given_initial_states (E := toy_engine)
    (A := toy_analysis) 0%nat [toy_state 0; toy_state 1] toy_md_params 1%R
    (Some [1; 0; 1; 7])
  = FE.run_sequential_sims_given_initial_states (E := toy_engine)
      (A := toy_analysis) 0%nat [toy_state 0; toy_state 1] toy_md_params 1%R
      (Some [0; 1]).
Proof.
  apply (runner_keep_idxs_as_set (E := toy_engine) (A := toy_analysis) 0%nat
           [toy_state 0; toy_state 1] toy_md_params 1%R [1; 0; 1; 7] [0; 1]).
  - repeat constructor; lia.
  - repeat constructor; lia.
  - intros i Hi. cbn in Hi.
    assert (i = 0%nat \/ i = 1%nat) as [-> | ->] by lia; cbn; tauto.
Defined.

(** X7. The estimator of rbfe.py reads [keep_idxs] as a set of window
    indices too, and asserts nothing about it: entries that are negative
    or past the last window are ignored. The default [[0, -1]] therefore
    gives the result of [[0]]. *)
Theorem rbfe_keep_idxs_as_set {E : Engine} {A : Analysis} (env : Env E)
    (ists : list (Rbfe.InitialState E)) (p : Rbfe.SimulationProtocol) (T : R)
    (prefix : string) (keep keep' : list Z) :
  (forall i : nat,
      (i < length ists)%nat ->
      In (Z.of_nat i) keep <-> In (Z.of_nat i) keep') ->
  Rbfe.estimate_free_energy_given_initial_states env ists p T prefix keep
  = Rbfe.estimate_free_energy_given_initial_states env ists p T prefix keep'.
Proof.
  intros Hmem.
  unfold Rbfe.estimate_free_energy_given_initial_states,
    Rbfe.estimate_final_state.
  destruct ists as [|st0 ists]; [reflexivity|]. rsimpl.
  destruct (Rbfe.plt_subplots _ _) as [e|all_axes]; [reflexivity|]. rsimpl.
  rewrite (Rbfe_run_loop_keep_ext env p all_axes (1 / (BOLTZ A * T))%R prefix
             keep keep' _ (st0 :: ists) 0); [reflexivity|].
  intros k Hlt. apply Hmem, Hlt.
Qed.

Lemma rbfe_keep_idxs_as_set_witness :
  Rbfe.estimate_free_energy_given_initial_states (E := toy_engine)
    (A := toy_analysis) 0%nat toy_rbfe_ladder toy_protocol 1%R "leg"%string
    [0; -1]
  = Rbfe.estimate_free_energy_given_initial_states (E := toy_engine)
      (A := toy_analysis) 0%nat toy_rbfe_ladder toy_protocol 1%R "leg"%string
      [0].
Proof.
  apply (rbfe_keep_idxs_as_set (E := toy_engine) (A := toy_analysis) 0%nat
           toy_rbfe_ladder toy_protocol 1%R "leg"%string [0; -1] [0]).
  intros i Hi. cbn. split; intros H; [|tauto].
  destruct H as [H|[H|[]]]; [left; exact H|lia].
Defined.

(** ** The length of the ladder *)

Section Ladder.
Context {E : Engine} {A : Analysis}.

Lemma windows_from_length (T : R) (ists : list (FE.InitialState E)) :
  forall (trajs : list (list (Coords E) * list (Box E))) (i : nat),
    length ists = length trajs ->
    length (windows_from T i ists trajs) = length ists.
Proof.
  induction ists as [|st ists IH]; intros [|tr trajs] i Hlen;
    try discriminate; [reflexivity|].
  cbn [windows_from length]. f_equal. apply IH. cbn in Hlen. lia.
Qed.

Lemma adjacent_u_klns_length (w : FE.EnergyDecomposedState E)
    (ws : list (FE.EnergyDecomposedState E)) :
  length (adjacent_u_klns w ws) = length ws.
Proof.
  revert w. induction ws as [|w' ws IH]; intros w; [reflexivity|].
  cbn [adjacent_u_klns length]. f_equal. apply IH.
Qed.

Lemma pairs_after_None_length (ws : list (FE.EnergyDecomposedState E)) :
  length (pairs_after None ws) = (length ws - 1)%nat.
Proof.
  destruct ws as [|w ws]; [reflexivity|].
  cbn [pairs_after length]. rewrite adjacent_u_klns_length. lia.
Qed.

Lemma u_kln_estimates_lengths (beta : R) (T : nat) (us : list (list ukln)) :
  forall dGs errs,
    u_kln_estimates beta T us dGs errs ->
    length dGs = length us /\ length errs = length us.
Proof.
  induction us as [|u us IH]; intros [|dG dGs] [|err errs] H;
    try contradiction; [split; reflexivity|].
  destruct H as [_ H]. apply IH in H. cbn [length]. lia.
Qed.

Lemma runner_pairs_length (env : Env E) (ists : list (FE.InitialState E))
    (md : FE.MDParams) (T : R) (keep_idxs : option (list Z)) us sf sb :
  FE.run_sequential_sims_given_initial_states env ists md T keep_idxs
  = Ok (us, sf, sb) ->
  length us = (length ists - 1)%nat.
Proof.
  unfold FE.run_sequential_sims_given_initial_states. intros H.
  inv_bind H as s Hs. injection H as <- <- <-.
  apply run_sequential_final_state_spec in Hs.
  destruct Hs as (trajs & Hall & _ & _ & -> & _).
  rewrite pairs_after_None_length, windows_from_length; [reflexivity|].
  exact (Forall2_length _ _ _ Hall).
Qed.
End Ladder.

(** X8. [estimate_free_energy_given_initial_states] of free_energy.py
    returns only for a ladder of at least two windows (with fewer, the
    empty array of pairs has no axis to swap), and then reports one free
    energy difference and one error per adjacent pair of windows. *)
Theorem estimate_needs_two_windows {E : Engine} {A : Analysis} (env : Env E)
    (ists : list (FE.InitialState E)) (md : FE.MDParams) (T : R)
    (prefix : string) (keep_idxs : option (list Z)) (r : FE.SimulationResult) :
  FE.estimate_free_energy_given_initial_states env ists md T prefix keep_idxs
  = Ok r ->
  (2 <= length ists)%nat /\
  length (FE.all_dGs r) = (length ists - 1)%nat /\
  length (FE.all_errs r) = (length ists - 1)%nat.
Proof.
  unfold FE.estimate_free_energy_given_initial_states. intros H.
  inv_bind H as [[us sf] sb] Hrun. inv_bind H as [dGs errs] Hbar.
  inv_bind H as swapped Hswap. inv_bind H as st0 Hst0. injection H as <-.
  cbn [FE.all_dGs FE.all_errs].
  apply runner_pairs_length in Hrun.
  apply pair_bar_loop_Ok in Hbar. destruct Hbar as (dGa & erra & -> & -> & Hest).
  apply u_kln_estimates_lengths in Hest. destruct Hest as [HdG Herr].
  cbn [app]. rewrite HdG, Herr, Hrun.
  destruct us as [|u us]; [discriminate Hswap|]. cbn [length] in Hrun. lia.
Qed.

Lemma estimate_needs_two_windows_witness :
  exists r,
    FE.estimate_free_energy_given_initial_states (E := toy_engine)
      (A := toy_analysis) 0%nat [toy_state 0; toy_state 1; toy_state 2]
      toy_md_params 1%R "leg"%string None = Ok r /\
    length (FE.all_dGs r) = 2%nat /\ length (FE.all_errs r) = 2%nat.
Proof.
  assert (returned
            (FE.estimate_free_energy_given_initial_states (E := toy_engine)
               (A := toy_analysis) 0%nat
               [toy_state 0; toy_state 1; toy_state 2] toy_md_params 1%R
               "leg"%string None) = true) as Hret
    by (vm_compute; reflexivity).
  destruct (FE.estimate_free_energy_given_initial_states _ _ _ _ _ _)
    as [e|r] eqn:Hcall; [discriminate Hret|].
  exists r. split; [reflexivity|].
  destruct (estimate_needs_two_windows (E := toy_engine) (A := toy_analysis)
              0%nat [toy_state 0; toy_state 1; toy_state 2] toy_md_params 1%R
              "leg"%string None r Hcall) as (_ & HdG & Herr).
  split; assumption.
Defined.

(** ** Exceptions before the [try] of [estimate_relative_free_energy] *)

(** X9. Of the exceptions that [except Exception] catches, one leaves
    [estimate_relative_free_energy] unwrapped exactly when a statement
    before the [try] block raised it. These statements run in this order:
    the construction of the topology, the warning about a given
    [lambda_schedule], the setup of the initial states, the assertion that
    [keep_idxs] is no longer than the lambda schedule (it fails with the
    default [keep_idxs] on a schedule of fewer than two windows), the name
    of the first molecule, the name of the second. Every other exception is
    a [SimulationException]. *)
Theorem unwrapped_exceptions {E : Engine} {A : Analysis} {S : Rbfe.Setup E}
    (env : Env E) (mol_a mol_b : Rbfe.Mol S) (core : Rbfe.Core S)
    (ff : Rbfe.Forcefield S) (hc : Rbfe.HostConfig) (seed n_frames : Z)
    (prefix : string) (lambda_schedule : option (list R))
    (keep_idxs : option (list Z)) (e : exn) :
  Rbfe.estimate_relative_free_energy env mol_a mol_b core ff hc seed n_frames
    prefix lambda_schedule keep_idxs = inl (Rbfe.Uncaught e)
  <->
  Rbfe.SingleTopologyV3 S mol_a mol_b core ff = Raise e \/
  (exists st,
      Rbfe.SingleTopologyV3 S mol_a mol_b core ff = Ok st /\
      ((lambda_schedule <> None /\
        Rbfe.warnings_warn S Rbfe.lambda_schedule_warning = Raise e) \/
       ((lambda_schedule <> None ->
         Rbfe.warnings_warn S Rbfe.lambda_schedule_warning = Ok tt) /\
        (Rbfe.setup_initial_states st hc (DEFAULT_TEMP A)
           (default Rbfe.default_lambda_schedule lambda_schedule) seed
         = Raise e \/
         (exists ists,
             Rbfe.setup_initial_states st hc (DEFAULT_TEMP A)
               (default Rbfe.default_lambda_schedule lambda_schedule) seed
             = Ok ists /\
             (((length (default Rbfe.default_lambda_schedule lambda_schedule)
                < length (default [0; -1]%Z keep_idxs))%nat /\
               e = AssertionError no_message) \/
              ((length (default [0; -1]%Z keep_idxs)
                <= length (default Rbfe.default_lambda_schedule
                             lambda_schedule))%nat /\
               (Rbfe.get_mol_name S mol_a = Raise e \/
                (exists name_a,
                    Rbfe.get_mol_name S mol_a = Ok name_a /\
                    Rbfe.get_mol_name S mol_b = Raise e))))))))).
Proof.
  unfold Rbfe.estimate_relative_free_energy.
  destruct (Rbfe.SingleTopologyV3 S mol_a mol_b core ff) as [e0|st] eqn:Hst;
    cbn [Rbfe.uncaught].
  { split.
    - intros H. injection H as ->. left. reflexivity.
    - intros [H|(st & H & _)]; [injection H as ->; reflexivity|discriminate]. }
  split.
  - intros H. right. exists st. split; [reflexivity|]. revert H.
    destruct lambda_schedule as [given|].
    + destruct (Rbfe.warnings_warn S Rbfe.lambda_schedule_warning)
        as [e1|[]] eqn:Hwarn; cbn [rbind Rbfe.uncaught Ok].
      { intros H. injection H as ->. left. split; [discriminate|reflexivity]. }
      change (default Rbfe.default_lambda_schedule (Some given)) with given.
      intros H. right. split; [intros _; reflexivity|].
      destruct (Rbfe.setup_initial_states st hc (DEFAULT_TEMP A) given seed)
        as [e2|ists] eqn:Hists; cbn [Rbfe.uncaught] in H.
      { injection H as ->. left. reflexivity. }
      right. exists ists. split; [reflexivity|].
      destruct (Nat.leb_spec (length (default [0; -1]%Z keep_idxs))
                  (length given)) as [Hle|Hlt];
        cbn [py_assert Rbfe.uncaught Ok Raise] in H.
      2:{ injection H as <-. left. split; [exact Hlt|reflexivity]. }
      right. split; [exact Hle|].
      destruct (Rbfe.get_mol_name S mol_a) as [e3|name_a];
        cbn [Rbfe.uncaught] in H.
      { injection H as ->. left. reflexivity. }
      right. exists name_a. split; [reflexivity|].
      destruct (Rbfe.get_mol_name S mol_b) as [e4|name_b];
        cbn [Rbfe.uncaught] in H.
      { injection H as ->. reflexivity. }
      destruct (Rbfe.estimate_free_energy_given_initial_states _ _ _ _ _ _);
        discriminate.
    + cbn [rbind Rbfe.uncaught Ok].
      change (default Rbfe.default_lambda_schedule None)
        with Rbfe.default_lambda_schedule.
      intros H. right. split; [intros Hne; contradiction|].
      destruct (Rbfe.setup_initial_states st hc (DEFAULT_TEMP A)
                  Rbfe.default_lambda_schedule seed)
        as [e2|ists] eqn:Hists; cbn [Rbfe.uncaught] in H.
      { injection H as ->. left. reflexivity. }
      right. exists ists. split; [reflexivity|].
      destruct (Nat.leb_spec (length (default [0; -1]%Z keep_idxs))
                  (length Rbfe.default_lambda_schedule)) as [Hle|Hlt];
        cbn [py_assert Rbfe.uncaught Ok Raise] in H.
      2:{ injection H as <-. left. split; [exact Hlt|reflexivity]. }
      right. split; [exact Hle|].
      destruct (Rbfe.get_mol_name S mol_a) as [e3|name_a];
        cbn [Rbfe.uncaught] in H.
      { injection H as ->. left. reflexivity. }
      right. exists name_a. split; [reflexivity|].
      destruct (Rbfe.get_mol_name S mol_b) as [e4|name_b];
        cbn [Rbfe.uncaught] in H.
      { injection H as ->. reflexivity. }
      destruct (Rbfe.estimate_free_energy_given_initial_states _ _ _ _ _ _);
        discriminate.
  - intros [H|(st' & Heq & H)]; [discriminate|]. injection Heq as <-.
    destruct H as [[Hne Hwarn]|[Hwarn H]].
    { destruct lambda_schedule as [given|]; [|contradiction].
      rewrite Hwarn. reflexivity. }
    assert (match lambda_schedule with
            | Some given =>
                let! _ := Rbfe.warnings_warn S Rbfe.lambda_schedule_warning in
                Ok given
            | None => Ok Rbfe.default_lambda_schedule
            end = Ok (default Rbfe.default_lambda_schedule lambda_schedule))
      as ->.
    { destruct lambda_schedule as [given|]; [|reflexivity].
      rewrite Hwarn by discriminate. reflexivity. }
    cbn [Rbfe.uncaught Ok].
    destruct H as [Hists|(ists & Hists & H)]; rewrite Hists;
      [reflexivity|].
    cbn [Rbfe.uncaught Ok].
    destruct H as [[Hlt ->]|[Hle H]].
    { apply Nat.leb_gt in Hlt. rewrite Hlt. reflexivity. }
    apply Nat.leb_le in Hle. rewrite Hle. cbn [py_assert Rbfe.uncaught Ok].
    destruct H as [Ha|(name_a & Ha & Hb)]; rewrite Ha; [reflexivity|].
    cbn [Rbfe.uncaught Ok]. rewrite Hb. reflexivity.
Qed.

Lemma unwrapped_exceptions_witness :
  Rbfe.estimate_relative_free_energy (E := toy_engine) (A := toy_analysis)
    (S := toy_setup) 0%nat "a"%string "b"%string tt tt toy_host_config 2023 1
    "leg"%string (Some [0%R]) None
  = inl (Rbfe.Uncaught (AssertionError no_message)).
Proof.
  apply (unwrapped_exceptions (E := toy_engine) (A := toy_analysis)
           (S := toy_setup)).
  right. exists tt. split; [reflexivity|]. right.
  split; [intros _; reflexivity|]. right.
  exists [toy_rbfe_state_at 0 4 0%R 2023].
  split; [reflexivity|]. left. split; [cbn; lia|reflexivity].
Defined.

(** * potentials/jax_utils.py *)

Lemma triu_indices_In (n i j : nat) :
  In (i, j) (triu_indices n) <-> (i < j < n)%nat.
Proof.
  unfold triu_indices. rewrite in_flat_map. split.
  - intros (i' & Hi' & Hin). apply in_map_iff in Hin.
    destruct Hin as (j' & Heq & Hj'). injection Heq as -> ->.
    apply in_seq in Hi', Hj'. lia.
  - intros Hij. exists i. split; [apply in_seq; lia|].
    apply in_map_iff. exists j. split; [reflexivity|apply in_seq; lia].
Qed.

Lemma triu_rows_length (n k a : nat) :
  (a + k = n)%nat ->
  (2 * length (flat_map (fun i => map (fun j => (i, j)) (seq (S i) (n - S i)))
                 (seq a k))
   = k * (k - 1))%nat.
Proof.
  revert a. induction k as [|k IH]; intros a Hn; [reflexivity|].
  cbn [seq flat_map]. rewrite length_app, length_map, length_seq.
  specialize (IH (S a) ltac:(lia)). nia.
Qed.

Lemma triu_rows_NoDup (n : nat) (l : list nat) :
  NoDup l ->
  NoDup (flat_map (fun i => map (fun j => (i, j)) (seq (S i) (n - S i))) l).
Proof.
  induction 1 as [|i l Hi Hl IH]; cbn [flat_map]; [constructor|].
  apply NoDup_app. split; [|split].
  - change (NoDup ((fun j => (i, j)) <$> seq (S i) (n - S i))).
    apply NoDup_fmap_2; [intros x y Hxy; congruence|apply NoDup_seq].
  - intros [i' j'] Hin Hin'. apply list_elem_of_In in Hin, Hin'.
    apply in_map_iff in Hin. destruct Hin as (j0 & Heq & _).
    injection Heq as <- <-.
    apply in_flat_map in Hin'. destruct Hin' as (i0 & Hi0 & Hin').
    apply in_map_iff in Hin'. destruct Hin' as (j1 & Heq & _).
    injection Heq as <- <-. apply Hi, list_elem_of_In, Hi0.
  - exact IH.
Qed.

(** X10. For [n >= 0], [get_all_pairs_indices n] passes its shape
    assertion and returns every pair [(i, j)] with [0 <= i < j < n]
    exactly once: [n (n - 1) / 2] rows, none repeated. *)
Theorem get_all_pairs_indices_complete (n : Z) :
  0 <= n ->
  exists pairs,
    get_all_pairs_indices n = Ok pairs /\
    (forall i j : Z, In (i, j) pairs <-> 0 <= i < j /\ j < n) /\
    NoDup pairs /\
    2 * Z.of_nat (length pairs) = n * (n - 1).
Proof.
  intros Hn. unfold get_all_pairs_indices.
  set (pairs := map _ (triu_indices (Z.to_nat n))).
  assert (2 * Z.of_nat (length pairs) = n * (n - 1)) as Hlen.
  { unfold pairs, triu_indices. rewrite length_map.
    pose proof (triu_rows_length (Z.to_nat n) (Z.to_nat n) 0 eq_refl) as H.
    nia. }
  exists pairs. split; [|split; [|split]].
  - apply Z.eqb_eq in Hlen. rewrite Hlen. reflexivity.
  - intros i j. unfold pairs. rewrite in_map_iff. split.
    + intros ([i' j'] & Heq & Hin). injection Heq as <- <-.
      apply triu_indices_In in Hin. cbn [fst snd]. lia.
    + intros [Hij Hjn]. exists (Z.to_nat i, Z.to_nat j). cbn [fst snd].
      split; [f_equal; lia|]. apply triu_indices_In. lia.
  - unfold pairs.
    change (NoDup ((fun p : nat * nat => (Z.of_nat (fst p), Z.of_nat (snd p)))
                     <$> triu_indices (Z.to_nat n))).
    apply NoDup_fmap_2.
    + intros [a b] [a' b'] Heq. injection Heq as Ha Hb. f_equal; lia.
    + apply triu_rows_NoDup, NoDup_seq.
  - exact Hlen.
Qed.

Lemma get_all_pairs_indices_complete_witness :
  exists pairs,
    get_all_pairs_indices 4 = Ok pairs /\
    (forall i j : Z, In (i, j) pairs <-> 0 <= i < j /\ j < 4) /\
    NoDup pairs /\
    2 * Z.of_nat (length pairs) = 4 * (4 - 1).
Proof. apply (get_all_pairs_indices_complete 4). lia. Defined.

Example get_all_pairs_indices_4 :
  get_all_pairs_indices 4 = Ok [(0, 1); (0, 2); (0, 3); (1, 2); (1, 3); (2, 3)].
Proof. reflexivity. Qed.

Lemma meshgrid_rows_lookup (a b : list Z) :
  forall (i j : nat) (x y : Z),
    a !! j = Some x -> b !! i = Some y ->
    flat_map (fun y => map (fun x => (x, y)) a) b !! (i * length a + j)%nat
    = Some (x, y).
Proof.
  induction b as [|y0 b IH]; intros i j x y Hx Hy; [discriminate|].
  cbn [flat_map]. pose proof (lookup_lt_Some _ _ _ Hx) as Hj.
  destruct i as [|i].
  - injection Hy as ->. cbn [Nat.mul Nat.add].
    rewrite lookup_app_l by (rewrite length_map; exact Hj).
    rewrite list_lookup_fmap, Hx. reflexivity.
  - rewrite lookup_app_r by (rewrite length_map; cbn; lia).
    rewrite length_map.
    replace (S i * length a + j - length a)%nat with (i * length a + j)%nat
      by (cbn; lia).
    apply IH; assumption.
Qed.

(** X11. [pairs_from_interaction_groups] never fails its shape assertion.
    It returns [len(a) * len(b)] rows, a pair [(x, y)] is a row exactly
    when [x] is in the first group and [y] in the second, and the row of
    [a[j]] and [b[i]] is at position [i * len(a) + j]: the second group
    varies slowest. *)
Theorem pairs_from_interaction_groups_spec (a b : list Z) :
  exists pairs,
    pairs_from_interaction_groups a b = Ok pairs /\
    length pairs = (length a * length b)%nat /\
    (forall x y : Z, In (x, y) pairs <-> In x a /\ In y b) /\
    (forall (i j : nat) (x y : Z),
        a !! j = Some x -> b !! i = Some y ->
        pairs !! (i * length a + j)%nat = Some (x, y)).
Proof.
  unfold pairs_from_interaction_groups.
  set (pairs := flat_map _ b).
  assert (length pairs = (length a * length b)%nat) as Hlen.
  { unfold pairs. clear pairs. induction b as [|y b IH]; cbn [flat_map length].
    - lia.
    - rewrite length_app, length_map, IH. lia. }
  exists pairs. split; [|split; [exact Hlen|split]].
  - apply Nat.eqb_eq in Hlen. rewrite Hlen. reflexivity.
  - intros x y. unfold pairs. rewrite in_flat_map. split.
    + intros (y' & Hy' & Hin). apply in_map_iff in Hin.
      destruct Hin as (x' & Heq & Hx'). injection Heq as -> ->. tauto.
    + intros [Hx Hy]. exists y. split; [exact Hy|].
      apply in_map_iff. exists x. split; [reflexivity|exact Hx].
  - apply meshgrid_rows_lookup.
Qed.

Example pairs_from_interaction_groups_2_3 :
  pairs_from_interaction_groups [0; 1] [5; 6; 7]
  = Ok [(0, 5); (1, 5); (0, 6); (1, 6); (0, 7); (1, 7)].
Proof. reflexivity. Qed.

(** * ff/handlers/bonded.py *)

Import Bonded.

(** ** Python dictionaries *)

Section DictFacts.
Context {K V : Type} `{EqDecision K}.

Lemma dict_set_keys (d : list (K * V)) (k : K) (v : V) :
  map fst (dict_set k v d)
  = if decide (k ∈ map fst d) then map fst d else map fst d ++ [k].
Proof.
  induction d as [|[k' v'] d IH]; cbn [dict_set map fst].
  - destruct (decide _) as [Hin|_]; [|reflexivity].
    apply elem_of_nil in Hin. destruct Hin.
  - destruct (decide (k' = k)) as [->|Hne]; cbn [map fst].
    + destruct (decide (k ∈ k :: map fst d)) as [_|Hn]; [reflexivity|].
      exfalso. apply Hn. apply list_elem_of_here.
    + rewrite IH. destruct (decide (k ∈ map fst d)) as [Hin|Hnin];
        destruct (decide (k ∈ k' :: map fst d)) as [Hin'|Hnin'];
        try reflexivity.
      * exfalso. apply Hnin'. apply list_elem_of_further. exact Hin.
      * exfalso. apply elem_of_cons in Hin'.
        destruct Hin' as [?|?]; [congruence|contradiction].
Qed.

Lemma dict_set_NoDup (d : list (K * V)) (k : K) (v : V) :
  NoDup (map fst d) -> NoDup (map fst (dict_set k v d)).
Proof.
  intros Hnd. rewrite dict_set_keys. destruct (decide _) as [Hin|Hnin];
    [exact Hnd|].
  apply NoDup_app. split; [exact Hnd|]. split; [|apply NoDup_singleton].
  intros x Hx Hx'. apply list_elem_of_singleton in Hx'. subst x.
  exact (Hnin Hx).
Qed.

Lemma dict_set_lookup (d : list (K * V)) (k : K) (v : V) :
  NoDup (map fst d) ->
  forall k' v',
    In (k', v') (dict_set k v d) <->
    (k' = k /\ v' = v) \/ (k' <> k /\ In (k', v') d).
Proof.
  induction d as [|[k0 v0] d IH]; intros Hnd k' v'; cbn [dict_set].
  - cbn. split.
    + intros [Heq|[]]. injection Heq as <- <-. left. split; reflexivity.
    + intros [[-> ->]|[_ []]]. left. reflexivity.
  - cbn [map fst] in Hnd. apply NoDup_cons in Hnd. destruct Hnd as [Hk0 Hnd].
    destruct (decide (k0 = k)) as [->|Hne].
    + cbn [In]. split.
      * intros [Heq|Hin].
        -- injection Heq as <- <-. left. split; reflexivity.
        -- right. split; [|right; exact Hin]. intros ->. apply Hk0.
           apply list_elem_of_In, in_map_iff. exists (k, v'). split;
             [reflexivity|exact Hin].
      * intros [[-> ->]|[Hne [Heq|Hin]]].
        -- left. reflexivity.
        -- injection Heq as -> ->. contradiction.
        -- right. exact Hin.
    + cbn [In]. rewrite (IH Hnd). split.
      * intros [Heq|[[-> ->]|[Hne' Hin]]].
        -- injection Heq as <- <-. right. split; [exact Hne|left; reflexivity].
        -- left. split; reflexivity.
        -- right. split; [exact Hne'|right; exact Hin].
      * intros [[-> ->]|[Hne' [Heq|Hin]]].
        -- right. left. split; reflexivity.
        -- left. exact Heq.
        -- right. right. split; assumption.
Qed.
End DictFacts.

(** ** The valence dictionary *)

Section PatternLoop.
Context {TK : Toolkit}.
Variable key_of : list Z -> Result (list Z).
Variable mol : Mol TK.

Lemma key_among_dec (ms : list (list Z)) (k : list Z) :
  key_among key_of ms k \/ ~ key_among key_of ms k.
Proof.
  induction ms as [|m ms IH].
  - right. intros (m & [] & _).
  - destruct IH as [(m' & Hin & Hk)|Hno].
    + left. exists m'. split; [right; exact Hin|exact Hk].
    + destruct (key_of m) as [e|k'] eqn:Hm.
      * right. intros (m' & [<-|Hin] & Hk); [rewrite Hm in Hk; discriminate|].
        apply Hno. exists m'. split; assumption.
      * destruct (decide (k' = k)) as [->|Hne].
        -- left. exists m. split; [left; reflexivity|exact Hm].
        -- right. intros (m' & [<-|Hin] & Hk).
           ++ rewrite Hm in Hk. injection Hk as ->. contradiction.
           ++ apply Hno. exists m'. split; assumption.
Qed.

Lemma add_matches_spec (p : nat) (todo : list (list Z)) :
  forall vd vd',
    add_matches key_of p todo vd = Ok vd' ->
    NoDup (map fst vd) ->
    NoDup (map fst vd') /\
    forall k v,
      In (k, v) vd' <->
      (v = p /\ key_among key_of todo k) \/
      (~ key_among key_of todo k /\ In (k, v) vd).
Proof.
  induction todo as [|m todo IH]; intros vd vd' Hrun Hnd.
  - cbn in Hrun. injection Hrun as <-. split; [exact Hnd|].
    intros k v. split.
    + intros Hin. right. split; [intros (m & [] & _)|exact Hin].
    + intros [[_ (m & [] & _)]|[_ Hin]]. exact Hin.
  - cbn [add_matches] in Hrun. inv_bind Hrun as key Hkey.
    destruct (IH _ _ Hrun (dict_set_NoDup vd key p Hnd)) as [Hnd' Hin'].
    split; [exact Hnd'|]. intros k v. rewrite Hin'.
    rewrite (dict_set_lookup vd key p Hnd). split.
    + intros [[-> (m' & Hm' & Hk)]|[Hno [[-> ->]|[Hne Hin]]]].
      * left. split; [reflexivity|]. exists m'. split; [right|]; assumption.
      * left. split; [reflexivity|]. exists m. split; [left; reflexivity|].
        exact Hkey.
      * right. split; [|exact Hin]. intros (m' & [<-|Hm'] & Hk).
        -- rewrite Hkey in Hk. injection Hk as ->. contradiction.
        -- apply Hno. exists m'. split; assumption.
    + intros [[-> (m' & [<-|Hm'] & Hk)]|[Hno Hin]].
      * rewrite Hkey in Hk. injection Hk as ->.
        destruct (key_among_dec todo k) as [Hyes|Hno'].
        -- left. split; [reflexivity|exact Hyes].
        -- right. split; [exact Hno'|]. left. split; reflexivity.
      * left. split; [reflexivity|]. exists m'. split; assumption.
      * right. split.
        -- intros (m' & Hm' & Hk). apply Hno. exists m'.
           split; [right|]; assumption.
        -- right. split; [|exact Hin]. intros ->. apply Hno.
           exists m. split; [left; reflexivity|exact Hkey].
Qed.

Lemma pattern_loop_spec (smirks : list string) :
  forall rest pre vd vd',
    smirks = pre ++ rest ->
    pattern_loop key_of mol (length pre) rest vd = Ok vd' ->
    dict_upto key_of mol smirks (length pre) vd ->
    dict_upto key_of mol smirks (length smirks) vd'.
Proof.
  induction rest as [|patt rest IH]; intros pre vd vd' Hsm Hrun Hinv.
  - cbn in Hrun. injection Hrun as <-. subst smirks.
    rewrite app_nil_r in *. exact Hinv.
  - cbn [pattern_loop] in Hrun. inv_bind Hrun as ms Hms.
    inv_bind Hrun as vd1 Hadd.
    assert (smirks !! length pre = Some patt) as Hp.
    { subst smirks. rewrite lookup_app_r by lia.
      rewrite Nat.sub_diag. reflexivity. }
    assert (forall k, matched_by key_of mol smirks (length pre) k
                      <-> key_among key_of ms k) as Hhit.
    { intros k. split.
      - intros (patt' & ms' & m & Hp' & Hms' & Hin & Hk).
        rewrite Hp in Hp'. injection Hp' as <-. rewrite Hms in Hms'.
        injection Hms' as <-. exists m. split; assumption.
      - intros (m & Hin & Hk). exists patt, ms, m.
        repeat split; assumption. }
    destruct Hinv as [Hnd Hin].
    destruct (add_matches_spec _ _ _ _ Hadd Hnd) as [Hnd1 Hin1].
    apply (IH (pre ++ [patt]) vd1 vd').
    + subst smirks. rewrite <- app_assoc. reflexivity.
    + rewrite length_app. cbn [length].
      replace (length pre + 1)%nat with (S (length pre)) by lia. exact Hrun.
    + split; [exact Hnd1|]. intros k v. rewrite Hin1, Hin, <- Hhit.
      rewrite length_app. cbn [length]. split.
      * intros [[-> Hm]|[Hno (Hlt & Hm & Hlast)]].
        -- split; [lia|]. split; [exact Hm|]. intros v' H1 H2. lia.
        -- split; [lia|]. split; [exact Hm|]. intros v' H1 H2.
           destruct (Nat.eq_dec v' (length pre)) as [->|Hne]; [exact Hno|].
           apply Hlast; lia.
      * intros (Hlt & Hm & Hlast).
        destruct (Nat.eq_dec v (length pre)) as [->|Hne].
        -- left. split; [reflexivity|exact Hm].
        -- right. split; [apply Hlast; lia|]. split; [lia|].
           split; [exact Hm|]. intros v' H1 H2. apply Hlast; lia.
Qed.

Lemma matched_by_lt (smirks : list string) (p : nat) (k : list Z) :
  matched_by key_of mol smirks p k -> (p < length smirks)%nat.
Proof.
  intros (patt & _ & _ & Hp & _). exact (lookup_lt_Some _ _ _ Hp).
Qed.

(** The dictionary after the loop over all the patterns. *)
Lemma pattern_loop_last_match (smirks : list string) (vd : list (list Z * nat)) :
  pattern_loop key_of mol 0 smirks [] = Ok vd ->
  NoDup (map fst vd) /\
  forall k v, In (k, v) vd <-> last_match key_of mol smirks v k.
Proof.
  intros Hrun.
  destruct (pattern_loop_spec smirks smirks [] [] vd eq_refl Hrun) as [Hnd Hin].
  { split; [constructor|]. intros k v. split; [intros []|].
    intros (Hlt & _). cbn in Hlt. lia. }
  split; [exact Hnd|]. intros k v. rewrite Hin. unfold last_match. split.
  - intros (_ & Hm & Hlast). split; [exact Hm|]. intros p' Hlt Hm'.
    exact (Hlast p' Hlt (matched_by_lt _ _ _ Hm') Hm').
  - intros (Hm & Hlast). split; [exact (matched_by_lt _ _ _ Hm)|].
    split; [exact Hm|]. intros v' Hlt _. exact (Hlast v' Hlt).
Qed.
End PatternLoop.

Section ValenceDict.
Context {TK : Toolkit}.

Lemma matched_by_dec (key_of : list Z -> Result (list Z)) (mol : Mol TK)
    (smirks : list string) (p : nat) (k : list Z) :
  matched_by key_of mol smirks p k \/ ~ matched_by key_of mol smirks p k.
Proof.
  unfold matched_by. destruct (smirks !! p) as [patt|] eqn:Hp.
  - destruct (match_smirks TK mol patt) as [e|ms] eqn:Hms.
    + right. intros (patt' & ms' & m & Hp' & Hms' & _).
      injection Hp' as <-. rewrite Hms in Hms'. discriminate.
    + destruct (key_among_dec key_of ms k) as [(m & Hin & Hk)|Hno].
      * left. exists patt, ms, m. repeat split; assumption.
      * right. intros (patt' & ms' & m & Hp' & Hms' & Hin & Hk).
        injection Hp' as <-. rewrite Hms in Hms'. injection Hms' as <-.
        apply Hno. exists m. split; assumption.
  - right. intros (patt' & ms' & m & Hp' & _). discriminate.
Qed.

Lemma matched_by_last (key_of : list Z -> Result (list Z)) (mol : Mol TK)
    (smirks : list string) (k : list Z) (p : nat) :
  matched_by key_of mol smirks p k ->
  exists q, last_match key_of mol smirks q k.
Proof.
  intros Hp.
  assert (forall n : nat,
             (forall v, matched_by key_of mol smirks v k -> (v < n)%nat) ->
             exists q, last_match key_of mol smirks q k) as Hmax.
  { induction n as [|n IH]; intros Hbound.
    - apply Hbound in Hp. lia.
    - destruct (matched_by_dec key_of mol smirks n k) as [Hn|Hn].
      + exists n. split; [exact Hn|]. intros p' Hlt Hm.
        apply Hbound in Hm. lia.
      + apply IH. intros v Hv.
        destruct (Nat.eq_dec v n) as [->|Hne]; [contradiction|].
        apply Hbound in Hv. lia. }
  apply (Hmax (length smirks)). intros v Hv.
  exact (matched_by_lt key_of mol smirks v k Hv).
Qed.

Lemma take_rows_Ok {A} (a : list A) (idxs : list nat) :
  Forall (fun i => (i < length a)%nat) idxs ->
  exists xs,
    take_rows a idxs = Ok xs /\ Forall2 (fun i x => a !! i = Some x) idxs xs.
Proof.
  induction 1 as [|i idxs Hi Hall (xs & Hxs & Hrel)].
  - exists []. split; [reflexivity|constructor].
  - destruct (lookup_lt_is_Some_2 a i Hi) as [x Hx].
    exists (x :: xs). cbn [take_rows]. rewrite Hx, Hxs.
    split; [reflexivity|]. constructor; assumption.
Qed.

Lemma take_rows_inv {A} (a : list A) (idxs : list nat) (xs : list A) :
  take_rows a idxs = Ok xs -> Forall2 (fun i x => a !! i = Some x) idxs xs.
Proof.
  revert xs. induction idxs as [|i idxs IH]; intros xs H.
  - cbn in H. injection H as <-. constructor.
  - cbn [take_rows] in H. destruct (a !! i) as [x|] eqn:Hx; [|discriminate].
    inv_bind H as x' Hx'. injection Hx' as <-. inv_bind H as xs' Hxs.
    injection H as <-. constructor; [exact Hx|]. apply IH, Hxs.
Qed.
End ValenceDict.

(** The valence dictionary as the two arrays that [generate_vd_idxs]
    returns. *)
Lemma generate_vd_idxs_dict {TK : Toolkit} (mol : Mol TK)
    (smirks : list string) (bond_idxs : list (list Z)) (param_idxs : list nat) :
  generate_vd_idxs mol smirks = Ok (bond_idxs, param_idxs) ->
  exists vd,
    pattern_loop (canonicalize_bond TK) mol 0 smirks [] = Ok vd /\
    bond_idxs = map fst vd /\ param_idxs = map snd vd.
Proof.
  unfold generate_vd_idxs. intros H. inv_bind H as vd Hvd.
  injection H as <- <-. exists vd. repeat split. exact Hvd.
Qed.

Lemma generate_vd_idxs_facts {TK : Toolkit} (mol : Mol TK)
    (smirks : list string) (bond_idxs : list (list Z)) (param_idxs : list nat) :
  generate_vd_idxs mol smirks = Ok (bond_idxs, param_idxs) ->
  length bond_idxs = length param_idxs /\
  (forall (i : nat) k p,
      bond_idxs !! i = Some k -> param_idxs !! i = Some p ->
      last_match (canonicalize_bond TK) mol smirks p k).
Proof.
  intros H. apply generate_vd_idxs_dict in H.
  destruct H as (vd & Hvd & -> & ->).
  destruct (pattern_loop_last_match _ _ _ _ Hvd) as [Hnd Hin].
  split; [rewrite !length_map; reflexivity|].
  intros i k p Hk Hp. apply Hin.
  change (map fst vd) with (fst <$> vd) in Hk.
  change (map snd vd) with (snd <$> vd) in Hp.
  rewrite list_lookup_fmap in Hk. rewrite list_lookup_fmap in Hp.
  destruct (vd !! i) as [[k' p']|] eqn:Hi; [|discriminate].
  injection Hk as <-. injection Hp as <-.
  apply list_elem_of_In, (list_elem_of_lookup_2 _ i), Hi.
Qed.

(** X12. [generate_vd_idxs] lists every matched bond once, under the
    orientation [canonicalize_bond] gives it, and beside it the index of
    the last pattern of [smirks] that matches it: a later pattern overrides
    the earlier ones. *)
Theorem generate_vd_idxs_last_match_wins {TK : Toolkit} (mol : Mol TK)
    (smirks : list string) (bond_idxs : list (list Z)) (param_idxs : list nat) :
  generate_vd_idxs mol smirks = Ok (bond_idxs, param_idxs) ->
  length bond_idxs = length param_idxs /\
  NoDup bond_idxs /\
  (forall k,
      In k bond_idxs <->
      exists p, matched_by (canonicalize_bond TK) mol smirks p k) /\
  (forall (i : nat) k p,
      bond_idxs !! i = Some k -> param_idxs !! i = Some p ->
      last_match (canonicalize_bond TK) mol smirks p k).
Proof.
  intros H. destruct (generate_vd_idxs_facts _ _ _ _ H) as [Hlen Hlast].
  split; [exact Hlen|]. apply generate_vd_idxs_dict in H.
  destruct H as (vd & Hvd & -> & ->).
  destruct (pattern_loop_last_match _ _ _ _ Hvd) as [Hnd Hin].
  split; [exact Hnd|]. split; [|exact Hlast].
  intros k. rewrite in_map_iff. split.
  - intros ([k' v] & <- & Hkv). apply Hin in Hkv. exists v. apply Hkv.
  - intros (p & Hp). destruct (matched_by_last _ _ _ _ _ Hp) as (q & Hq).
    exists (k, q). split; [reflexivity|]. apply Hin, Hq.
Qed.

Lemma generate_vd_idxs_last_match_wins_witness :
  generate_vd_idxs (TK := toy_toolkit) toy_mol toy_bond_smirks
  = Ok ([[0; 1]; [1; 2]], [0%nat; 1%nat]) /\
  last_match toy_canonicalize_bond toy_mol toy_bond_smirks 1 [1; 2].
Proof.
  split; [reflexivity|].
  destruct (generate_vd_idxs_last_match_wins (TK := toy_toolkit) toy_mol
              toy_bond_smirks [[0; 1]; [1; 2]] [0%nat; 1%nat] eq_refl)
    as (_ & _ & _ & Hlast).
  exact (Hlast 1%nat [1; 2] 1%nat eq_refl eq_refl).
Defined.

(** X13. A [ReversibleBondHandler] built by [__init__] parameterizes
    whenever [generate_vd_idxs] returns; it gives every matched bond the
    parameters of the last pattern that matches it. *)
Theorem parameterize_uses_last_match {TK : Toolkit} (smirks : list string)
    (params : list (Term TK)) (props : Props TK)
    (self : ReversibleBondHandler TK) (mol : Mol TK)
    (bond_idxs : list (list Z)) (param_idxs : list nat) :
  rbh_init smirks params props = Ok self ->
  generate_vd_idxs mol smirks = Ok (bond_idxs, param_idxs) ->
  exists assigned,
    rbh_parameterize self mol = Ok (assigned, bond_idxs) /\
    length assigned = length bond_idxs /\
    forall (i : nat) k t,
      bond_idxs !! i = Some k -> assigned !! i = Some t ->
      exists p,
        last_match (canonicalize_bond TK) mol smirks p k /\
        params !! p = Some t.
Proof.
  intros Hinit Hvd. unfold rbh_init in Hinit. inv_bind Hinit as u Hlen.
  injection Hinit as <-. apply py_assert_Ok, Nat.eqb_eq in Hlen.
  destruct (generate_vd_idxs_facts mol smirks bond_idxs param_idxs Hvd)
    as (Hl & Hlast).
  destruct (take_rows_Ok params param_idxs) as (assigned & Htake & Hrel).
  { apply Forall_forall. intros p Hp. apply list_elem_of_lookup in Hp.
    destruct Hp as [i Hi].
    destruct (lookup_lt_is_Some_2 bond_idxs i) as [k Hk].
    { rewrite Hl. exact (lookup_lt_Some _ _ _ Hi). }
    destruct (Hlast i k p Hk Hi) as [Hm _]. rewrite <- Hlen.
    exact (matched_by_lt _ _ _ _ _ Hm). }
  exists assigned. unfold rbh_parameterize, rbh_static_parameterize.
  cbn [rbh_params rbh_smirks]. rewrite Hvd. rsimpl. rewrite Htake. rsimpl.
  split; [reflexivity|].
  split; [rewrite Hl; symmetry; exact (Forall2_length _ _ _ Hrel)|].
  intros i k t Hk Ht.
  destruct (Forall2_lookup_r _ _ _ _ _ Hrel Ht) as (p & Hp & Hpt).
  exists p. split; [exact (Hlast i k p Hk Hp)|exact Hpt].
Qed.

Lemma parameterize_uses_last_match_witness :
  exists assigned,
    rbh_parameterize (TK := toy_toolkit) toy_bond_handler toy_mol
    = Ok (assigned, [[0; 1]; [1; 2]]) /\
    length assigned = 2%nat.
Proof.
  destruct (parameterize_uses_last_match (TK := toy_toolkit) toy_bond_smirks
              [10; 20] tt toy_bond_handler toy_mol [[0; 1]; [1; 2]]
              [0%nat; 1%nat]
              eq_refl eq_refl) as (assigned & Hcall & Hlen & _).
  exists assigned. split; [exact Hcall|exact Hlen].
Defined.

(** ** [lookup_smirks] *)

Section LookupSmirks.
Context {TK : Toolkit}.

Lemma lookup_smirks_from_missing (params : list (Term TK)) (query : string)
    (smirks : list string) :
  forall s_idx : nat,
    ~ In query smirks ->
    lookup_smirks_from params s_idx smirks query = Ok None.
Proof.
  induction smirks as [|s smirks IH]; intros s_idx Hno; [reflexivity|].
  cbn [lookup_smirks_from]. destruct (String.eqb_spec s query) as [->|Hne].
  - exfalso. apply Hno. left. reflexivity.
  - apply IH. intros Hin. apply Hno. right. exact Hin.
Qed.

Lemma lookup_smirks_from_first (params : list (Term TK)) (query : string)
    (smirks : list string) :
  forall (s_idx i : nat),
    smirks !! i = Some query ->
    (forall j : nat, (j < i)%nat -> smirks !! j <> Some query) ->
    lookup_smirks_from params s_idx smirks query
    = getitem (A := option (Term TK)) (map Some params) (s_idx + i).
Proof.
  induction smirks as [|s smirks IH]; intros s_idx i Hi Hfirst;
    [discriminate|].
  cbn [lookup_smirks_from]. destruct i as [|i].
  - injection Hi as ->. rewrite String.eqb_refl, Nat.add_0_r.
    unfold getitem. change (map Some params) with (Some <$> params).
    rewrite list_lookup_fmap. destruct (params !! s_idx); reflexivity.
  - destruct (String.eqb_spec s query) as [->|Hne].
    + exfalso. apply (Hfirst 0%nat); [lia|reflexivity].
    + rewrite (IH (S s_idx) i Hi).
      * replace (S s_idx + i)%nat with (s_idx + S i)%nat by lia. reflexivity.
      * intros j Hj. apply (Hfirst (S j)). lia.
Qed.
End LookupSmirks.

(** X14. [lookup_smirks] of a handler built by [__init__] returns [None],
    and does not raise, for a pattern the handler does not have; for a
    pattern it has, the parameters at the first position where the
    pattern occurs. *)
Theorem lookup_smirks_first_or_none {TK : Toolkit} (smirks : list string)
    (params : list (Term TK)) (props : Props TK)
    (self : ReversibleBondHandler TK) (query : string) :
  rbh_init smirks params props = Ok self ->
  (~ In query smirks -> lookup_smirks self query = Ok None) /\
  (forall i : nat,
      smirks !! i = Some query ->
      (forall j : nat, (j < i)%nat -> smirks !! j <> Some query) ->
      exists t, params !! i = Some t /\ lookup_smirks self query = Ok (Some t)).
Proof.
  intros Hinit. unfold rbh_init in Hinit. inv_bind Hinit as u Hlen.
  injection Hinit as <-. apply py_assert_Ok, Nat.eqb_eq in Hlen.
  unfold lookup_smirks. cbn [rbh_params rbh_smirks]. split.
  - apply lookup_smirks_from_missing.
  - intros i Hi Hfirst.
    destruct (lookup_lt_is_Some_2 params i) as [t Ht].
    { rewrite <- Hlen. exact (lookup_lt_Some _ _ _ Hi). }
    exists t. split; [exact Ht|].
    rewrite (lookup_smirks_from_first params query smirks 0 i Hi Hfirst).
    unfold getitem. change (map Some params) with (Some <$> params).
    rewrite list_lookup_fmap. cbn [Nat.add]. rewrite Ht. reflexivity.
Qed.

Lemma lookup_smirks_first_or_none_witness :
  lookup_smirks (TK := toy_toolkit) toy_repeated_handler "c"%string
  = Ok None /\
  exists t,
    ([10; 20; 30] : list Z) !! 0%nat = Some t /\
    lookup_smirks (TK := toy_toolkit) toy_repeated_handler "a"%string
    = Ok (Some t).
Proof.
  destruct (lookup_smirks_first_or_none (TK := toy_toolkit)
              ["a"; "b"; "a"]%string [10; 20; 30] tt toy_repeated_handler
              "c"%string eq_refl) as [Hnone _].
  destruct (lookup_smirks_first_or_none (TK := toy_toolkit)
              ["a"; "b"; "a"]%string [10; 20; 30] tt toy_repeated_handler
              "a"%string eq_refl) as [_ Hfirst].
  split.
  - apply Hnone. cbn. intros [H|[H|[H|[]]]]; discriminate.
  - apply (Hfirst 0%nat); [reflexivity|]. intros j Hj. lia.
Defined.

(** ** Proper and improper torsions of an OpenMM system *)

Section Prune.

Lemma rows_equal_true (a b : list Z) : rows_equal a b = true <-> a = b.
Proof. unfold rows_equal. apply bool_decide_eq_true. Qed.

Lemma any_match_true (t : list Z) (ms : list (list Z)) :
  existsb (fun b : bool => b)
    (map (fun pt_idx => rows_equal t pt_idx || rows_equal (rev t) pt_idx) ms)
  = true
  <-> In t ms \/ In (rev t) ms.
Proof.
  rewrite existsb_exists. split.
  - intros (b & Hin & ->). apply in_map_iff in Hin.
    destruct Hin as (pt & Hb & Hpt). apply orb_true_iff in Hb.
    destruct Hb as [Hb|Hb]; apply rows_equal_true in Hb; subst pt; tauto.
  - intros [Hin|Hin].
    + exists true. split; [|reflexivity]. apply in_map_iff. exists t.
      split; [|exact Hin]. apply orb_true_iff. left.
      apply rows_equal_true. reflexivity.
    + exists true. split; [|reflexivity]. apply in_map_iff. exists (rev t).
      split; [|exact Hin]. apply orb_true_iff. right.
      apply rows_equal_true. reflexivity.
Qed.


Lemma prune_torsions_from_In (ms : list (list Z)) (ts : list (list Z)) :
  forall i0 i : nat,
    In i (prune_torsions_from i0 ts ms) <->
    exists (j : nat) t,
      i = (i0 + j)%nat /\ ts !! j = Some t /\ (In t ms \/ In (rev t) ms).
Proof.
  induction ts as [|t ts IH]; intros i0 i; cbn [prune_torsions_from].
  - split; [intros []|intros (j & t & _ & H & _); discriminate].
  - rewrite in_app_iff, IH. split.
    + intros [Hin|(j & t' & -> & Hj & Hm)].
      * destruct (existsb _ _) eqn:Hany; [|destruct Hin].
        destruct Hin as [<-|[]]. exists 0%nat, t.
        split; [lia|]. split; [reflexivity|]. apply any_match_true, Hany.
      * exists (S j), t'. split; [lia|]. split; assumption.
    + intros ([|j] & t' & -> & Hj & Hm).
      * left. injection Hj as ->. apply any_match_true in Hm. rewrite Hm.
        left. lia.
      * right. exists j, t'. split; [lia|]. split; assumption.
Qed.

Lemma prune_torsions_from_sorted (ms : list (list Z)) (ts : list (list Z)) :
  forall i0 : nat, StronglySorted lt (prune_torsions_from i0 ts ms).
Proof.
  induction ts as [|t ts IH]; intros i0; cbn [prune_torsions_from];
    [constructor|].
  destruct (existsb _ _); cbn [app]; [|apply IH].
  constructor; [apply IH|]. apply Forall_forall. intros i Hi.
  apply list_elem_of_In, prune_torsions_from_In in Hi.
  destruct Hi as (j & _ & -> & _). lia.
Qed.

End Prune.


Example prune_torsions_toy :
  prune_torsions toy_omm_torsions toy_pt_torsions = [0%nat; 2%nat].
Proof. reflexivity. Qed.

Section Annotate.
Context {TK : Toolkit}.

Lemma nat_in_In (i : nat) (l : list nat) : nat_in i l = true <-> In i l.
Proof.
  unfold nat_in. rewrite existsb_exists. split.
  - intros (x & Hx & Heq). apply Nat.eqb_eq in Heq. subst x. exact Hx.
  - intros Hin. exists i. split; [exact Hin|apply Nat.eqb_refl].
Qed.

Lemma StronglySorted_lt_NoDup (l : list nat) : StronglySorted lt l -> NoDup l.
Proof.
  induction 1 as [|x l Hl IH Hx]; constructor; [|exact IH].
  intros Hin. rewrite Forall_forall in Hx. apply Hx in Hin. lia.
Qed.

Lemma complement_partition (N : nat) (pt : list nat) :
  NoDup pt -> (forall i, In i pt -> (i < N)%nat) ->
  pt ++ List.filter (fun idx => negb (nat_in idx pt)) (seq 0 N) ≡ₚ seq 0 N.
Proof.
  intros Hnd Hlt. apply NoDup_Permutation.
  - apply NoDup_app. split; [exact Hnd|]. split.
    + intros x Hx Hx'. apply list_elem_of_In, filter_In in Hx'.
      destruct Hx' as [_ Hx']. apply negb_true_iff in Hx'.
      apply list_elem_of_In, nat_in_In in Hx. congruence.
    + apply NoDup_ListNoDup, List.NoDup_filter, seq_NoDup.
  - apply NoDup_seq.
  - intros x. rewrite elem_of_app, !list_elem_of_In, filter_In, in_seq. split.
    + intros [Hx|[Hx _]]; [apply Hlt in Hx|]; lia.
    + intros Hx. destruct (nat_in x pt) eqn:Hin.
      * left. apply nat_in_In, Hin.
      * right. split; [lia|]. reflexivity.
Qed.
End Annotate.

(** What [annotate_mol_sys_torsions] sets on the molecule when it is given
    no graph. *)
Lemma annotate_without_graph {TK : Toolkit} {K : Type} (nonzero : K -> bool)
    (mol : PyMol TK) (omm_system : OmmSystem TK) (smirks : list string)
    (mol' : PyMol TK) :
  annotate_mol_sys_torsions nonzero mol omm_system None smirks = Ok mol' ->
  exists f idxs params pt_torsion_idxs param_idxs,
    periodic_torsion_forces TK omm_system = [f] /\
    idxs_params_from_t TK [f] = Ok (idxs, params) /\
    generate_vd_idxs (rd_mol mol) smirks = Ok (pt_torsion_idxs, param_idxs) /\
    mol' = {| rd_mol := rd_mol mol;
              annotation :=
                Some {| openmm_system := omm_system;
                        pt_idxs := prune_torsions idxs pt_torsion_idxs;
                        it_idxs :=
                          List.filter
                            (fun idx =>
                               negb (nat_in idx
                                       (prune_torsions idxs pt_torsion_idxs)))
                            (seq 0 (length idxs)) |} |}.
Proof.
  unfold annotate_mol_sys_torsions. intros H.
  inv_bind H as u Hone. apply py_assert_Ok, Nat.eqb_eq in Hone.
  destruct (periodic_torsion_forces TK omm_system) as [|f [|f' fs]] eqn:Hptfs;
    try discriminate Hone.
  inv_bind H as f0 Hf0. injection Hf0 as <-.
  inv_bind H as [idxs params] Hidxs.
  inv_bind H as [pt it] Hsplit. injection H as <-.
  inv_bind Hsplit as [pts pis] Hvd. inv_bind Hsplit as u' Hlen.
  injection Hsplit as <- <-.
  exists f, idxs, params, pts, pis. repeat split; assumption.
Qed.

Lemma prune_torsions_partition (idxs pts : list (list Z)) :
  prune_torsions idxs pts ++
  List.filter (fun idx => negb (nat_in idx (prune_torsions idxs pts)))
    (seq 0 (length idxs))
  ≡ₚ seq 0 (length idxs).
Proof.
  apply complement_partition.
  - apply StronglySorted_lt_NoDup, prune_torsions_from_sorted.
  - intros i Hi. apply prune_torsions_from_In in Hi.
    destruct Hi as (j & t & -> & Hj & _). exact (lookup_lt_Some _ _ _ Hj).
Qed.

(** X16. When [annotate_mol_sys_torsions] returns, the indices it stores
    as [pt_idxs] and [it_idxs] split the torsions of the system: every
    torsion is listed once, as proper or as improper. Without a graph the
    torsions are those read from the system and the proper ones are those
    that [prune_torsions] finds among the matches of the proper-torsion
    patterns; with a graph their number is [getNumTorsions()]. *)
Theorem annotate_splits_torsions {TK : Toolkit} {K : Type}
    (nonzero : K -> bool) (mol : PyMol TK) (omm_system : OmmSystem TK)
    (mol_graph : option (Graph K)) (smirks : list string) (mol' : PyMol TK) :
  annotate_mol_sys_torsions nonzero mol omm_system mol_graph smirks = Ok mol' ->
  exists a f idxs params,
    annotation mol' = Some a /\
    rd_mol mol' = rd_mol mol /\
    openmm_system a = omm_system /\
    periodic_torsion_forces TK omm_system = [f] /\
    idxs_params_from_t TK [f] = Ok (idxs, params) /\
    pt_idxs a ++ it_idxs a
    ≡ₚ seq 0 (match mol_graph with
               | None => length idxs
               | Some _ => Z.to_nat (getNumTorsions TK f)
               end) /\
    (mol_graph = None ->
     exists pt_torsion_idxs param_idxs,
       generate_vd_idxs (rd_mol mol) smirks = Ok (pt_torsion_idxs, param_idxs) /\
       pt_idxs a = prune_torsions idxs pt_torsion_idxs).
Proof.
  destruct mol_graph as [g|]; intros H.
  - unfold annotate_mol_sys_torsions in H.
    inv_bind H as u Hone. apply py_assert_Ok, Nat.eqb_eq in Hone.
    destruct (periodic_torsion_forces TK omm_system) as [|f [|f' fs]]
      eqn:Hptfs; try discriminate Hone.
    inv_bind H as f0 Hf0. injection Hf0 as <-.
    inv_bind H as [idxs params] Hidxs.
    inv_bind H as [pt it] Hsplit. injection H as <-.
    destruct (query_pt_it_idxs_from_g nonzero g) as [p i] eqn:Hq.
    inv_bind Hsplit as u' Hnum. injection Hsplit as <- <-.
    apply py_assert_Ok, Z.eqb_eq in Hnum.
    exists {| openmm_system := omm_system; pt_idxs := p; it_idxs := i |},
      f, idxs, params.
    cbn [annotation rd_mol openmm_system pt_idxs it_idxs].
    do 4 (split; [reflexivity|]). split; [exact Hidxs|].
    split; [|discriminate].
    unfold query_pt_it_idxs_from_g in Hq. injection Hq as <- <-.
    rewrite !length_seq in Hnum. rewrite <- Hnum, Nat2Z.id.
    rewrite <- seq_app. reflexivity.
  - apply annotate_without_graph in H.
    destruct H as (f & idxs & params & pts & pis & Hf & Hidxs & Hvd & ->).
    eexists _, f, idxs, params.
    cbn [annotation rd_mol openmm_system pt_idxs it_idxs].
    split; [reflexivity|]. cbn [openmm_system pt_idxs it_idxs].
    do 2 (split; [reflexivity|]). split; [exact Hf|]. split; [exact Hidxs|].
    split; [apply prune_torsions_partition|].
    intros _. exists pts, pis. split; [exact Hvd|reflexivity].
Qed.

Lemma annotate_splits_torsions_witness :
  exists mol' a,
    annotate_mol_sys_torsions (TK := toy_toolkit) (fun _ : unit => true)
      toy_torsion_mol (toy_omm_torsions, [1; 2; 3; 4]) None
      ["[*:1]~[*:2]~[*:3]~[*:4]"%string] = Ok mol' /\
    annotation mol' = Some a /\
    pt_idxs a = [0; 2]%nat /\
    pt_idxs a ++ it_idxs a ≡ₚ seq 0 4.
Proof.
  destruct (annotate_mol_sys_torsions (TK := toy_toolkit) (fun _ : unit => true)
              toy_torsion_mol (toy_omm_torsions, [1; 2; 3; 4]) None
              ["[*:1]~[*:2]~[*:3]~[*:4]"%string]) as [e|mol'] eqn:Hcall;
    [discriminate Hcall|].
  destruct (annotate_splits_torsions (TK := toy_toolkit) (fun _ : unit => true)
              toy_torsion_mol (toy_omm_torsions, [1; 2; 3; 4]) None
              ["[*:1]~[*:2]~[*:3]~[*:4]"%string] mol' Hcall)
    as (a & f & idxs & params & Ha & _ & _ & Hf & Hidxs & Hperm & _).
  exists mol', a. split; [reflexivity|]. split; [exact Ha|].
  injection Hf as <-. injection Hidxs as <- _.
  split; [|exact Hperm].
  injection Hcall as <-. injection Ha as <-. reflexivity.
Defined.

(** ** [ProperTorsionHandler] *)

Section ProperTorsions.
Context {TK : Toolkit}.

Lemma pth_init_loop_eq (smirks : list string) :
  forall (params : list (list (Term TK))) cs ss ps,
    pth_init_loop smirks params cs ss ps
    = (cs ++ map (fun st => length (snd st)) (zip smirks params),
       ss ++ map fst (zip smirks params),
       ps ++ flat_map snd (zip smirks params)).
Proof.
  induction smirks as [|smi smirks IH]; intros [|terms params] cs ss ps;
    cbn [pth_init_loop zip zip_with map flat_map]; rewrite ?app_nil_r;
    try reflexivity.
  rewrite IH. cbn [fst snd]. rewrite <- !app_assoc. reflexivity.
Qed.

Lemma pth_init_fields (smirks : list string) (params : list (list (Term TK)))
    (props : Props TK) :
  pth_counts (pth_init smirks params props)
  = map (fun st => length (snd st)) (zip smirks params) /\
  pth_smirks (pth_init smirks params props) = map fst (zip smirks params) /\
  pth_params (pth_init smirks params props)
  = flat_map snd (zip smirks params).
Proof.
  unfold pth_init. rewrite pth_init_loop_eq. cbn. repeat split.
Qed.

(** The number of terms before pattern [p]. *)
Lemma cumsum_from_lookup (counts : list nat) :
  forall (acc p : nat),
    (p < length counts)%nat ->
    cumsum_from acc counts !! p
    = Some (acc + sum_list (take (S p) counts))%nat.
Proof.
  induction counts as [|c counts IH]; intros acc p Hp; [cbn in Hp; lia|].
  cbn [cumsum_from]. destruct p as [|p].
  - cbn [lookup list_lookup]. rewrite firstn_cons, take_0. cbn. f_equal. lia.
  - cbn [lookup list_lookup]. rewrite IH by (cbn in Hp; lia).
    rewrite (firstn_cons (S p)). cbn [sum_list_with]. f_equal.
    unfold Datatypes.id. lia.
Qed.

Lemma pfxsum_lookup (counts : list nat) (p : nat) :
  (p <= length counts)%nat ->
  (0%nat :: cumsum_from 0 counts) !! p = Some (sum_list (take p counts)).
Proof.
  intros Hp. destruct p as [|p]; [reflexivity|].
  cbn [lookup list_lookup]. rewrite cumsum_from_lookup by lia. reflexivity.
Qed.

Lemma sum_list_take_S (counts : list nat) (p c : nat) :
  counts !! p = Some c ->
  sum_list (take (S p) counts) = (sum_list (take p counts) + c)%nat.
Proof.
  intros Hp. rewrite (take_S_r _ _ _ Hp), sum_list_with_app. cbn.
  unfold Datatypes.id. lia.
Qed.

Lemma scatter_loop_eq (counts : list nat) (param_idxs : list nat) :
  Forall (fun p => (p < length counts)%nat) param_idxs ->
  forall scatter_idxs repeats,
    scatter_loop (0%nat :: cumsum_from 0 counts) counts param_idxs
      scatter_idxs repeats
    = Ok (scatter_idxs ++
          flat_map (fun p => seq (sum_list (take p counts))
                               (default 0%nat (counts !! p))) param_idxs,
          repeats ++ map (fun p => default 0%nat (counts !! p)) param_idxs).
Proof.
  induction 1 as [|p ps Hp Hps IH]; intros scatter_idxs repeats.
  - cbn. rewrite !app_nil_r. reflexivity.
  - cbn [scatter_loop]. unfold getitem.
    destruct (lookup_lt_is_Some_2 counts p Hp) as [c Hc].
    rewrite (pfxsum_lookup counts p) by lia.
    replace (p + 1)%nat with (S p) by lia.
    rewrite (pfxsum_lookup counts (S p)) by lia. rewrite Hc. rsimpl.
    rewrite IH. cbn [flat_map map]. rewrite Hc.
    change (default 0%nat (Some c)) with c.
    rewrite (sum_list_take_S counts p c Hc).
    replace (sum_list (take p counts) + c - sum_list (take p counts))%nat
      with c by lia.
    rewrite <- !app_assoc. reflexivity.
Qed.

Lemma take_rows_app {A} (a : list A) (l1 l2 : list nat) :
  take_rows a (l1 ++ l2)
  = let! x1 := take_rows a l1 in
    let! x2 := take_rows a l2 in
    Ok (x1 ++ x2).
Proof.
  induction l1 as [|i l1 IH]; cbn [app take_rows].
  - rsimpl. destruct (take_rows a l2); reflexivity.
  - destruct (a !! i) as [x|]; [|reflexivity]. rsimpl. rewrite IH.
    destruct (take_rows a l1) as [e|x1]; [reflexivity|]. rsimpl.
    destruct (take_rows a l2) as [e|x2]; reflexivity.
Qed.

Lemma take_rows_seq {A} (pre ts post : list A) :
  take_rows (pre ++ ts ++ post) (seq (length pre) (length ts)) = Ok ts.
Proof.
  revert pre. induction ts as [|t ts IH]; intros pre; [reflexivity|].
  cbn [length seq take_rows].
  rewrite lookup_app_r by lia. rewrite Nat.sub_diag. cbn [app lookup list_lookup].
  rsimpl. specialize (IH (pre ++ [t])).
  rewrite <- app_assoc, length_app in IH. cbn [app length] in IH.
  replace (length pre + 1)%nat with (S (length pre)) in IH by lia.
  rewrite IH. reflexivity.
Qed.

(** The terms of pattern [p] are the slice of the flattened parameters
    between the prefix sums. *)
Lemma take_rows_slice (tss : list (list (Term TK))) (p : nat)
    (ts : list (Term TK)) :
  tss !! p = Some ts ->
  take_rows (concat tss)
    (seq (sum_list (take p (map length tss))) (length ts))
  = Ok ts.
Proof.
  intros Hp. rewrite <- (take_drop_middle tss p ts Hp) at 1.
  rewrite concat_app, concat_cons.
  assert (sum_list (take p (map length tss)) = length (concat (take p tss)))
    as ->.
  { change (map length tss) with (length <$> tss).
    rewrite <- fmap_take, length_concat. reflexivity. }
  apply take_rows_seq.
Qed.

Lemma take_rows_slices (tss : list (list (Term TK))) (param_idxs : list nat) :
  Forall (fun p => (p < length tss)%nat) param_idxs ->
  take_rows (concat tss)
    (flat_map (fun p => seq (sum_list (take p (map length tss)))
                          (default 0%nat (map length tss !! p))) param_idxs)
  = Ok (flat_map (fun p => default [] (tss !! p)) param_idxs).
Proof.
  induction 1 as [|p ps Hp Hps IH]; [reflexivity|].
  cbn [flat_map]. rewrite take_rows_app, IH.
  destruct (lookup_lt_is_Some_2 tss p Hp) as [ts Hts].
  assert (map length tss !! p = Some (length ts)) as ->.
  { change (map length tss) with (length <$> tss).
    rewrite list_lookup_fmap, Hts. reflexivity. }
  rewrite Hts. change (default 0%nat (Some (length ts))) with (length ts).
  rewrite (take_rows_slice tss p ts Hts). reflexivity.
Qed.
End ProperTorsions.

Section ProperTorsionsMain.
Context {TK : Toolkit}.

Lemma np_repeat_map {A} (f : nat -> nat) (a : list A) :
  forall ps : list nat,
    np_repeat a (map f ps)
    = flat_map (fun tp => replicate (f (snd tp)) (fst tp)) (zip a ps).
Proof.
  unfold np_repeat. induction a as [|x a IH]; intros [|p ps]; try reflexivity.
  cbn [map zip zip_with flat_map fst snd]. f_equal. apply IH.
Qed.

Lemma flat_map_ext_Forall {A B} (f g : A -> list B) (P : A -> Prop)
    (l : list A) :
  Forall P l -> (forall x, P x -> f x = g x) -> flat_map f l = flat_map g l.
Proof.
  intros Hl Hfg. induction Hl as [|x l Hx Hl IH]; [reflexivity|].
  cbn [flat_map]. rewrite (Hfg x Hx), IH. reflexivity.
Qed.

Lemma take_rows_length {A} (a : list A) (idxs : list nat) (xs : list A) :
  take_rows a idxs = Ok xs -> length xs = length idxs.
Proof.
  intros H. apply take_rows_inv in H. symmetry.
  exact (Forall2_length _ _ _ H).
Qed.

(** [static_parameterize] on flattened parameters and their counts. *)
Lemma pth_static_parameterize_eq (tss : list (list (Term TK)))
    (smirks : list string) (mol : PyMol TK) (torsion_idxs : list (list Z))
    (param_idxs : list nat) :
  annotation mol = None ->
  generate_vd_idxs (rd_mol mol) smirks = Ok (torsion_idxs, param_idxs) ->
  length smirks = length tss ->
  pth_static_parameterize (concat tss) smirks (map length tss) mol
  = match param_idxs, assigned_terms tss param_idxs with
    | _ :: _, [] => Raise IndexError
    | _, assigned =>
        Ok (assigned, repeated_idxs tss torsion_idxs param_idxs)
    end.
Proof.
  intros Hann Hvd Hlen. unfold pth_static_parameterize. rewrite Hann, Hvd.
  rsimpl.
  destruct (generate_vd_idxs_facts _ _ _ _ Hvd) as (Hl & Hlast).
  assert (Forall (fun p => (p < length tss)%nat) param_idxs) as Hps.
  { apply Forall_forall. intros p Hp. apply list_elem_of_lookup in Hp.
    destruct Hp as [i Hi].
    destruct (lookup_lt_is_Some_2 torsion_idxs i) as [k Hk].
    { rewrite Hl. exact (lookup_lt_Some _ _ _ Hi). }
    destruct (Hlast i k p Hk Hi) as [Hm _]. rewrite <- Hlen.
    exact (matched_by_lt _ _ _ _ _ Hm). }
  apply Nat.eqb_eq in Hl. rewrite Hl. cbn [py_assert]. rsimpl.
  rewrite scatter_loop_eq by (rewrite length_map; exact Hps). rsimpl.
  cbn [app].
  assert (take_rows (concat tss)
            (flat_map (fun p => seq (sum_list (take p (map length tss)))
                                  (default 0%nat (map length tss !! p)))
               param_idxs)
          = Ok (assigned_terms tss param_idxs)) as Htake
    by (apply take_rows_slices; exact Hps).
  assert (np_repeat torsion_idxs
            (map (fun p => default 0%nat (map length tss !! p)) param_idxs)
          = repeated_idxs tss torsion_idxs param_idxs) as ->.
  { rewrite np_repeat_map. unfold repeated_idxs, terms_of.
    apply (flat_map_ext_Forall _ _ (fun tp => True)); [apply Forall_true; auto|].
    intros [t p] _. cbn [fst snd].
    change (map length tss) with (length <$> tss).
    rewrite list_lookup_fmap. destruct (tss !! p); reflexivity. }
  destruct param_idxs as [|p ps].
  - cbn. destruct torsion_idxs; reflexivity.
  - cbn [length Nat.ltb Nat.leb]. unfold take_rows_of_list.
    set (scatter :=
           flat_map (fun p0 => seq (sum_list (take p0 (map length tss)))
                                 (default 0%nat (map length tss !! p0)))
             (p :: ps)) in *.
    remember (assigned_terms tss (p :: ps)) as assigned eqn:Hassigned.
    clear Hassigned. destruct scatter as [|i scatter].
    + cbn [take_rows] in Htake. injection Htake as <-. reflexivity.
    + rewrite Htake. rsimpl. apply take_rows_length in Htake.
      destruct assigned; [discriminate Htake|]. reflexivity.
Qed.

Lemma zip_snd_lookup {A B} (l : list A) (k : list B) (p : nat) :
  (p < length (zip l k))%nat -> map snd (zip l k) !! p = k !! p.
Proof.
  intros Hp. change (map snd (zip l k)) with (snd <$> zip l k).
  rewrite list_lookup_fmap.
  destruct (lookup_lt_is_Some_2 _ _ Hp) as [[x y] Hxy]. rewrite Hxy.
  apply lookup_zip_Some in Hxy. destruct Hxy as [_ ->]. reflexivity.
Qed.
End ProperTorsionsMain.

(** X17. A [ProperTorsionHandler] built by [__init__] from per-pattern
    lists of terms gives every matched torsion all the terms of the last
    pattern that matches it, and repeats the torsion's indices once per
    term: slicing the flattened parameters by the prefix sums of the
    counts recovers the terms of each pattern. When torsions are matched
    but none of their patterns has a term, the call raises [IndexError]
    (the empty index array is a float array). *)
Theorem proper_torsion_terms {TK : Toolkit} (smirks : list string)
    (params : list (list (Term TK))) (props : Props TK) (mol : PyMol TK)
    (torsion_idxs : list (list Z)) (param_idxs : list nat) :
  annotation mol = None ->
  generate_vd_idxs (rd_mol mol) (pth_smirks (pth_init smirks params props))
  = Ok (torsion_idxs, param_idxs) ->
  pth_parameterize (pth_init smirks params props) mol
  = match param_idxs, assigned_terms params param_idxs with
    | _ :: _, [] => Raise IndexError
    | _, assigned =>
        Ok (assigned, repeated_idxs params torsion_idxs param_idxs)
    end.
Proof.
  intros Hann Hvd. unfold pth_parameterize.
  destruct (pth_init_fields smirks params props) as (Hc & Hs & Hp).
  rewrite Hc, Hp. rewrite Hs in Hvd |- *.
  set (z := zip smirks params) in *.
  assert (map (fun st : string * list (Term TK) => length (snd st)) z
          = map length (map snd z)) as -> by (rewrite map_map; reflexivity).
  rewrite flat_map_concat_map.
  rewrite (pth_static_parameterize_eq (map snd z) (map fst z) mol torsion_idxs
             param_idxs Hann Hvd) by (rewrite !length_map; reflexivity).
  destruct (generate_vd_idxs_facts _ _ _ _ Hvd) as (Hl & Hlast).
  assert (Forall (fun p => (p < length z)%nat) param_idxs) as Hps.
  { apply Forall_forall. intros p Hp'. apply list_elem_of_lookup in Hp'.
    destruct Hp' as [i Hi].
    destruct (lookup_lt_is_Some_2 torsion_idxs i) as [k Hk].
    { rewrite Hl. exact (lookup_lt_Some _ _ _ Hi). }
    destruct (Hlast i k p Hk Hi) as [Hm _].
    apply matched_by_lt in Hm. rewrite length_map in Hm. exact Hm. }
  assert (forall p, (p < length z)%nat ->
                    terms_of (map snd z) p = terms_of params p) as Hterms.
  { intros p Hlt. unfold terms_of. subst z.
    rewrite (zip_snd_lookup smirks params p Hlt). reflexivity. }
  assert (assigned_terms (map snd z) param_idxs
          = assigned_terms params param_idxs) as Ha.
  { unfold assigned_terms.
    apply (flat_map_ext_Forall _ _ _ _ Hps). exact Hterms. }
  assert (repeated_idxs (map snd z) torsion_idxs param_idxs
          = repeated_idxs params torsion_idxs param_idxs) as Hr.
  { unfold repeated_idxs.
    apply (flat_map_ext_Forall _ _ (fun tp => (snd tp < length z)%nat)).
    - apply Forall_forall. intros [t p] Hin. apply list_elem_of_lookup in Hin.
      destruct Hin as [i Hi]. apply lookup_zip_Some in Hi.
      destruct Hi as [_ Hi]. rewrite Forall_forall in Hps. apply Hps.
      exact (list_elem_of_lookup_2 _ _ _ Hi).
    - intros [t p] Hlt. cbn [fst snd] in *. rewrite (Hterms p Hlt).
      reflexivity. }
  destruct param_idxs as [|p ps]; rewrite ?Ha, Hr; reflexivity.
Qed.

Lemma proper_torsion_terms_witness :
  pth_parameterize (TK := toy_toolkit)
    (pth_init (TK := toy_toolkit) toy_torsion_smirks toy_torsion_params tt)
    toy_proper_mol
  = Ok ([31; 32; 10], [[0; 1; 2; 3]; [0; 1; 2; 3]; [3; 2; 1; 4]]).
Proof.
  apply (proper_torsion_terms (TK := toy_toolkit) toy_torsion_smirks
           toy_torsion_params tt toy_proper_mol [[0; 1; 2; 3]; [3; 2; 1; 4]]
           [2%nat; 0%nat]); reflexivity.
Defined.

Example proper_torsion_without_terms :
  pth_parameterize (TK := toy_toolkit)
    (pth_init (TK := toy_toolkit) ["[*:1]~[*:2]~[*:3]~[*:4]"%string] [[]] tt)
    toy_proper_mol
  = Raise IndexError.
Proof. reflexivity. Qed.

Section Serialize.
Context {TK : Toolkit}.

Lemma serialize_terms_eq (pre ts post : list (Term TK)) :
  forall acc,
    serialize_terms (pre ++ ts ++ post) (length ts) acc (length pre)
    = Ok (acc ++ ts, (length pre + length ts)%nat).
Proof.
  revert pre. induction ts as [|t ts IH]; intros pre acc.
  - cbn. rewrite app_nil_r, Nat.add_0_r. reflexivity.
  - cbn [length serialize_terms]. unfold getitem.
    rewrite lookup_app_r by lia. rewrite Nat.sub_diag.
    cbn [app lookup list_lookup]. rsimpl.
    specialize (IH (pre ++ [t]) (acc ++ [t])).
    rewrite <- !app_assoc, length_app in IH. cbn [app length] in IH.
    rewrite IH. f_equal. f_equal. lia.
Qed.

Lemma serialize_loop_eq (self : ProperTorsionHandler TK)
    (z : list (string * list (Term TK))) :
  pth_counts self = map (fun st => length (snd st)) z ->
  pth_params self = flat_map snd z ->
  forall zdone zrest list_params,
    z = zdone ++ zrest ->
    serialize_loop self (length zdone) (map fst zrest) list_params
      (length (flat_map snd zdone))
    = Ok (list_params ++ map snd zrest).
Proof.
  intros Hc Hp zdone zrest. revert zdone.
  induction zrest as [|[smi ts] zrest IH]; intros zdone list_params Hz.
  - cbn. rewrite app_nil_r. reflexivity.
  - cbn [map fst serialize_loop]. unfold getitem.
    assert (pth_counts self !! length zdone = Some (length ts)) as ->.
    { rewrite Hc, Hz. change (map ?f ?l) with (f <$> l).
      rewrite list_lookup_fmap, lookup_app_r by lia.
      rewrite Nat.sub_diag. reflexivity. }
    rsimpl.
    assert (pth_params self
            = flat_map snd zdone ++ ts ++ flat_map snd zrest) as ->.
    { rewrite Hp, Hz, flat_map_app. reflexivity. }
    rewrite serialize_terms_eq. rsimpl. cbn [app].
    specialize (IH (zdone ++ [(smi, ts)]) (list_params ++ [ts])).
    rewrite length_app, flat_map_app, length_app in IH.
    cbn [length flat_map snd] in IH. rewrite app_nil_r in IH.
    replace (length zdone + 1)%nat with (S (length zdone)) in IH by lia.
    rewrite IH by (rewrite Hz, <- app_assoc; reflexivity).
    rewrite <- app_assoc. reflexivity.
Qed.
End Serialize.

(** X18. [serialize] undoes the flattening of [__init__]: the handler built
    from [smirks] and [params] serializes to the patterns
    [zip(smirks, params)], each pattern with its own terms, and it never
    raises. *)
Theorem serialize_init_round_trip {TK : Toolkit} (smirks : list string)
    (params : list (list (Term TK))) (props : Props TK) :
  pth_serialize (pth_init smirks params props)
  = Ok (drop_suffix "ProperTorsionHandler" (String.length (SUFFIX TK)),
        zip smirks params).
Proof.
  unfold pth_serialize.
  destruct (pth_init_fields smirks params props) as (Hc & Hs & Hp).
  rewrite Hs.
  pose proof (serialize_loop_eq (pth_init smirks params props)
                (zip smirks params) Hc Hp [] (zip smirks params) [] eq_refl)
    as Hloop.
  cbn [length flat_map app] in Hloop. rewrite Hloop. rsimpl.
  f_equal. f_equal. apply zip_fst_snd.
Qed.

Example serialize_toy :
  pth_serialize (TK := toy_toolkit)
    (pth_init (TK := toy_toolkit) toy_torsion_smirks toy_torsion_params tt)
  = Ok ("ProperTorsion"%string,
        [("[*:1]~[*:2]~[*:3]~[*:4]"%string, [10]);
         ("[#1:1]~[*:2]~[*:3]~[*:4]"%string, []);
         ("[#6:1]~[#6:2]~[#6:3]~[#6:4]"%string, [31; 32])]).
Proof. reflexivity. Qed.

(** ** [handle_omm_torsions] after [annotate_mol_sys_torsions] *)

Section HandleOmm.
Context {TK : Toolkit}.

Lemma take_rows_Permutation {A} (a : list A) (l l' : list nat) :
  l ≡ₚ l' ->
  forall xs,
    take_rows a l = Ok xs -> exists xs', take_rows a l' = Ok xs' /\ xs ≡ₚ xs'.
Proof.
  induction 1 as [|i l l' Hperm IH|i j l|l l' l'' H1 IH1 H2 IH2]; intros xs H.
  - exists xs. split; [exact H|reflexivity].
  - cbn [take_rows] in H |- *. destruct (a !! i) as [x|]; [|discriminate].
    cbn [rbind Ok Raise] in H |- *. inv_bind H as ys Hys. injection H as <-.
    destruct (IH _ Hys) as (ys' & -> & Hp). exists (x :: ys').
    split; [reflexivity|]. constructor. exact Hp.
  - cbn [take_rows] in H |- *.
    destruct (a !! j) as [y|]; [|discriminate]. cbn [rbind Ok Raise] in H.
    destruct (a !! i) as [x|]; [|discriminate].
    cbn [rbind Ok Raise] in H |- *.
    destruct (take_rows a l) as [e|ys]; [discriminate|].
    cbn [rbind Ok Raise] in H |- *. injection H as <-.
    exists (x :: y :: ys). split; [reflexivity|]. apply perm_swap.
  - destruct (IH1 _ H) as (ys & Hys & Hp1).
    destruct (IH2 _ Hys) as (zs & Hzs & Hp2).
    exists zs. split; [exact Hzs|]. etransitivity; eassumption.
Qed.

Lemma take_rows_all {A} (a : list A) (l : list nat) :
  l ≡ₚ seq 0 (length a) ->
  exists xs, take_rows a l = Ok xs /\ xs ≡ₚ a.
Proof.
  intros Hperm.
  pose proof (take_rows_seq [] a []) as Hall.
  cbn [app length] in Hall. rewrite app_nil_r in Hall.
  destruct (take_rows_Permutation a _ _ (symmetry Hperm) a Hall)
    as (xs & Hxs & Hp).
  exists xs. split; [exact Hxs|symmetry; exact Hp].
Qed.

Lemma take_rows_split {A} (a : list A) (l1 l2 : list nat) (xs : list A) :
  take_rows a (l1 ++ l2) = Ok xs ->
  exists x1 x2,
    take_rows a l1 = Ok x1 /\ take_rows a l2 = Ok x2 /\ xs = x1 ++ x2.
Proof.
  rewrite take_rows_app. intros H.
  destruct (take_rows a l1) as [e|x1]; [discriminate|].
  cbn [rbind Ok Raise] in H.
  destruct (take_rows a l2) as [e|x2]; [discriminate|].
  cbn [rbind Ok Raise] in H. injection H as <-.
  exists x1, x2. repeat split.
Qed.
End HandleOmm.

(** X19. After [annotate_mol_sys_torsions] without a graph,
    [handle_omm_torsions] returns for the proper and for the improper
    torsions, and between them the two calls hand out every torsion of
    the system and every parameter row once. *)
Theorem handle_omm_torsions_split {TK : Toolkit} {K : Type}
    (nonzero : K -> bool) (mol : PyMol TK) (omm_system : OmmSystem TK)
    (smirks : list string) (mol' : PyMol TK) (idxs : list (list Z))
    (params : list (Term TK)) :
  annotate_mol_sys_torsions nonzero mol omm_system None smirks = Ok mol' ->
  idxs_params_from_t TK (periodic_torsion_forces TK omm_system)
  = Ok (idxs, params) ->
  length params = length idxs ->
  exists proper_params proper_idxs improper_params improper_idxs,
    handle_omm_torsions mol' true = Ok (proper_params, proper_idxs) /\
    handle_omm_torsions mol' false = Ok (improper_params, improper_idxs) /\
    proper_idxs ++ improper_idxs ≡ₚ idxs /\
    proper_params ++ improper_params ≡ₚ params.
Proof.
  intros Hann Hidxs Hlen. apply annotate_without_graph in Hann.
  destruct Hann as (f & idxs' & params' & pts & pis & Hf & Hidxs' & _ & ->).
  rewrite Hf in Hidxs. rewrite Hidxs in Hidxs'. injection Hidxs' as <- <-.
  pose proof (prune_torsions_partition idxs pts) as Hperm.
  destruct (take_rows_all idxs _ Hperm) as (xs & Hxs & Hpx).
  rewrite <- Hlen in Hperm at 2.
  destruct (take_rows_all params _ Hperm) as (ys & Hys & Hpy).
  apply take_rows_split in Hxs, Hys.
  destruct Hxs as (pi & ii & Hpi & Hii & ->).
  destruct Hys as (pa & ia & Hpa & Hia & ->).
  exists pa, pi, ia, ii. unfold handle_omm_torsions.
  cbn [annotation]. rsimpl. cbn [openmm_system pt_idxs it_idxs].
  rewrite Hf, Hidxs. rsimpl. rewrite Hpi, Hpa, Hii, Hia.
  repeat split; assumption.
Qed.

Lemma handle_omm_torsions_split_witness :
  exists mol' proper_params proper_idxs improper_params improper_idxs,
    annotate_mol_sys_torsions (TK := toy_toolkit) (fun _ : unit => true)
      toy_torsion_mol (toy_omm_torsions, [1; 2; 3; 4]) None
      ["[*:1]~[*:2]~[*:3]~[*:4]"%string] = Ok mol' /\
    handle_omm_torsions mol' true = Ok (proper_params, proper_idxs) /\
    handle_omm_torsions mol' false = Ok (improper_params, improper_idxs) /\
    proper_idxs ++ improper_idxs ≡ₚ toy_omm_torsions /\
    proper_params ++ improper_params ≡ₚ [1; 2; 3; 4].
Proof.
  destruct (annotate_mol_sys_torsions (TK := toy_toolkit) (fun _ : unit => true)
              toy_torsion_mol (toy_omm_torsions, [1; 2; 3; 4]) None
              ["[*:1]~[*:2]~[*:3]~[*:4]"%string]) as [e|mol'] eqn:Hcall;
    [discriminate Hcall|].
  destruct (handle_omm_torsions_split (TK := toy_toolkit)
              (fun _ : unit => true) toy_torsion_mol
              (toy_omm_torsions, [1; 2; 3; 4]) ["[*:1]~[*:2]~[*:3]~[*:4]"%string]
              mol' toy_omm_torsions [1; 2; 3; 4] Hcall eq_refl eq_refl)
    as (pa & pi & ia & ii & H1 & H2 & H3 & H4).
  exists mol', pa, pi, ia, ii. split; [reflexivity|].
  repeat split; assumption.
Defined.

(** ** [ImproperTorsionHandler] *)

Section MakeKey.

Lemma sorted_three (a b c : Z) :
  exists s0 s1 s2,
    sorted [a; b; c] = [s0; s1; s2] /\ s0 <= s1 <= s2 /\
    [s0; s1; s2] ≡ₚ [a; b; c].
Proof.
  pose proof (merge_sort_Permutation Z.le [a; b; c]) as Hperm.
  pose proof (StronglySorted_merge_sort Z.le [a; b; c]) as Hsorted.
  fold (sorted [a; b; c]) in Hperm, Hsorted.
  pose proof (Permutation_length Hperm) as Hlen.
  destruct (sorted [a; b; c]) as [|s0 [|s1 [|s2 [|? ?]]]]; try discriminate.
  exists s0, s1, s2. split; [reflexivity|]. split; [|exact Hperm].
  apply StronglySorted_inv in Hsorted. destruct Hsorted as [Hrest H0].
  apply StronglySorted_inv in Hrest. destruct Hrest as [_ H1].
  apply Forall_cons in H0. destruct H0 as [H01 _].
  apply Forall_cons in H1. destruct H1 as [H12 _]. lia.
Qed.

Lemma sorted_Permutation (l l' : list Z) : l ≡ₚ l' -> sorted l = sorted l'.
Proof.
  intros Hperm. unfold sorted.
  apply (StronglySorted_unique Z.le).
  - apply StronglySorted_merge_sort; apply _.
  - apply StronglySorted_merge_sort; apply _.
  - rewrite !merge_sort_Permutation. exact Hperm.
Qed.

Lemma make_key_eq (a ctr b c : Z) :
  make_key [a; ctr; b; c]
  = Ok [sorted [a; b; c] !!! 0%nat; ctr; sorted [a; b; c] !!! 1%nat;
        sorted [a; b; c] !!! 2%nat].
Proof.
  unfold make_key. cbn [length Nat.eqb py_assert]. rsimpl.
  unfold getitem at 1 2 3 4. cbn [lookup list_lookup]. rsimpl.
  destruct (sorted_three a b c) as (s0 & s1 & s2 & -> & _). reflexivity.
Qed.
End MakeKey.

(** X20. The key of an improper torsion keeps the centre (the second atom
    of the match) in place and lists the three neighbours in increasing
    order, so two matches that differ in the order of the neighbours have
    one key. A match that does not have four atoms fails the assertion. *)
Theorem make_key_ignores_neighbour_order (a b c a' b' c' ctr : Z) :
  [a; b; c] ≡ₚ [a'; b'; c'] ->
  make_key [a; ctr; b; c] = make_key [a'; ctr; b'; c'] /\
  (exists s0 s1 s2,
      make_key [a; ctr; b; c] = Ok [s0; ctr; s1; s2] /\
      s0 <= s1 <= s2 /\ [s0; s1; s2] ≡ₚ [a; b; c]) /\
  (forall idxs : list Z,
      length idxs <> 4%nat ->
      make_key idxs = Raise (AssertionError no_message)).
Proof.
  intros Hperm. split; [|split].
  - rewrite !make_key_eq, (sorted_Permutation _ _ Hperm). reflexivity.
  - destruct (sorted_three a b c) as (s0 & s1 & s2 & Hs & Hle & Hp).
    exists s0, s1, s2. rewrite make_key_eq, Hs. split; [reflexivity|].
    split; assumption.
  - intros idxs Hlen. unfold make_key.
    apply Nat.eqb_neq in Hlen. rewrite Hlen. reflexivity.
Qed.

Lemma make_key_ignores_neighbour_order_witness :
  make_key [5; 1; 0; 2] = make_key [2; 1; 5; 0] /\
  make_key [5; 1; 0; 2] = Ok [0; 1; 2; 5].
Proof.
  destruct (make_key_ignores_neighbour_order 5 0 2 2 5 0 1) as (Heq & _ & _).
  - apply (Permutation_cons_app [2] [0] 5). cbn [app]. apply perm_swap.
  - split; [exact Heq|reflexivity].
Defined.

Section ImproperRows.
Context {TK : Toolkit}.

Lemma improper_rows_spec (items : list (list Z * nat)) :
  forall ai ap ri rp,
    improper_rows items ai ap = Ok (ri, rp) ->
    exists rows,
      ri = ai ++ rows /\
      rp = ap ++ flat_map (fun kp => [snd kp; snd kp; snd kp]) items /\
      length rows = (3 * length items)%nat /\
      forall (j : nat) k p,
        items !! j = Some (k, p) ->
        exists r0 r1 r2,
          improper_block k r0 r1 r2 /\
          rows !! (3 * j)%nat = Some r0 /\
          rows !! (3 * j + 1)%nat = Some r1 /\
          rows !! (3 * j + 2)%nat = Some r2.
Proof.
  induction items as [|[k p] items IH]; intros ai ap ri rp H.
  - cbn in H. injection H as <- <-. exists []. rewrite !app_nil_r.
    repeat split. intros j k p Hj. discriminate.
  - cbn [improper_rows] in H.
    inv_bind H as center Hc. inv_bind H as o0 H0. inv_bind H as o1 H1.
    inv_bind H as o2 H2. inv_bind H as r0 Hr0. inv_bind H as r1 Hr1.
    inv_bind H as r2 Hr2.
    destruct (IH _ _ _ _ H) as (rows & -> & -> & Hlen & Hrows).
    exists ([r0; r1; r2] ++ rows). rewrite <- !app_assoc.
    split; [reflexivity|]. split; [reflexivity|].
    split; [rewrite length_app; cbn [length]; lia|].
    intros [|j] k' p' Hj.
    + injection Hj as <- <-. exists r0, r1, r2.
      split; [|repeat split].
      exists o0, center, o1, o2. repeat split; assumption.
    + destruct (Hrows j k' p' Hj) as (q0 & q1 & q2 & Hb & Hq0 & Hq1 & Hq2).
      exists q0, q1, q2. split; [exact Hb|].
      replace (3 * S j)%nat with (3 + 3 * j)%nat by lia.
      replace (3 + 3 * j + 1)%nat with (3 + (3 * j + 1))%nat by lia.
      replace (3 + 3 * j + 2)%nat with (3 + (3 * j + 2))%nat by lia.
      repeat split; assumption.
Qed.

Lemma take_rows_triples {A} (a : list A) (items : list (list Z * nat))
    (xs : list A) :
  take_rows a (flat_map (fun kp => [snd kp; snd kp; snd kp]) items) = Ok xs ->
  length xs = (3 * length items)%nat /\
  forall (j : nat) k p,
    items !! j = Some (k, p) ->
    exists t,
      a !! p = Some t /\ xs !! (3 * j)%nat = Some t /\
      xs !! (3 * j + 1)%nat = Some t /\ xs !! (3 * j + 2)%nat = Some t.
Proof.
  revert xs. induction items as [|[k0 p0] items IH]; intros xs H.
  - cbn in H. injection H as <-. split; [reflexivity|].
    intros j k p Hj. discriminate.
  - cbn [flat_map snd] in H. rewrite take_rows_app in H.
    cbn [take_rows] in H. destruct (a !! p0) as [t|] eqn:Ht; [|discriminate].
    cbn [rbind Ok Raise] in H. inv_bind H as xs' Hxs. injection H as <-.
    destruct (IH _ Hxs) as [Hlen Hrows].
    split; [cbn [app length]; lia|].
    intros [|j] k p Hj.
    + injection Hj as <- <-. exists t. repeat split; assumption.
    + destruct (Hrows j k p Hj) as (t' & Hp & H0 & H1 & H2).
      exists t'. split; [exact Hp|].
      replace (3 * S j)%nat with (3 + 3 * j)%nat by lia.
      replace (3 + 3 * j + 1)%nat with (3 + (3 * j + 1))%nat by lia.
      replace (3 + 3 * j + 2)%nat with (3 + (3 * j + 2))%nat by lia.
      repeat split; assumption.
Qed.
End ImproperRows.

(** X21. [ImproperTorsionHandler.static_parameterize] keeps one improper
    per key, with the last pattern that matches it, and turns each into
    three consecutive rows: the centre followed by the other three atoms
    in their three cyclic orders, all three with the parameters of that
    pattern. *)
Theorem improper_rows_per_key {TK : Toolkit} (params : list (Term TK))
    (smirks : list string) (mol : Mol TK) (assigned : list (Term TK))
    (improper_idxs : list (list Z)) :
  ith_static_parameterize params smirks mol = Ok (assigned, improper_idxs) ->
  exists impropers : list (list Z * nat),
    pattern_loop make_key mol 0 smirks [] = Ok impropers /\
    NoDup (map fst impropers) /\
    (forall k p, In (k, p) impropers <-> last_match make_key mol smirks p k) /\
    length improper_idxs = (3 * length impropers)%nat /\
    length assigned = (3 * length impropers)%nat /\
    forall (j : nat) k p,
      impropers !! j = Some (k, p) ->
      exists r0 r1 r2 t,
        improper_block k r0 r1 r2 /\ params !! p = Some t /\
        improper_idxs !! (3 * j)%nat = Some r0 /\
        improper_idxs !! (3 * j + 1)%nat = Some r1 /\
        improper_idxs !! (3 * j + 2)%nat = Some r2 /\
        assigned !! (3 * j)%nat = Some t /\
        assigned !! (3 * j + 1)%nat = Some t /\
        assigned !! (3 * j + 2)%nat = Some t.
Proof.
  unfold ith_static_parameterize. intros H.
  inv_bind H as impropers Hloop. inv_bind H as [rows ps] Hrows.
  exists impropers. split; [exact Hloop|].
  destruct (pattern_loop_last_match _ _ _ _ Hloop) as [Hnd Hin].
  split; [exact Hnd|]. split; [exact Hin|].
  apply improper_rows_spec in Hrows.
  destruct Hrows as (rows' & -> & -> & Hlen & Hblocks). cbn [app] in *.
  destruct impropers as [|[k0 p0] impropers].
  - cbn in H. injection H as <- <-. repeat split. intros j k p Hj.
    discriminate.
  - cbn [flat_map snd app length Nat.ltb Nat.leb] in H.
    inv_bind H as xs Hxs. injection H as <- <-.
    apply (take_rows_triples params ((k0, p0) :: impropers)) in Hxs.
    destruct Hxs as [Hlenx Htriples].
    split; [exact Hlen|]. split; [exact Hlenx|].
    intros j k p Hj.
    destruct (Hblocks j k p Hj) as (r0 & r1 & r2 & Hb & H0 & H1 & H2).
    destruct (Htriples j k p Hj) as (t & Hp & T0 & T1 & T2).
    exists r0, r1, r2, t. repeat split; assumption.
Qed.

Lemma improper_rows_per_key_witness :
  ith_static_parameterize (TK := toy_toolkit) [7] toy_improper_smirks
    toy_improper_mol
  = Ok ([7; 7; 7], [[1; 0; 2; 5]; [0; 5; 2; 1]; [1; 5; 0; 2]]) /\
  exists impropers : list (list Z * nat),
    pattern_loop (TK := toy_toolkit) make_key toy_improper_mol 0
      toy_improper_smirks [] = Ok impropers /\
    length impropers = 1%nat.
Proof.
  split; [reflexivity|].
  destruct (improper_rows_per_key (TK := toy_toolkit) [7] toy_improper_smirks
              toy_improper_mol [7; 7; 7]
              [[1; 0; 2; 5]; [0; 5; 2; 1]; [1; 5; 0; 2]] eq_refl)
    as (impropers & Hloop & _ & _ & Hlen & _).
  exists impropers. split; [exact Hloop|]. cbn in Hlen. lia.
Defined.

